(** * qq.py: the client facade and the connection state manager

    A shallow embedding of [qq/client.py] ([Client]: construction, [event],
    [dispatch], [_run_event], [close], [clear], [connect], [login], [start]
    and the runner of [run]) and of [qq/state.py] ([ChunkRequest],
    [ConnectionState.__init__]), with the properties of the specification
    that concern them and further properties of the code.

    Python objects that are mutated in place and shared (futures, the
    member buffer of a chunk request) live in explicit stores and are
    referred to by identifiers, so that two references to one object are
    two occurrences of one identifier. *)

From Stdlib Require Import ZArith QArith.
From stdpp Require Import base tactics option list strings gmap pretty.

(** ** Exceptions

    The classes the two modules raise, catch or let through.  Only
    [KeyboardInterrupt], [SystemExit] and [CancelledError] are outside
    [Exception].  [UserException] stands for the other classes within
    [Exception], by name. *)

Inductive exn : Type :=
  | OSError (errno : option Z)
  | HTTPException
  | GatewayNotFound
  | ConnectionClosed (code : Z)
  | ClientError
  | TimeoutError
  | ReconnectWebSocket (op : string) (resume : bool)
  | InvalidStateError
  | AttributeError
  | IndexError
  | TypeError
  | ValueError (msg : string)
  | StopIteration
  | KeyboardInterrupt
  | SystemExit
  | CancelledError
  | UserException (name : string).

Definition is_Exception (e : exn) : bool :=
  match e with
  | KeyboardInterrupt | SystemExit | CancelledError => false
  | _ => true
  end.

Definition is_StopIteration (e : exn) : bool :=
  match e with StopIteration => true | _ => false end.

Inductive result (A : Type) : Type :=
  | Ok (a : A)
  | Raise (e : exn).
Arguments Ok {A} a.
Arguments Raise {A} e.

(** ** Python values *)

(** The floats that are not rationals. *)
Inductive nonfinite : Type := NaN | PosInf | NegInf.

(** [PFloat] is a finite float, by the rational it denotes, and
    [PNonFinite] one of the others.  [PObj] is an object of a class with no
    truth value and no ordering of its own: it is true, and comparing it
    with an [int] is a [TypeError].  [PCustom] is an object of a class that
    defines them ([decimal.Decimal], [fractions.Fraction], an array): it
    comes with its truth value and with what [v <= n] and [v < n] come to in
    a condition for an [int] [n], a truth value or an exception. *)
#[warnings="-register-all"]
Inductive pyval : Type :=
  | PNone
  | PBool (b : bool)
  | PInt (z : Z)
  | PFloat (q : Q)
  | PNonFinite (x : nonfinite)
  | PStr (s : string)
  | PTuple (items : list pyval)
  | PDict (entries : list (string * pyval))
  | PObj (name : string)
  | PCustom (name : string) (truth : bool) (le lt : Z → result bool).

(** Truth value testing, as [if result:] performs it. *)
Definition truthy (v : pyval) : bool :=
  match v with
  | PNone => false
  | PBool b => b
  | PInt z => negb (z =? 0)%Z
  | PFloat q => negb (Qeq_bool q 0)
  | PNonFinite _ => true
  | PStr s => negb (String.eqb s "")
  | PTuple items => negb (Nat.eqb (length items) 0)
  | PDict entries => negb (Nat.eqb (length entries) 0)
  | PObj _ => true
  | PCustom _ truth _ _ => truth
  end.

(** ** Futures

    An [asyncio.Future] is an object of the event loop; the store maps the
    identifier of a future to its state.  A future that was created and
    never touched is pending. *)

Inductive fstate (R : Type) : Type :=
  | Pending
  | Cancelled
  | Finished (r : R)
  | Failed (e : exn).
Arguments Pending {R}.
Arguments Cancelled {R}.
Arguments Finished {R} r.
Arguments Failed {R} e.

Definition future := nat.

Module Future.
Section Futures.
Context {R : Type}.

Definition fstate_of (fs : gmap future (fstate R)) (f : future) : fstate R :=
  default Pending (fs !! f).

Definition cancelled (fs : gmap future (fstate R)) (f : future) : bool :=
  match fstate_of fs f with Cancelled => true | _ => false end.

Definition done (fs : gmap future (fstate R)) (f : future) : bool :=
  match fstate_of fs f with Pending => false | _ => true end.

(** [Future.set_result] and [Future.set_exception] raise
    [InvalidStateError] on a future that is already done; on a pending
    future [set_exception] refuses a [StopIteration] with a [TypeError]. *)
Definition set_result (fs : gmap future (fstate R)) (f : future) (r : R)
  : result (gmap future (fstate R)) :=
  if done fs f then Raise InvalidStateError else Ok (<[f := Finished r]> fs).

Definition set_exception (fs : gmap future (fstate R)) (f : future) (e : exn)
  : result (gmap future (fstate R)) :=
  if done fs f then Raise InvalidStateError
  else if is_StopIteration e then Raise TypeError
  else Ok (<[f := Failed e]> fs).

(** [Future.cancel] changes a pending future only. *)
Definition cancel (fs : gmap future (fstate R)) (f : future)
  : gmap future (fstate R) :=
  if done fs f then fs else <[f := Cancelled]> fs.

(** [loop.create_future()]: a future no one refers to yet. *)
Definition create_future (fs : gmap future (fstate R))
  : future * gmap future (fstate R) :=
  let f := fresh (dom fs) in (f, <[f := Pending]> fs).
End Futures.
End Future.

(** ** The client: [qq/client.py] *)

(** A function object handed to [Client.event]. *)
Record function : Type := {
  __name__ : string;
  fn_id : nat;
  iscoroutinefunction : bool
}.

(** A one-shot waiter: a future and the predicate that is applied to the
    positional arguments of the event. *)
Definition condition := list pyval → result pyval.
Definition waiter : Type := future * condition.

Record QQWebSocket : Type := {
  ws_id : nat;
  open : bool;
  sequence : pyval;
  session_id : pyval
}.

Inductive callable : Type :=
  | UserFunction (f : function)
  | BoundMethod (name : string).

(** Coroutine objects: the one [Client._run_event] returns for a handler,
    an event name and the arguments of the event, which awaits the handler
    applied to these arguments; the one a function bound by [event]
    returns when it is called in the place of [_run_event] or of
    [_schedule_event], with the same arguments; and the one such a function
    returns when it is called in the place of another method, with the
    arguments of that call. *)
Inductive coroutine : Type :=
  | Co_run_event (coro : callable) (event_name : string)
      (args : list pyval) (kwargs : list (string * pyval))
  | Co_user (f : function) (coro : callable) (event_name : string)
      (args : list pyval) (kwargs : list (string * pyval))
  | Co_call (f : function) (args : list pyval)
      (kwargs : list (string * pyval)).

(** What a method of the client does to the world outside its attributes. *)
Inductive effect : Type :=
  | Called (co : coroutine)
  | CreateTask (co : coroutine) (name : string)
  | FromClient (ws_params : gmap string pyval)
  | CloseCalled
  | WsClose (id : nat) (code : Z)
  | HttpClose
  | HttpRecreate
  | Sleep (retry : Q).

(** The functions bound by [event] that an effect calls, at once or when
    the task it creates runs. *)
Definition functions_of (co : coroutine) : list function :=
  match co with
  | Co_run_event (UserFunction f) _ _ _ => [f]
  | Co_run_event (BoundMethod _) _ _ _ => []
  | Co_user f _ _ _ _ => [f]
  | Co_call f _ _ => [f]
  end.

Definition invoked (e : effect) : list function :=
  match e with
  | Called co | CreateTask co _ => functions_of co
  | _ => []
  end.

(** ** The state manager: [ConnectionState] of [qq/state.py] *)

Module ConnectionState.

(** [__init__] assigns the attributes of [self] one after the other and may
    raise in between: a computation on the instance dictionary that returns
    the dictionary as it is when the computation ends or raises. *)
Definition Init (A : Type) : Type :=
  gmap string pyval → gmap string pyval * result A.

#[export] Instance Init_ret : MRet Init := λ A a self, (self, Ok a).
#[export] Instance Init_bind : MBind Init := λ A B k m self,
  match m self with
  | (self', Ok a) => k a self'
  | (self', Raise e) => (self', Raise e)
  end.

Definition setattr (name : string) (v : pyval) : Init unit :=
  λ self, (<[name := v]> self, Ok tt).

Definition getattr (name : string) : Init pyval :=
  λ self, (self, match self !! name with
                 | Some v => Ok v
                 | None => Raise AttributeError
                 end).

Definition raise {A} (e : exn) : Init A := λ self, (self, Raise e).
Definition lift {A} (r : result A) : Init A := λ self, (self, r).
Definition when (b : bool) (m : Init unit) : Init unit :=
  if b then m else mret tt.

(** The finite numbers, by value, [bool] being a subclass of [int]. *)
Definition as_number (v : pyval) : option Q :=
  match v with
  | PBool b => Some (if b then 1%Q else 0%Q)
  | PInt z => Some (inject_Z z)
  | PFloat q => Some q
  | _ => None
  end.

(** [v <= n] and [v < n] for an [int] literal [n], as a condition takes
    them.  Every ordering comparison with a NaN is false. *)
Definition le_int (v : pyval) (n : Z) : result bool :=
  match v with
  | PNonFinite NaN | PNonFinite PosInf => Ok false
  | PNonFinite NegInf => Ok true
  | PCustom _ _ le _ => le n
  | _ =>
      match as_number v with
      | Some q => Ok (Qle_bool q (inject_Z n))
      | None => Raise TypeError
      end
  end.

Definition lt_int (v : pyval) (n : Z) : result bool :=
  match v with
  | PNonFinite NaN | PNonFinite PosInf => Ok false
  | PNonFinite NegInf => Ok true
  | PCustom _ _ _ lt => lt n
  | _ =>
      match as_number v with
      | Some q => Ok (negb (Qle_bool (inject_Z n) q))
      | None => Raise TypeError
      end
  end.

Definition is_None (v : pyval) : bool :=
  match v with PNone => true | _ => false end.

(** [str.upper] on ASCII text, for the examples: [str.upper] itself follows
    Unicode and is a parameter of [__init__] below. *)
Definition upper_ascii (a : Ascii.ascii) : Ascii.ascii :=
  let n := Ascii.nat_of_ascii a in
  if (97 <=? n)%nat && (n <=? 122)%nat then Ascii.ascii_of_nat (n - 32) else a.

Fixpoint ascii_upper (s : string) : string :=
  match s with
  | EmptyString => EmptyString
  | String a s' => String (upper_ascii a) (ascii_upper s')
  end.

(** [d[key] = v] on a dictionary kept in insertion order. *)
Fixpoint dict_set (key : string) (v : pyval) (d : list (string * pyval))
  : list (string * pyval) :=
  match d with
  | [] => [(key, v)]
  | (k, x) :: d' =>
      if String.eqb k key then (k, v) :: d' else (k, x) :: dict_set key v d'
  end.

(** Modelled from the spec: [ConnectionState.clear] is called by [__init__]
    but its body is not part of [qq/state.py] as given; by the
    specification it drops all cached guilds, users and messages and any
    in-flight chunk requests.  It assigns no other attribute and does not
    raise. *)
Definition clear : Init unit :=
  _ ← setattr "guilds" (PDict []);
  _ ← setattr "users" (PDict []);
  _ ← setattr "messages" (PDict []);
  setattr "_chunk_requests" (PDict []).

Section Init.
(** [str.upper]. *)
Variable upper : string → string.
(** The pairs [inspect.getmembers(self)] yields; the [parse_] methods of
    the class are among them. *)
Variable members : list (string * pyval).

Definition parsers : list (string * pyval) :=
  foldl (λ parsers '(attr, func),
           if String.prefix "parse_" attr
           then dict_set (upper (String.substring 6 (String.length attr - 6) attr))
                         func parsers
           else parsers)
        [] members.

Definition __init__ (dispatch handlers hooks http loop : pyval)
    (options : gmap string pyval) : Init unit :=
  _ ← setattr "loop" loop;
  _ ← setattr "http" http;
  _ ← setattr "max_messages" (default (PInt 1000) (options !! "max_messages"));
  max_messages ← getattr "max_messages";
  _ ← (if is_None max_messages then mret tt
       else b ← lift (le_int max_messages 0);
            when b (setattr "max_messages" (PInt 1000)));
  _ ← setattr "dispatch" dispatch;
  _ ← setattr "handlers" handlers;
  _ ← setattr "hooks" hooks;
  _ ← setattr "shard_count" PNone;
  _ ← setattr "_ready_task" PNone;
  _ ← setattr "application_id" (default PNone (options !! "application_id"));
  _ ← setattr "heartbeat_timeout"
        (default (PFloat 60) (options !! "heartbeat_timeout"));
  _ ← setattr "guild_ready_timeout"
        (default (PFloat 2) (options !! "guild_ready_timeout"));
  guild_ready_timeout ← getattr "guild_ready_timeout";
  negative ← lift (lt_int guild_ready_timeout 0);
  _ ← when negative (raise (ValueError "guild_ready_timeout cannot be negative"));
  _ ← setattr "_chunk_requests" (PDict []);
  _ ← setattr "parsers" (PDict parsers);
  clear.

(** [ConnectionState(dispatch=..., ..., **options)]: [__init__] on a new
    instance, whose dictionary is empty.  The first component is the
    dictionary of the instance when [__init__] returns or raises. *)
Definition new (dispatch handlers hooks http loop : pyval)
    (options : gmap string pyval) : gmap string pyval * result unit :=
  __init__ dispatch handlers hooks http loop options ∅.
End Init.

End ConnectionState.

(** ** The client: [Client] of [qq/client.py] *)

Module Client.

(** The instance attributes of a [Client].  The typed fields are the
    attributes as [__init__] and the methods of the class bind them; the
    attributes no method below reads ([loop], [http], [_handlers],
    [_hooks]) are left out.  [instance_attrs] holds the names that [event]
    has bound on the instance with [setattr], each with the coroutine
    function bound to it.  A name bound there hides the method of the
    class of that name: [dispatch], [_run_event], [connect], [start] and
    the runner of [run] are modelled with the lookup of the methods they
    call on the instance.  If it is the name of a data attribute, the
    function has taken the place of the value the typed field tells: the
    typed fields tell the attributes as long as [event] has not bound
    their names.  [close], [clear], [is_closed], [is_ready],
    [_handle_ready] and [login], which read and write these attributes,
    are modelled on the typed fields; the properties of [connect] and of
    the runner that rely on them say, with [unbound], that the names are
    not bound.  [futures] is the store of the futures the waiters refer
    to. *)
Record t : Type := {
  ws : option QQWebSocket;
  _listeners : gmap string (list waiter);
  token : string;
  shard_id : pyval;
  shard_count : pyval;
  _enable_debug_events : pyval;
  _connection : gmap string pyval;
  _closed : bool;
  _ready : bool;
  instance_attrs : gmap string function;
  futures : gmap future (fstate pyval)
}.

Definition with_ws (w : option QQWebSocket) (c : t) : t :=
  {| ws := w; _listeners := _listeners c; token := token c;
     shard_id := shard_id c; shard_count := shard_count c;
     _enable_debug_events := _enable_debug_events c;
     _connection := _connection c; _closed := _closed c; _ready := _ready c;
     instance_attrs := instance_attrs c; futures := futures c |}.

Definition with_listeners (l : gmap string (list waiter)) (c : t) : t :=
  {| ws := ws c; _listeners := l; token := token c;
     shard_id := shard_id c; shard_count := shard_count c;
     _enable_debug_events := _enable_debug_events c;
     _connection := _connection c; _closed := _closed c; _ready := _ready c;
     instance_attrs := instance_attrs c; futures := futures c |}.

Definition with_connection (st : gmap string pyval) (c : t) : t :=
  {| ws := ws c; _listeners := _listeners c; token := token c;
     shard_id := shard_id c; shard_count := shard_count c;
     _enable_debug_events := _enable_debug_events c;
     _connection := st; _closed := _closed c; _ready := _ready c;
     instance_attrs := instance_attrs c; futures := futures c |}.

Definition with_closed (b : bool) (c : t) : t :=
  {| ws := ws c; _listeners := _listeners c; token := token c;
     shard_id := shard_id c; shard_count := shard_count c;
     _enable_debug_events := _enable_debug_events c;
     _connection := _connection c; _closed := b; _ready := _ready c;
     instance_attrs := instance_attrs c; futures := futures c |}.

Definition with_ready (b : bool) (c : t) : t :=
  {| ws := ws c; _listeners := _listeners c; token := token c;
     shard_id := shard_id c; shard_count := shard_count c;
     _enable_debug_events := _enable_debug_events c;
     _connection := _connection c; _closed := _closed c; _ready := b;
     instance_attrs := instance_attrs c; futures := futures c |}.

Definition with_instance_attrs (a : gmap string function) (c : t) : t :=
  {| ws := ws c; _listeners := _listeners c; token := token c;
     shard_id := shard_id c; shard_count := shard_count c;
     _enable_debug_events := _enable_debug_events c;
     _connection := _connection c; _closed := _closed c; _ready := _ready c;
     instance_attrs := a; futures := futures c |}.

Definition with_futures (fs : gmap future (fstate pyval)) (c : t) : t :=
  {| ws := ws c; _listeners := _listeners c; token := token c;
     shard_id := shard_id c; shard_count := shard_count c;
     _enable_debug_events := _enable_debug_events c;
     _connection := _connection c; _closed := _closed c; _ready := _ready c;
     instance_attrs := instance_attrs c; futures := fs |}.

(** *** [Client.__init__] *)

Section Init.
(** The text of a value whose formatting is not modelled (a float, a
    tuple, a dictionary, another object). *)
Variable str_object : pyval → string.
(** [str.upper]. *)
Variable upper : string → string.
(** What [inspect.getmembers] yields on the state manager. *)
Variable state_members : list (string * pyval).

(** The text an f-string field gives for a value. *)
Definition str (v : pyval) : string :=
  match v with
  | PNone => "None"
  | PBool true => "True"
  | PBool false => "False"
  | PInt z => pretty z
  | PStr s => s
  | _ => str_object v
  end.

(** [self._get_state] with the options left: the
    keyword arguments the client passes itself may not occur again. *)
Definition _get_state (options : gmap string pyval)
  : gmap string pyval * result unit :=
  if bool_decide (Exists (λ k, is_Some (options !! k))
                         ["dispatch"; "handlers"; "hooks"; "http"; "loop"])
  then (∅, Raise TypeError)
  else ConnectionState.new upper state_members
         (PObj "Client.dispatch") (PObj "Client._handlers")
         (PObj "Client._hooks") (PObj "HTTPClient") (PObj "loop") options.

Definition __init__ (options : gmap string pyval) : result t :=
  let app_id := default PNone (options !! "app_id") in
  let options := delete "app_id" options in
  let tok := default PNone (options !! "token") in
  let options := delete "token" options in
  let token := str app_id +:+ "." +:+ str tok in
  let shard_id := default PNone (options !! "shard_id") in
  let shard_count := default PNone (options !! "shard_count") in
  let enable_debug_events :=
    default (PBool false) (options !! "enable_debug_events") in
  let options := delete "enable_debug_events" options in
  let options := delete "connector" options in
  let options := delete "proxy" options in
  let options := delete "proxy_auth" options in
  let options := delete "assume_unsync_clock" options in
  match _get_state options with
  | (_, Raise e) => Raise e
  | (state, Ok _) =>
      Ok {| ws := None; _listeners := ∅; token := token;
            shard_id := shard_id; shard_count := shard_count;
            _enable_debug_events := enable_debug_events;
            _connection := <["shard_count" := shard_count]> state;
            _closed := false; _ready := false;
            instance_attrs := ∅; futures := ∅ |}
  end.
End Init.

(** *** [Client.dispatch] *)

(** The result a matching waiter receives, by the number of positional
    arguments. *)
Definition result_of_args (args : list pyval) : pyval :=
  match args with
  | [] => PNone
  | [a] => a
  | _ => PTuple args
  end.

(** The loop over [enumerate(listeners)]: the store of futures, the list
    [removed], and the exception that leaves the loop, if any. *)
Fixpoint scan (args : list pyval) (listeners : list (nat * waiter))
    (fs : gmap future (fstate pyval)) (removed : list nat)
  : gmap future (fstate pyval) * list nat * option exn :=
  match listeners with
  | [] => (fs, removed, None)
  | (i, (future, condition)) :: rest =>
      if Future.cancelled fs future then scan args rest fs (removed ++ [i])
      else
        match condition args with
        | Raise exc =>
            if is_Exception exc then
              match Future.set_exception fs future exc with
              | Raise e => (fs, removed, Some e)
              | Ok fs' => scan args rest fs' (removed ++ [i])
              end
            else (fs, removed, Some exc)
        | Ok result =>
            if truthy result then
              match Future.set_result fs future (result_of_args args) with
              | Raise e => (fs, removed, Some e)
              | Ok fs' => scan args rest fs' (removed ++ [i])
              end
            else scan args rest fs removed
        end
  end.

Definition enumerate {A} (l : list A) : list (nat * A) := imap pair l.

(** [del listeners[idx]] for each index in turn; out of range it raises. *)
Fixpoint del_each {A} (idxs : list nat) (l : list A) : result (list A) :=
  match idxs with
  | [] => Ok l
  | idx :: rest =>
      if decide (idx < length l) then del_each rest (delete idx l)
      else Raise IndexError
  end.

(** The first half of [dispatch]: the one-shot waiters of the event. *)
Definition resolve_listeners (c : t) (event : string) (args : list pyval)
  : t * option exn :=
  match _listeners c !! event with
  | None => (c, None)
  | Some [] => (c, None)
  | Some listeners =>
      let '(fs, removed, exc) := scan args (enumerate listeners) (futures c) [] in
      let c := with_futures fs c in
      match exc with
      | Some e => (c, Some e)
      | None =>
          if decide (length removed = length listeners) then
            (with_listeners (delete event (_listeners c)) c, None)
          else
            match del_each (reverse removed) listeners with
            | Raise e => (c, Some e)
            | Ok listeners' =>
                (with_listeners (<[event := listeners']> (_listeners c)) c, None)
            end
      end
  end.

(** The names the class defines: its methods, and the three properties,
    which have no setter. *)
Definition class_methods : list string :=
  ["_get_websocket"; "_get_state"; "_handle_ready";
   "_call_before_identify_hook"; "before_identify_hook"; "on_error";
   "_run_event"; "_schedule_event"; "dispatch"; "login"; "is_ready";
   "get_guild"; "get_user"; "fetch_guild"; "fetch_guilds"; "run"; "start";
   "clear"; "is_closed"; "connect"; "close"; "event"].

Definition class_properties : list string := ["latency"; "user"; "guilds"].

(** [getattr(self, method)] for a name that is not a data attribute of the
    instance: the instance dictionary first, then the class.  [None] is
    [AttributeError]. *)
Definition getattr (c : t) (method : string) : option callable :=
  match instance_attrs c !! method with
  | Some f => Some (UserFunction f)
  | None =>
      if bool_decide (method ∈ class_methods) then Some (BoundMethod method)
      else None
  end.

(** [Client._schedule_event]; [self._run_event] is looked up on the
    instance. *)
Definition _schedule_event (c : t) (coro : callable) (event_name : string)
    (args : list pyval) (kwargs : list (string * pyval)) : list effect :=
  let wrapped :=
    match instance_attrs c !! "_run_event" with
    | Some f => Co_user f coro event_name args kwargs
    | None => Co_run_event coro event_name args kwargs
    end in
  [CreateTask wrapped ("qq.py: " +:+ event_name)].

Definition dispatch (c : t) (event : string) (args : list pyval)
    (kwargs : list (string * pyval)) : t * list effect * option exn :=
  let method := "on_" +:+ event in
  match instance_attrs c !! "_listeners" with
  | Some _ => (c, [], Some AttributeError)
  | None =>
      match resolve_listeners c event args with
      | (c, Some e) => (c, [], Some e)
      | (c, None) =>
          match getattr c method with
          | None => (c, [], None)
          | Some coro =>
              match instance_attrs c !! "_schedule_event" with
              | Some f => (c, [Called (Co_user f coro method args kwargs)], None)
              | None => (c, _schedule_event c coro method args kwargs, None)
              end
          end
      end
  end.

(** *** [Client.event] *)

(** The names [setattr] refuses on an instance of the class, whatever the
    instance: those of the three properties, which have no setter, and
    [__weakref__], which cannot be written, with [AttributeError];
    [__class__] and [__dict__], which take a class and a dictionary only,
    with [TypeError].  Any other name is bound in the dictionary of the
    instance. *)
Definition setattr_refuses (name : string) : option exn :=
  if bool_decide (name ∈ class_properties) then Some AttributeError
  else if bool_decide (name ∈ ["__class__"; "__dict__"]) then Some TypeError
  else if bool_decide (name = "__weakref__") then Some AttributeError
  else None.

Definition event (c : t) (coro : function) : t * result function :=
  if negb (iscoroutinefunction coro) then (c, Raise TypeError)
  else
    match setattr_refuses (__name__ coro) with
    | Some e => (c, Raise e)
    | None =>
        (with_instance_attrs (<[__name__ coro := coro]> (instance_attrs c)) c,
         Ok coro)
    end.

(** What can be handed to [event]: a function object, which has a
    [__name__]; or a [functools.partial] of one, which
    [asyncio.iscoroutinefunction] takes for the function it wraps and which
    has no [__name__], so that reading it raises [AttributeError]. *)
Inductive registrable : Type :=
  | Plain (f : function)
  | Partial (wrapped : function).

Definition event_object (c : t) (o : registrable) : t * result registrable :=
  match o with
  | Plain f =>
      match event c f with
      | (c', Ok _) => (c', Ok o)
      | (c', Raise e) => (c', Raise e)
      end
  | Partial wrapped =>
      if negb (iscoroutinefunction wrapped) then (c, Raise TypeError)
      else (c, Raise AttributeError)
  end.

(** Modelled from the spec: the registration of a one-shot waiter
    ([wait_for]) is not part of [qq/client.py] as given; by the
    specification it is "registering a future plus a predicate under an
    event name".  The future is a new one and the waiter goes to the end of
    the waiters of the event. *)
Definition register_waiter (c : t) (event : string) (condition : condition)
  : future * t :=
  let '(future, fs) := Future.create_future (futures c) in
  let listeners := default [] (_listeners c !! event) in
  (future,
   with_futures fs
     (with_listeners
        (<[event := listeners ++ [(future, condition)]]> (_listeners c)) c)).

(** *** [Client.close], [is_closed], [is_ready], [clear] *)

Definition is_closed (c : t) : bool := _closed c.
Definition _handle_ready (c : t) : t := with_ready true c.

(** Modelled from the spec: [QQWebSocket.close] is in [qq/gateway.py], which
    is not given; it "gracefully terminates the socket with the given close
    code", and [open] is the liveness of the socket.  It does not raise. *)
Definition QQWebSocket_close (w : QQWebSocket) (code : Z)
  : QQWebSocket * list effect :=
  ({| ws_id := ws_id w; open := false;
      sequence := sequence w; session_id := session_id w |},
   [WsClose (ws_id w) code]).

(** Modelled from the spec: [HTTPClient.close] is in [qq/http.py], which is
    not given; it "releases all held connections".  It does not raise. *)
Definition HTTPClient_close : list effect := [HttpClose].

Definition close (c : t) : t * list effect :=
  if _closed c then (c, [])
  else
    let c := with_closed true c in
    let '(c, closing) :=
      match ws c with
      | Some w =>
          if open w then
            let '(w, effs) := QQWebSocket_close w 1000 in
            (with_ws (Some w) c, effs)
          else (c, [])
      | None => (c, [])
      end in
    (with_ready false c, closing ++ HTTPClient_close).

Definition clear (c : t) : t * list effect :=
  let c := with_closed false c in
  let c := with_ready false c in
  let c := with_connection (ConnectionState.clear (_connection c)).1 c in
  (c, [HttpRecreate]).

(** *** [Client.connect] *)

(** While [connect] is suspended in an [await], other tasks of the same
    loop (the handlers [dispatch] scheduled, the state manager) run and
    call the client. *)
Inductive call : Type :=
  | Call_close
  | Call_handle_ready
  | Call_dispatch (event : string) (args : list pyval)
      (kwargs : list (string * pyval))
  | Call_event (coro : function).

Definition run_call (c : t) (k : call) : t * list effect :=
  match k with
  | Call_close => close c
  | Call_handle_ready => (_handle_ready c, [])
  | Call_dispatch ev args kwargs => (dispatch c ev args kwargs).1
  | Call_event coro => ((event c coro).1, [])
  end.

Fixpoint run_calls (c : t) (ks : list call) : t * list effect :=
  match ks with
  | [] => (c, [])
  | k :: ks =>
      let '(c, effs) := run_call c k in
      let '(c, effs') := run_calls c ks in
      (c, effs ++ effs')
  end.

(** One pass through the [try] block of [connect], as the gateway and the
    other tasks make it go: whether [QQWebSocket.from_client] returned a
    socket within the timeout, what the other tasks called before the block
    was left, the exception that left it (the poll loop has no other exit),
    and, should the handler reach them, what [backoff.delay()] returns and
    what the other tasks call during the sleep; and, should the handler
    await a function that [event] has bound under the name [close], what is
    called on the client until that coroutine ends and the exception it
    ends with, if any. *)
Record attempt : Type := {
  connected : option QQWebSocket;
  meanwhile : list call;
  failure : exn;
  retry : Q;
  asleep : list call;
  closing : list call * option exn
}.

(** How a run of [connect] stands when the script is used up: it has
    returned, it has raised, or it is at the head of the loop, about to
    enter the [try] block once more with these [ws_params]. *)
Inductive outcome : Type :=
  | Returned
  | Raised (e : exn)
  | Suspended (ws_params : gmap string pyval).

(** The methods [connect] calls are looked up on the instance.  A
    function that [event] has bound under the name of a method is taken to
    accept the arguments of the call, as the handlers that [dispatch]
    schedules are, and its coroutine, when it is awaited, to end.

    [self.is_closed()] as a condition: the method of the class; or the
    function that [event] has bound under this name, whose call returns a
    coroutine object, which is true. *)
Definition self_is_closed (c : t) : bool * list effect :=
  match instance_attrs c !! "is_closed" with
  | Some f => (true, [Called (Co_call f [] [])])
  | None => (is_closed c, [])
  end.

(** [self.dispatch(event)]: the method of the class; or the function bound
    under this name, whose call returns a coroutine object that is
    dropped. *)
Definition self_dispatch (c : t) (event : string)
  : t * list effect * option exn :=
  match instance_attrs c !! "dispatch" with
  | Some f => (c, [Called (Co_call f [PStr event] [])], None)
  | None => dispatch c event [] []
  end.

(** [await self.close()]: the method of the class, which does not raise;
    or the function bound under this name, whose coroutine is awaited and
    ends as [user] tells. *)
Definition self_close (user : list call * option exn) (c : t)
  : t * list effect * option exn :=
  match instance_attrs c !! "close" with
  | Some f =>
      let '(c, effs) := run_calls c user.1 in
      (c, Called (Co_call f [] []) :: effs, user.2)
  | None => let '(c, effs) := close c in (c, effs, None)
  end.

(** The classes of the second [except] clause. *)
Definition caught (exc : exn) : bool :=
  match exc with
  | OSError _ | HTTPException | GatewayNotFound | ConnectionClosed _
  | ClientError | TimeoutError => true
  | _ => false
  end.

Definition peer_reset (exc : exn) : bool :=
  match exc with
  | OSError (Some errno) => (errno =? 54)%Z || (errno =? 10054)%Z
  | _ => false
  end.

Definition closed_with (exc : exn) (code : Z) : bool :=
  match exc with
  | ConnectionClosed c => (c =? code)%Z
  | _ => false
  end.

Definition is_ConnectionClosed (exc : exn) : bool :=
  match exc with ConnectionClosed _ => true | _ => false end.

Definition after (effs : list effect) (r : t * list effect * outcome)
  : t * list effect * outcome :=
  let '(c, effs', out) := r in (c, effs ++ effs', out).

(** The client when the [try] block is left: the socket, if one was
    obtained, is bound to [ws], and the other tasks have made their
    calls. *)
Definition at_failure (a : attempt) (c : t) : t :=
  (run_calls
     (match connected a with Some w => with_ws (Some w) c | None => c end)
     (meanwhile a)).1.

(** [ws_params.update(sequence=self.ws.sequence, resume=...,
    session=self.ws.session_id)]. *)
Definition resume_params (w : QQWebSocket) (resume : bool)
    (ws_params : gmap string pyval) : gmap string pyval :=
  <["session" := session_id w]>
    (<["resume" := PBool resume]> (<["sequence" := sequence w]> ws_params)).

(** One turn of the loop ends [connect] or goes back to the head of the
    loop with new [ws_params]. *)
Inductive turn : Type :=
  | Stop (c : t) (effs : list effect) (out : outcome)
  | Again (c : t) (effs : list effect) (ws_params : gmap string pyval).

(** [await self.close()] in the handler, and what follows it: the
    exception of the awaited coroutine, or else [out]. *)
Definition close_and (a : attempt) (c : t) (before : list effect)
    (out : outcome) : turn :=
  let '(c, effs, failed) := self_close (closing a) c in
  Stop c (before ++ CloseCalled :: effs)
    (match failed with Some e => Raised e | None => out end).

(** The body of the [while] loop: the [try] block, left by [failure a],
    and the [except] clause that handles it.  Where [self.is_closed()] is
    false it is the method of the class that was called, which has no
    effect. *)
Definition iteration (reconnect : bool) (a : attempt)
    (ws_params : gmap string pyval) (c : t) : turn :=
  let ws_params' :=
    match connected a with
    | Some _ => <["initial" := PBool false]> ws_params
    | None => ws_params
    end in
  let '(c, effs) :=
    run_calls
      (match connected a with Some w => with_ws (Some w) c | None => c end)
      (meanwhile a) in
  let effs := FromClient ws_params :: effs in
  match failure a with
  | ReconnectWebSocket op resume =>
      let '(c, effs1, exc) := self_dispatch c "disconnect" in
      match exc with
      | Some e => Stop c (effs ++ effs1) (Raised e)
      | None =>
          match ws c with
          | None => Stop c (effs ++ effs1) (Raised AttributeError)
          | Some w => Again c (effs ++ effs1) (resume_params w resume ws_params')
          end
      end
  | exc =>
      if negb (caught exc) then Stop c effs (Raised exc)
      else
        let '(c, effs1, exc') := self_dispatch c "disconnect" in
        match exc' with
        | Some e => Stop c (effs ++ effs1) (Raised e)
        | None =>
            if negb reconnect then
              close_and a c (effs ++ effs1)
                (if closed_with exc 1000 then Returned else Raised exc)
            else if (self_is_closed c).1 then
              Stop c (effs ++ effs1 ++ (self_is_closed c).2) Returned
            else if peer_reset exc then
              match ws c with
              | None => Stop c (effs ++ effs1) (Raised AttributeError)
              | Some w =>
                  Again c (effs ++ effs1)
                    (resume_params w true (<["initial" := PBool false]> ws_params'))
              end
            else if is_ConnectionClosed exc && negb (closed_with exc 1000) then
              close_and a c (effs ++ effs1) (Raised exc)
            else
              let '(c, effs2) := run_calls c (asleep a) in
              let effs := effs ++ effs1 ++ Sleep (retry a) :: effs2 in
              match ws c with
              | None => Stop c effs (Raised AttributeError)
              | Some w => Again c effs (resume_params w true ws_params')
              end
        end
  end.

(** The [while not self.is_closed()] loop.  It runs for as long as the
    script tells how the [try] block is left. *)
Fixpoint connect_loop (reconnect : bool) (script : list attempt)
    (ws_params : gmap string pyval) (c : t) {struct script}
  : t * list effect * outcome :=
  if (self_is_closed c).1 then (c, (self_is_closed c).2, Returned)
  else
    match script with
    | [] => (c, [], Suspended ws_params)
    | a :: script =>
        match iteration reconnect a ws_params c with
        | Stop c effs out => (c, effs, out)
        | Again c effs ws_params =>
            after effs (connect_loop reconnect script ws_params c)
        end
    end.

Definition connect (reconnect : bool) (script : list attempt) (c : t)
  : t * list effect * outcome :=
  connect_loop reconnect script
    (<["shard_id" := shard_id c]> {["initial" := PBool true]}) c.

(** *** [Client._run_event] *)

(** What [_run_event] awaits: the handler applied to the arguments of the
    event, and, if that fails, [self.on_error] applied to the name of the
    event and the same arguments. *)
Inductive awaited : Type :=
  | Await_handler (coro : callable) (args : list pyval)
      (kwargs : list (string * pyval))
  | Await_on_error (on_error : callable) (event_method : string)
      (args : list pyval) (kwargs : list (string * pyval)).

Definition is_CancelledError (e : exn) : bool :=
  match e with CancelledError => true | _ => false end.

(** [outcome] tells how each awaited call ends: [None] when it returns,
    the exception when it raises.  The result is what was awaited, in
    order, and the exception the coroutine ends with, if any. *)
Definition _run_event (c : t) (outcome : awaited → option exn)
    (coro : callable) (event_name : string) (args : list pyval)
    (kwargs : list (string * pyval)) : list awaited * option exn :=
  let call := Await_handler coro args kwargs in
  match outcome call with
  | None => ([call], None)
  | Some exc =>
      if is_CancelledError exc then ([call], None)
      else if is_Exception exc then
        match getattr c "on_error" with
        | None => ([call], Some AttributeError)
        | Some on_error =>
            let call' := Await_on_error on_error event_name args kwargs in
            match outcome call' with
            | None => ([call; call'], None)
            | Some exc' =>
                if is_CancelledError exc' then ([call; call'], None)
                else ([call; call'], Some exc')
            end
        end
      else ([call], Some exc)
  end.

(** *** [Client.login], [Client.start] and the runner of [Client.run] *)

Section Start.
(** [str.strip]; [HTTPClient.static_login], which returns the identity of
    the bot or raises; and the construction of the [ClientUser] from the
    state manager and this identity.  None of the three is in the two
    modules. *)
Variable strip : string → string.
Variable static_login : string → result pyval.
Variable ClientUser : gmap string pyval → pyval → result pyval.


(** What awaiting the coroutine of a function that [event] has bound in
    the place of a coroutine method does: the calls made on the client
    until the coroutine ends, and the exception it ends with, if any. *)
Variable awaiting : function → list call * option exn.







End Start.

End Client.

(** ** The member-chunk coordinator: [ChunkRequest] of [qq/state.py] *)

Module ChunkRequest.

Record Member : Type := {
  member_id : Z;
  joined_at : option Z
}.

(** The objects a chunk request shares with its callers: the lists of
    members (the buffer is one of them), the futures of the loop, whose
    result is a reference to a list, and the guilds, each with its member
    cache keyed by id. *)
Record heap : Type := {
  lists : gmap nat (list Member);
  futs : gmap future (fstate nat);
  guilds : gmap nat (gmap Z Member)
}.

Definition with_lists (l : gmap nat (list Member)) (h : heap) : heap :=
  {| lists := l; futs := futs h; guilds := guilds h |}.
Definition with_futs (fs : gmap future (fstate nat)) (h : heap) : heap :=
  {| lists := lists h; futs := fs; guilds := guilds h |}.
Definition with_guilds (g : gmap nat (gmap Z Member)) (h : heap) : heap :=
  {| lists := lists h; futs := futs h; guilds := g |}.

(** [buffer] is the reference to the list of members; [resolver] gives the
    reference to the guild, or nothing. *)
Record t : Type := {
  guild_id : Z;
  resolver : Z → option nat;
  cache : bool;
  nonce : string;
  buffer : nat;
  waiters : list future
}.

Definition with_waiters (w : list future) (r : t) : t :=
  {| guild_id := guild_id r; resolver := resolver r; cache := cache r;
     nonce := nonce r; buffer := buffer r; waiters := w |}.

(** [random_hex] is what [os.urandom(16).hex()] returns. *)
Definition __init__ (guild_id : Z) (resolver : Z → option nat) (cache : bool)
    (random_hex : string) (h : heap) : t * heap :=
  let b := fresh (dom (lists h)) in
  ({| guild_id := guild_id; resolver := resolver; cache := cache;
      nonce := random_hex; buffer := b; waiters := [] |},
   with_lists (<[b := []]> (lists h)) h).

(** Modelled from the spec: [Guild.get_member] and [Guild._add_member] are
    in [qq/guild.py], which is not given; a guild has a "member cache keyed
    by id". *)
Definition get_member (guild : gmap Z Member) (id : Z) : option Member :=
  guild !! id.
Definition _add_member (guild : gmap Z Member) (member : Member)
  : gmap Z Member :=
  <[member_id member := member]> guild.

(** The body of the loop over the members: the member goes to the cache
    of the guild unless the cache has it with a join time. *)
Definition cache_member (g : nat) (h : heap) (member : Member) : heap :=
  let guild := default ∅ (guilds h !! g) in
  let existing := get_member guild (member_id member) in
  if bool_decide (existing = None ∨ (existing ≫= joined_at) = None) then
    with_guilds (<[g := _add_member guild member]> (guilds h)) h
  else h.

Definition add_members (r : t) (members : list Member) (h : heap) : heap :=
  let h := with_lists (alter (λ b, b ++ members) (buffer r) (lists h)) h in
  if cache r then
    match resolver r (guild_id r) with
    | None => h
    | Some g => foldl (cache_member g) h members
    end
  else h.

Definition get_future (r : t) (h : heap) : future * t * heap :=
  let '(future, fs) := Future.create_future (futs h) in
  (future, with_waiters (waiters r ++ [future]) r, with_futs fs h).

(** [wait] up to its [await]: the same registration. *)
Definition wait_register (r : t) (h : heap) : future * t * heap :=
  let '(future, fs) := Future.create_future (futs h) in
  (future, with_waiters (waiters r ++ [future]) r, with_futs fs h).

(** [list.remove]: the first occurrence goes. *)
Fixpoint remove_first (x : future) (l : list future) : list future :=
  match l with
  | [] => []
  | y :: l' => if decide (x = y) then l' else y :: remove_first x l'
  end.

(** [wait] from its [await] on, once the future is done: the [finally]
    clause, then the result of the future. *)
Definition wait_resume (future : future) (r : t) (h : heap)
  : t * fstate nat :=
  (with_waiters (remove_first future (waiters r)) r,
   Future.fstate_of (futs h) future).

Fixpoint done_loop (buffer : nat) (waiters : list future)
    (fs : gmap future (fstate nat)) : result (gmap future (fstate nat)) :=
  match waiters with
  | [] => Ok fs
  | future :: rest =>
      if negb (Future.done fs future) then
        match Future.set_result fs future buffer with
        | Raise e => Raise e
        | Ok fs' => done_loop buffer rest fs'
        end
      else done_loop buffer rest fs
  end.

Definition done (r : t) (h : heap) : result heap :=
  match done_loop (buffer r) (waiters r) (futs h) with
  | Raise e => Raise e
  | Ok fs => Ok (with_futs fs h)
  end.

(** What happens to a chunk request between its creation and a call of
    [done]: chunks arrive, callers register through [get_future] or
    [wait], a caller cancels the future it holds or settles it with
    [set_result] or [set_exception] (an exception these raise is the
    caller's, and leaves the request and the heap as they are), a suspended
    [wait] resumes, and [done] itself may already have been called. *)
Inductive step : Type :=
  | Add_members (members : list Member)
  | Get_future
  | Wait
  | Cancel (future : future)
  | Set_result (future : future) (value : nat)
  | Set_exception (future : future) (e : exn)
  | Resume (future : future)
  | Done.

Definition run_step (s : step) (st : t * heap) : t * heap :=
  let '(r, h) := st in
  match s with
  | Add_members members => (r, add_members r members h)
  | Get_future => let '(_, r, h) := get_future r h in (r, h)
  | Wait => let '(_, r, h) := wait_register r h in (r, h)
  | Cancel future => (r, with_futs (Future.cancel (futs h) future) h)
  | Set_result future value =>
      match Future.set_result (futs h) future value with
      | Ok fs => (r, with_futs fs h)
      | Raise _ => (r, h)
      end
  | Set_exception future e =>
      match Future.set_exception (futs h) future e with
      | Ok fs => (r, with_futs fs h)
      | Raise _ => (r, h)
      end
  | Resume future =>
      if Future.done (futs h) future then ((wait_resume future r h).1, h)
      else (r, h)
  | Done => match done r h with Ok h' => (r, h') | Raise _ => (r, h) end
  end.

Definition run (steps : list step) (st : t * heap) : t * heap :=
  foldl (λ st s, run_step s st) st steps.

(** The members that arrived, in order. *)
Definition arrived (steps : list step) : list Member :=
  concat (omap (λ s, match s with Add_members ms => Some ms | _ => None end) steps).

(** The futures that a caller cancelled or settled, or tried to. *)
Definition settled_by (s : step) : list future :=
  match s with
  | Cancel f | Set_result f _ | Set_exception f _ => [f]
  | _ => []
  end.

Definition settled_in (steps : list step) : list future :=
  concat (map settled_by steps).

End ChunkRequest.

(** ** Notions the properties are stated with *)

Section Waiters.
Variable args : list pyval.
Implicit Types (fs : gmap future (fstate pyval)) (w : waiter).

(** A waiter stays registered when its future is not cancelled and its
    predicate returns a false value. *)
Definition stays fs w : bool :=
  negb (Future.cancelled fs w.1)
  && match w.2 args with
     | Ok v => negb (truthy v)
     | Raise _ => false
     end.

(** The state a waiter's future is left in by a scan that reaches it. *)
Definition settled fs w (s : fstate pyval) : Prop :=
  if Future.cancelled fs w.1 then s = Cancelled
  else match w.2 args with
       | Ok v => if truthy v then s = Finished (Client.result_of_args args)
                 else True
       | Raise e => is_Exception e = true ∧ s = Failed e
       end.

Fixpoint gone fs (listeners : list (nat * waiter)) : list nat :=
  match listeners with
  | [] => []
  | (i, w) :: rest => if stays fs w then gone fs rest else i :: gone fs rest
  end.
End Waiters.

Definition is_CloseCalled (e : effect) : bool :=
  match e with CloseCalled => true | _ => false end.
Definition is_Sleep (e : effect) : bool :=
  match e with Sleep _ => true | _ => false end.

Definition count (p : effect → bool) (effs : list effect) : nat :=
  length (filter (λ e, p e) effs).


(** The instance of the state manager when [__init__] comes to the check
    of [guild_ready_timeout], with the value [max_messages] has by then:
    the attributes assigned so far. *)
Definition state_at_check (dispatch handlers hooks http loop max_messages : pyval)
    (options : gmap string pyval) : gmap string pyval :=
  <["guild_ready_timeout" := default (PFloat 2) (options !! "guild_ready_timeout")]>
    (<["heartbeat_timeout" := default (PFloat 60) (options !! "heartbeat_timeout")]>
       (<["application_id" := default PNone (options !! "application_id")]>
          (<["_ready_task" := PNone]>
             (<["shard_count" := PNone]>
                (<["hooks" := hooks]>
                   (<["handlers" := handlers]>
                      (<["dispatch" := dispatch]>
                         (<["max_messages" := max_messages]>
                            (<["http" := http]> (<["loop" := loop]> ∅)))))))))).

(** The instance when [__init__] returns, from the instance at the
    check. *)
Definition state_constructed (upper : string → string)
    (members : list (string * pyval))
    (at_check : gmap string pyval) : gmap string pyval :=
  <["_chunk_requests" := PDict []]>
    (<["messages" := PDict []]>
       (<["users" := PDict []]>
          (<["guilds" := PDict []]>
             (<["parsers" := PDict (ConnectionState.parsers upper members)]>
                (<["_chunk_requests" := PDict []]> at_check))))).


(** The states the future of a waiter of a chunk request with buffer [b]
    is in as long as its caller leaves it alone. *)
Definition waiting_or_served (b : nat) (s : fstate nat) : Prop :=
  s = Pending ∨ s = Finished b.

(** A chunk request and its heap, as its methods and the callers keep
    them: the buffer is the list [b], it holds [content], and the future of
    each waiter is pending or resolved with [b], unless it is one of
    [settled], those that the callers cancelled or settled. *)
Definition chunk_inv (b : nat) (content : list ChunkRequest.Member)
    (settled : list future) (st : ChunkRequest.t * ChunkRequest.heap) : Prop :=
  ChunkRequest.buffer st.1 = b
  ∧ ChunkRequest.lists st.2 !! b = Some content
  ∧ ∀ f, f ∈ ChunkRequest.waiters st.1 → f ∉ settled →
         waiting_or_served b (Future.fstate_of (ChunkRequest.futs st.2) f).

Definition added (s : ChunkRequest.step) : list ChunkRequest.Member :=
  match s with ChunkRequest.Add_members ms => ms | _ => [] end.


(** The waiters of an event, none when the event has no entry. *)
Definition waiters_of (c : Client.t) (event : string) : list waiter :=
  default [] (Client._listeners c !! event).

(** Every name [event] has bound on the instance is the name of the
    function it is bound to. *)
Definition bound_by_event (c : Client.t) : Prop :=
  ∀ name f, Client.instance_attrs c !! name = Some f → __name__ f = name.

(** The functions bound by [event] that a call of [dispatch] calls. *)
Definition invoked_by (r : Client.t * list effect * option exn)
  : list function :=
  concat (map invoked r.1.2).

(** ** The claims that do not hold as they are worded *)

(** C4 as worded: when the predicate of a waiter raises, its future holds
    the failure, the waiter is removed, and every other waiter of the event
    remains registered. *)
Definition raising_waiter_keeps_every_other : Prop :=
  ∀ (c c' : Client.t) event args kwargs effs listeners future condition exc,
    Client._listeners c !! event = Some listeners →
    Client.dispatch c event args kwargs = (c', effs, None) →
    (future, condition) ∈ listeners →
    Future.cancelled (Client.futures c) future = false →
    condition args = Raise exc →
    Future.fstate_of (Client.futures c') future = Failed exc
    ∧ ((future, condition) ∉ waiters_of c' event)
    ∧ ∀ w, w ∈ listeners → w.1 ≠ future → w ∈ waiters_of c' event.

(** C2 as worded: with reconnection disabled, whenever the [try] block of
    [connect] is left by a [ConnectionClosed] and [disconnect] has been
    dispatched, [connect] calls [close] once and then returns when the code
    is 1000 and raises the failure again when it is another code. *)
Definition closure_without_reconnect_ends_as_coded : Prop :=
  ∀ (c c1 : Client.t) pre a rest ws_params effs1 code,
    Client.connect false pre c = (c1, effs1, Client.Suspended ws_params) →
    Client.failure a = ConnectionClosed code →
    (Client.self_dispatch (Client.at_failure a c1) "disconnect").2 = None →
    (Client.connect false (pre ++ a :: rest) c).2
    = (if (code =? 1000)%Z then Client.Returned
       else Client.Raised (ConnectionClosed code))
    ∧ count is_CloseCalled (Client.connect false (pre ++ a :: rest) c).1.2 = 1.

(** C3 as worded: whenever the [try] block of [connect] is left by a
    [ConnectionClosed] with a code other than 1000, reconnection requested
    or not, [connect] calls [close] and raises the failure again. *)
Definition abnormal_closure_always_fatal : Prop :=
  ∀ reconnect (c c1 : Client.t) pre a rest ws_params effs1 code,
    Client.connect reconnect pre c = (c1, effs1, Client.Suspended ws_params) →
    Client.failure a = ConnectionClosed code → code ≠ 1000%Z →
    (Client.dispatch (Client.at_failure a c1) "disconnect" [] []).2 = None →
    (Client.connect reconnect (pre ++ a :: rest) c).2
    = Client.Raised (ConnectionClosed code)
    ∧ count is_CloseCalled (Client.connect reconnect (pre ++ a :: rest) c).1.2 = 1.



(** C5 as worded: whatever happened to a chunk request since its creation,
    a call of [done] gives every future among its waiters the buffer, which
    holds the members that arrived. *)
Definition every_waiter_receives_buffer : Prop :=
  ∀ guild_id resolver cache nonce (h0 : ChunkRequest.heap) steps h',
    let st := ChunkRequest.run steps
                (ChunkRequest.__init__ guild_id resolver cache nonce h0) in
    ChunkRequest.done st.1 st.2 = Ok h' →
    ∀ f, f ∈ ChunkRequest.waiters st.1 →
      Future.fstate_of (ChunkRequest.futs h') f
      = Finished (ChunkRequest.buffer st.1)
      ∧ ChunkRequest.lists h' !! ChunkRequest.buffer st.1
        = Some (ChunkRequest.arrived steps).

(** C10 as worded: [event] registers a coroutine function under any name,
    and a function registered under a name that does not start with [on_]
    is called by no [dispatch]. *)
Definition any_name_registers_and_only_on_names_run : Prop :=
  ∀ (c : Client.t) (coro : function),
    bound_by_event c → iscoroutinefunction coro = true →
    (Client.event c coro).2 = Ok coro
    ∧ Client.instance_attrs (Client.event c coro).1 !! __name__ coro = Some coro
    ∧ (String.prefix "on_" (__name__ coro) = false →
       ∀ event args kwargs,
         (coro ∉ invoked_by
                   (Client.dispatch (Client.event c coro).1 event args kwargs))).

(** ** Concrete clients and scripts *)

Module Examples.

Definition options : gmap string pyval :=
  <["token" := PStr "secret"]> {["app_id" := PInt 102030]}.

Definition no_text : pyval → string := λ _, "".

(** The client [Client(app_id=102030, token='secret')]. *)
Definition client : Client.t :=
  {| Client.ws := None; Client._listeners := ∅;
     Client.token := "102030.secret";
     Client.shard_id := PNone; Client.shard_count := PNone;
     Client._enable_debug_events := PBool false;
     Client._connection :=
       <["shard_count" := PNone]>
         (ConnectionState.new ConnectionState.ascii_upper [] (PObj "Client.dispatch")
            (PObj "Client._handlers") (PObj "Client._hooks")
            (PObj "HTTPClient") (PObj "loop") ∅).1;
     Client._closed := false; Client._ready := false;
     Client.instance_attrs := ∅; Client.futures := ∅ |}.

Definition always : condition := λ _, Ok (PBool true).
Definition never : condition := λ _, Ok (PBool false).
Definition raising : condition := λ _, Raise (ValueError "bad predicate").

(** Two waiters for [message]: future 0 with a predicate that holds,
    future 1 with one that does not. *)
Definition two_waiters : Client.t :=
  (Client.register_waiter
     (Client.register_waiter client "message" always).2 "message" never).2.

(** Two waiters for [message]: future 0 with a predicate that raises,
    future 1 with one that does not hold. *)
Definition raising_and_never : Client.t :=
  (Client.register_waiter
     (Client.register_waiter client "message" raising).2 "message" never).2.

(** Two waiters for [message]: future 0 with a predicate that raises,
    future 1 with one that holds. *)
Definition raising_and_always : Client.t :=
  (Client.register_waiter
     (Client.register_waiter client "message" raising).2 "message" always).2.

Definition _run_event : function :=
  {| __name__ := "_run_event"; fn_id := 7; iscoroutinefunction := true |}.

Definition on_message : function :=
  {| __name__ := "on_message"; fn_id := 8; iscoroutinefunction := true |}.

Definition handle_message : function :=
  {| __name__ := "handle_message"; fn_id := 9; iscoroutinefunction := true |}.

Definition socket : QQWebSocket :=
  {| ws_id := 1; open := true; sequence := PInt 41; session_id := PStr "s" |}.

(** The socket is obtained and the [try] block is left by a
    [ConnectionClosed] with the given code. *)
Definition closure (code : Z) : Client.attempt :=
  {| Client.connected := Some socket; Client.meanwhile := [];
     Client.failure := ConnectionClosed code;
     Client.retry := 1%Q; Client.asleep := [];
     Client.closing := ([], None) |}.

(** The same, but a handler has called [close] before the closure is
    seen. *)
Definition closed_meanwhile (code : Z) : Client.attempt :=
  {| Client.connected := Some socket; Client.meanwhile := [Client.Call_close];
     Client.failure := ConnectionClosed code;
     Client.retry := 1%Q; Client.asleep := [];
     Client.closing := ([], None) |}.

Definition empty_heap : ChunkRequest.heap :=
  {| ChunkRequest.lists := ∅; ChunkRequest.futs := ∅;
     ChunkRequest.guilds := ∅ |}.

Definition alice : ChunkRequest.Member :=
  {| ChunkRequest.member_id := 1; ChunkRequest.joined_at := None |}.
Definition bob : ChunkRequest.Member :=
  {| ChunkRequest.member_id := 2; ChunkRequest.joined_at := Some 7%Z |}.

(** The request for the members of guild 42. *)
Definition request : ChunkRequest.t * ChunkRequest.heap :=
  ChunkRequest.__init__ 42 (λ _, None) true "00" empty_heap.

(** A coroutine function named [close], and the client once [event] has
    bound it. *)
Definition user_close : function :=
  {| __name__ := "close"; fn_id := 10; iscoroutinefunction := true |}.

Definition rebound_close : Client.t := (Client.event client user_close).1.

(** The closure with the given code, where the coroutine of a function
    bound under the name [close] ends with an [OSError]. *)
Definition closure_failing_close (code : Z) : Client.attempt :=
  {| Client.connected := Some socket; Client.meanwhile := [];
     Client.failure := ConnectionClosed code;
     Client.retry := 1%Q; Client.asleep := [];
     Client.closing := ([], Some (OSError None)) |}.

(** The gateway asks for a reconnect. *)
Definition reconnect_request : Client.attempt :=
  {| Client.connected := Some socket; Client.meanwhile := [];
     Client.failure := ReconnectWebSocket "RECONNECT" true;
     Client.retry := 1%Q; Client.asleep := [];
     Client.closing := ([], None) |}.

End Examples.

(** ** Further notions *)

(** [d.get(key)] on a dictionary kept in insertion order. *)
Fixpoint dict_get (key : string) (d : list (string * pyval)) : option pyval :=
  match d with
  | [] => None
  | (k, v) :: d' => if String.eqb k key then Some v else dict_get key d'
  end.

(** The key under which [__init__] files a member as a parser, if it does:
    the name without its prefix [parse_], in upper case. *)
Definition parser_key (upper : string → string) (attr : string)
  : option string :=
  if String.prefix "parse_" attr
  then Some (upper
               (String.substring 6 (String.length attr - 6) attr))
  else None.


Definition is_FromClient (e : effect) : bool :=
  match e with FromClient _ => true | _ => false end.

(** The [ws_params] of the calls of [QQWebSocket.from_client], in order. *)
Definition handshakes (effs : list effect) : list (gmap string pyval) :=
  omap (λ e, match e with FromClient p => Some p | _ => None end) effs.

(** The members of a guild of the heap, none when the guild is not
    there. *)
Definition members_of (h : ChunkRequest.heap) (g : nat)
  : gmap Z ChunkRequest.Member :=
  default ∅ (ChunkRequest.guilds h !! g).


(** A handshake that is not the first of a client of shard [shard]: it is
    not an initial one, and it carries the sequence number, the resume
    flag and the session of the socket. *)
Definition resumed (shard : pyval) (ws_params : gmap string pyval) : Prop :=
  ws_params !! "initial" = Some (PBool false)
  ∧ ws_params !! "shard_id" = Some shard
  ∧ is_Some (ws_params !! "sequence")
  ∧ is_Some (ws_params !! "resume")
  ∧ is_Some (ws_params !! "session").

(** The failures of the [try] block after which [connect] goes round its
    loop once more, if the client is open: a request to reconnect, and,
    when reconnection is requested, a failure of the handled classes other
    than a closure with a code that is not 1000. *)
Definition retried (reconnect : bool) (e : exn) : bool :=
  match e with
  | ReconnectWebSocket _ _ => true
  | _ =>
      reconnect && Client.caught e
      && negb (Client.is_ConnectionClosed e && negb (Client.closed_with e 1000))
  end.

Module Scenarios.

(** The handshake times out: [asyncio.wait_for] raises before a socket is
    bound. *)
Definition handshake_timeout : Client.attempt :=
  {| Client.connected := None; Client.meanwhile := [];
     Client.failure := TimeoutError;
     Client.retry := 1%Q; Client.asleep := [];
     Client.closing := ([], None) |}.

End Scenarios.

Module Chunks.

(** A heap in which guild 0 has cached the member 2, with a join time. *)
Definition guild_heap : ChunkRequest.heap :=
  {| ChunkRequest.lists := ∅; ChunkRequest.futs := ∅;
     ChunkRequest.guilds := {[0 := {[2%Z := Examples.bob]}]} |}.

(** A request for the members of guild 42, which the resolver finds as
    guild 0 of the heap. *)
Definition cached_request : ChunkRequest.t * ChunkRequest.heap :=
  ChunkRequest.__init__ 42 (λ _, Some 0) true "00" guild_heap.

(** The member 2 as a chunk brings it, without a join time. *)
Definition bob_again : ChunkRequest.Member :=
  {| ChunkRequest.member_id := 2; ChunkRequest.joined_at := None |}.

End Chunks.

(** The waiters of a chunk request as its methods keep them: no future is
    registered twice, and each is a future of the loop. *)
Definition registered_once (st : ChunkRequest.t * ChunkRequest.heap) : Prop :=
  NoDup (ChunkRequest.waiters st.1)
  ∧ ∀ f, f ∈ ChunkRequest.waiters st.1 → is_Some (ChunkRequest.futs st.2 !! f).

(** The functions of the members that [__init__] files under [key], in the
    order of the members. *)
Definition filed_under (upper : string → string) (key : string)
    (members : list (string * pyval)) : list pyval :=
  omap (λ p, if decide (parser_key upper p.1 = Some key) then Some p.2 else None)
       members.

(** The values whose comparisons with an [int] the language lays down,
    those of the built-in types and the objects of the classes that define
    no ordering; and those among them that have an order with an [int]: the
    numbers, finite or not. *)
Definition builtin (v : pyval) : bool :=
  match v with PCustom _ _ _ _ => false | _ => true end.

Definition ordered (v : pyval) : bool :=
  match v with
  | PBool _ | PInt _ | PFloat _ | PNonFinite _ => true
  | _ => false
  end.

(** The names [connect] reads on the instance, itself or through the
    methods it calls: the three methods [is_closed], [dispatch] and
    [close], and the data attributes [_closed], [ws], [http], [_ready] and
    [shard_id]. *)
Definition session_names : list string :=
  ["is_closed"; "dispatch"; "close"; "_closed"; "ws"; "http"; "_ready";
   "shard_id"].

(** [event] has bound none of [names] on the client. *)
Definition unbound (names : list string) (c : Client.t) : bool :=
  forallb (λ name, match Client.instance_attrs c !! name with
                   | None => true
                   | Some _ => false
                   end) names.

(** A call of the other tasks that binds one of [names]: a call of [event]
    with a function of that name. *)
Definition binds (names : list string) (k : Client.call) : bool :=
  match k with
  | Client.Call_event coro => bool_decide (__name__ coro ∈ names)
  | _ => false
  end.

(** An attempt during which the other tasks bind none of [names]. *)
Definition quiet (names : list string) (a : Client.attempt) : bool :=
  forallb (λ k, negb (binds names k)) (Client.meanwhile a ++ Client.asleep a).

(** * Properties *)

(** ** Futures *)

Section FutureFacts.
Context {R : Type}.
Implicit Types (fs : gmap future (fstate R)) (f g : future).

Lemma set_result_Ok fs f r fs' :
  Future.set_result fs f r = Ok fs' →
  Future.fstate_of fs f = Pending ∧ fs' = <[f := Finished r]> fs.
Proof.
  unfold Future.set_result, Future.done.
  destruct (Future.fstate_of fs f) eqn:E; intros H; by inversion H.
Qed.

Lemma set_exception_Ok fs f e fs' :
  Future.set_exception fs f e = Ok fs' →
  Future.fstate_of fs f = Pending ∧ fs' = <[f := Failed e]> fs.
Proof.
  unfold Future.set_exception, Future.done.
  destruct (Future.fstate_of fs f) eqn:E; destruct (is_StopIteration e);
    intros H; by inversion H.
Qed.

Lemma fstate_of_insert fs f g s :
  Future.fstate_of (<[f := s]> fs) g
  = if decide (f = g) then s else Future.fstate_of fs g.
Proof.
  unfold Future.fstate_of. rewrite lookup_insert.
  by destruct (decide (f = g)).
Qed.

(** Resolving a pending future leaves every future that is done as it
    is, and cancels none. *)
Lemma resolve_keeps fs f s g :
  Future.fstate_of fs f = Pending →
  Future.done fs g = true →
  Future.fstate_of (<[f := s]> fs) g = Future.fstate_of fs g.
Proof.
  intros Hf Hg. rewrite fstate_of_insert. destruct (decide (f = g)) as [->|]; [|done].
  unfold Future.done in Hg. by rewrite Hf in Hg.
Qed.

Lemma resolve_cancelled fs f s g :
  Future.fstate_of fs f = Pending → s ≠ Cancelled →
  Future.cancelled (<[f := s]> fs) g = Future.cancelled fs g.
Proof.
  intros Hf Hs. unfold Future.cancelled. rewrite fstate_of_insert.
  destruct (decide (f = g)) as [->|]; [|done].
  rewrite Hf. by destruct s.
Qed.
End FutureFacts.

(** ** [dispatch]: the one-shot waiters *)

Section Waiters.
Variable args : list pyval.
Implicit Types (fs : gmap future (fstate pyval)) (w : waiter).

Lemma stays_ext fs fs' w :
  (∀ g, Future.cancelled fs' g = Future.cancelled fs g) →
  stays args fs' w = stays args fs w.
Proof. intros H. unfold stays. by rewrite H. Qed.

Lemma gone_ext fs fs' listeners :
  (∀ g, Future.cancelled fs' g = Future.cancelled fs g) →
  gone args fs' listeners = gone args fs listeners.
Proof.
  intros H. induction listeners as [|[i w] rest IH]; [done|].
  simpl. by rewrite IH, (stays_ext fs fs').
Qed.

(** A scan that is not left by an exception cancels nothing, changes no
    future that was done, lists the indices of the waiters that do not
    stay, and settles the future of every waiter. *)
Lemma scan_None listeners : ∀ fs removed fs' removed',
  Client.scan args listeners fs removed = (fs', removed', None) →
  (∀ g, Future.cancelled fs' g = Future.cancelled fs g)
  ∧ (∀ g, Future.done fs g = true →
          Future.fstate_of fs' g = Future.fstate_of fs g)
  ∧ removed' = removed ++ gone args fs listeners
  ∧ (∀ i w, (i, w) ∈ listeners → stays args fs w = false →
            settled args fs w (Future.fstate_of fs' w.1)).
Proof.
  induction listeners as [|[i [f cond]] rest IH]; intros fs removed fs' removed' H.
  { simpl in H. inversion H; subst. split_and!; try done.
    - by rewrite app_nil_r.
    - intros i w Hin. by apply elem_of_nil in Hin. }
  (* the future of the waiter at hand, once resolved, is kept by the rest *)
  assert (Hstep : ∀ s, s ≠ Cancelled → s ≠ Pending →
            Future.fstate_of fs f = Pending →
            Client.scan args rest (<[f := s]> fs) (removed ++ [i])
              = (fs', removed', None) →
            stays args fs (f, cond) = false →
            settled args fs (f, cond) s →
            (∀ g, Future.cancelled fs' g = Future.cancelled fs g)
            ∧ (∀ g, Future.done fs g = true →
                    Future.fstate_of fs' g = Future.fstate_of fs g)
            ∧ removed' = removed ++ gone args fs ((i, (f, cond)) :: rest)
            ∧ (∀ j w, (j, w) ∈ (i, (f, cond)) :: rest → stays args fs w = false →
                      settled args fs w (Future.fstate_of fs' w.1))).
  { intros s Hs Hs' Hp Hscan Hst Hset.
    apply IH in Hscan as (H1 & H2 & H3 & H4).
    assert (Hcan : ∀ g, Future.cancelled (<[f := s]> fs) g = Future.cancelled fs g)
      by (intros g; by apply resolve_cancelled).
    assert (Hf : Future.fstate_of fs' f = s).
    { rewrite H2; [by rewrite fstate_of_insert, decide_True|].
      unfold Future.done. rewrite fstate_of_insert, decide_True by done.
      by destruct s. }
    split_and!.
    - intros g. by rewrite H1, Hcan.
    - intros g Hg. rewrite H2; [by apply resolve_keeps|].
      unfold Future.done. rewrite resolve_keeps by done. apply Hg.
    - rewrite H3, <- app_assoc. simpl. rewrite Hst.
      by rewrite (gone_ext _ _ _ Hcan).
    - intros j w [[= -> ->]|Hin]%elem_of_cons Hw.
      + simpl. by rewrite Hf.
      + specialize (H4 j w Hin). rewrite (stays_ext _ _ _ Hcan) in H4.
        specialize (H4 Hw). unfold settled in H4 |- *.
        by rewrite Hcan in H4. }
  simpl in H.
  destruct (Future.cancelled fs f) eqn:Hc.
  - assert (Hst : stays args fs (f, cond) = false) by (unfold stays; simpl; by rewrite Hc).
    apply IH in H as (H1 & H2 & H3 & H4). split_and!; try done.
    + rewrite H3, <- app_assoc. simpl. by rewrite Hst.
    + intros j w [Heq|Hin]%elem_of_cons Hs.
      * inversion Heq; subst. unfold settled. simpl. rewrite Hc.
        unfold Future.cancelled in Hc.
        destruct (Future.fstate_of fs f) eqn:E; try done.
        rewrite H2; [done|]. unfold Future.done. by rewrite E.
      * by apply (H4 j w).
  - destruct (cond args) as [v|e] eqn:Hcond.
    + destruct (truthy v) eqn:Hv.
      * destruct (Future.set_result fs f _) as [fs1|e1] eqn:Hset; [|done].
        apply set_result_Ok in Hset as [Hp ->].
        apply (Hstep (Finished (Client.result_of_args args))); try done.
        -- unfold stays. simpl. by rewrite Hc, Hcond, Hv.
        -- unfold settled. simpl. by rewrite Hc, Hcond, Hv.
      * assert (Hst : stays args fs (f, cond) = true)
          by (unfold stays; simpl; by rewrite Hc, Hcond, Hv).
        apply IH in H as (H1 & H2 & H3 & H4). split_and!; try done.
        -- rewrite H3. simpl. by rewrite Hst.
        -- intros j w [Heq|Hin]%elem_of_cons Hs.
           ++ inversion Heq; subst. by rewrite Hst in Hs.
           ++ by apply (H4 j w).
    + destruct (is_Exception e) eqn:He; [|done].
      destruct (Future.set_exception fs f e) as [fs1|e1] eqn:Hset; [|done].
      apply set_exception_Ok in Hset as [Hp ->].
      apply (Hstep (Failed e)); try done.
      * unfold stays. simpl. by rewrite Hc, Hcond.
      * unfold settled. simpl. by rewrite Hc, Hcond.
Qed.
End Waiters.

Lemma del_each_app {A} (idxs1 idxs2 : list nat) (l : list A) :
  Client.del_each (idxs1 ++ idxs2) l
  = match Client.del_each idxs1 l with
    | Ok l' => Client.del_each idxs2 l'
    | Raise e => Raise e
    end.
Proof.
  revert l. induction idxs1 as [|i idxs1 IH]; intros l; [done|].
  simpl. by destruct (decide (i < length l)).
Qed.

(** Deleting the listed indices from the last to the first leaves the
    waiters that stay, in their order, and never goes out of range. *)
Lemma del_each_gone args fs (listeners pre : list waiter) :
  Client.del_each
    (reverse (gone args fs (imap (λ i, pair (length pre + i)) listeners)))
    (pre ++ listeners)
  = Ok (pre ++ filter (λ w, stays args fs w) listeners).
Proof.
  revert pre. induction listeners as [|w rest IH]; intros pre; [done|].
  rewrite imap_cons. simpl.
  assert (Hrest : imap ((λ i, pair (length pre + i)) ∘ S) rest
                  = imap (λ i, pair (length (pre ++ [w]) + i)) rest).
  { apply imap_ext. intros i x _. simpl. rewrite length_app. simpl.
    f_equal. lia. }
  rewrite Hrest. specialize (IH (pre ++ [w])).
  rewrite <- !app_assoc in IH. simpl in IH.
  rewrite filter_cons. destruct (stays args fs w) eqn:Hw.
  - rewrite decide_True by done. apply IH.
  - rewrite decide_False by (by intros []). rewrite reverse_cons, del_each_app, IH.
    simpl. rewrite decide_True by (rewrite length_app; simpl; lia).
    by rewrite Nat.add_0_r, delete_middle.
Qed.

Lemma length_gone args fs (f : nat → waiter → nat * waiter)
    (listeners : list waiter) :
  (∀ i w, (f i w).2 = w) →
  length (gone args fs (imap f listeners))
  + length (filter (λ w, stays args fs w) listeners) = length listeners.
Proof.
  revert f. induction listeners as [|w rest IH]; intros f Hf; [done|].
  rewrite imap_cons, filter_cons. simpl.
  specialize (Hf 0 w) as Hw. destruct (f 0 w) as [i w']. simpl in Hw. subst w'.
  specialize (IH (f ∘ S) (λ i w, Hf (S i) w)).
  destruct (stays args fs w) eqn:Hs.
  - rewrite decide_True by done. simpl. lia.
  - rewrite decide_False by (by intros []). simpl. lia.
Qed.

Lemma elem_of_enumerate {A} (l : list A) i x :
  (i, x) ∈ Client.enumerate l ↔ l !! i = Some x.
Proof.
  unfold Client.enumerate. rewrite elem_of_lookup_imap. split.
  - by intros (j & y & [= -> ->] & H).
  - intros H. by exists i, x.
Qed.

(** What the first half of [dispatch] does when no exception leaves it. *)
Lemma resolve_listeners_None c event args c' listeners :
  Client._listeners c !! event = Some listeners →
  Client.resolve_listeners c event args = (c', None) →
  (∀ g, Future.cancelled (Client.futures c') g
        = Future.cancelled (Client.futures c) g)
  ∧ (∀ g, Future.done (Client.futures c) g = true →
          Future.fstate_of (Client.futures c') g
          = Future.fstate_of (Client.futures c) g)
  ∧ (∀ w, w ∈ listeners → stays args (Client.futures c) w = false →
          settled args (Client.futures c) w
            (Future.fstate_of (Client.futures c') w.1))
  ∧ Client._listeners c'
    = match listeners with
      | [] => Client._listeners c
      | _ =>
          match filter (λ w, stays args (Client.futures c) w) listeners with
          | [] => delete event (Client._listeners c)
          | l => <[event := l]> (Client._listeners c)
          end
      end.
Proof.
  intros Hl H. unfold Client.resolve_listeners in H. rewrite Hl in H.
  destruct listeners as [|w0 rest].
  { inversion H; subst. split_and!; try done.
    intros w Hw. by apply elem_of_nil in Hw. }
  set (ls := w0 :: rest) in *.
  destruct (Client.scan args (Client.enumerate ls) (Client.futures c) [])
    as [[fs removed] exc] eqn:Hscan.
  destruct exc as [e|]; [done|].
  apply scan_None in Hscan as (H1 & H2 & H3 & H4). rewrite app_nil_l in H3.
  assert (Hlen : length (gone args (Client.futures c) (Client.enumerate ls))
                 + length (filter (λ w, stays args (Client.futures c) w) ls)
                 = length ls)
    by exact (length_gone args (Client.futures c) pair ls (λ _ _, eq_refl)).
  assert (Hdel : Client.del_each
                   (reverse (gone args (Client.futures c) (Client.enumerate ls))) ls
                 = Ok (filter (λ w, stays args (Client.futures c) w) ls))
    by exact (del_each_gone args (Client.futures c) ls []).
  rewrite <- H3 in Hlen, Hdel.
  assert (Hsettled : ∀ w, w ∈ ls → stays args (Client.futures c) w = false →
            settled args (Client.futures c) w (Future.fstate_of fs w.1)).
  { intros w [i Hi]%list_elem_of_lookup. apply (H4 i). by apply elem_of_enumerate. }
  destruct (decide (length removed = length ls)) as [Heq|Hne].
  - inversion H; subst c'; simpl. split_and!; try done.
    destruct (filter _ ls) as [|x l] eqn:Hf; [done|]. subst ls; simpl in *; lia.
  - rewrite Hdel in H. inversion H; subst c'; simpl. split_and!; try done.
    destruct (filter _ ls) as [|x l] eqn:Hf; [|done]. subst ls; simpl in *; lia.
Qed.

(** [dispatch] touches the waiters and their futures only. *)
Lemma resolve_listeners_frame c event args :
  let c' := (Client.resolve_listeners c event args).1 in
  Client.ws c' = Client.ws c ∧ Client._closed c' = Client._closed c
  ∧ Client._ready c' = Client._ready c
  ∧ Client.instance_attrs c' = Client.instance_attrs c.
Proof.
  unfold Client.resolve_listeners.
  destruct (Client._listeners c !! event) as [[|w0 rest]|]; try done.
  destruct (Client.scan _ _ _ _) as [[fs removed] [e|]]; [done|].
  destruct (decide _); [done|]. by destruct (Client.del_each _ _).
Qed.

Lemma dispatch_frame c event args kwargs :
  let c' := (Client.dispatch c event args kwargs).1.1 in
  Client.ws c' = Client.ws c ∧ Client._closed c' = Client._closed c
  ∧ Client._ready c' = Client._ready c
  ∧ Client.instance_attrs c' = Client.instance_attrs c.
Proof.
  unfold Client.dispatch.
  destruct (Client.instance_attrs c !! "_listeners"); [done|].
  pose proof (resolve_listeners_frame c event args) as H.
  destruct (Client.resolve_listeners c event args) as [c1 [e|]]; [done|].
  simpl in H. destruct (Client.getattr c1 _); [|done].
  by destruct (Client.instance_attrs c1 !! "_schedule_event").
Qed.

(** A [dispatch] that returns has gone through the whole of its first
    half. *)
Lemma dispatch_None c event args kwargs c' effs :
  Client.dispatch c event args kwargs = (c', effs, None) →
  Client.instance_attrs c !! "_listeners" = None
  ∧ Client.resolve_listeners c event args = (c', None).
Proof.
  unfold Client.dispatch. intros H.
  destruct (Client.instance_attrs c !! "_listeners"); [done|]. split; [done|].
  destruct (Client.resolve_listeners c event args) as [c1 [e|]]; [done|].
  destruct (Client.getattr c1 _); [|by inversion H].
  destruct (Client.instance_attrs c1 !! "_schedule_event"); by inversion H.
Qed.

(** The waiters of an event after a [dispatch] that returned. *)
Lemma dispatch_waiters c event args kwargs c' effs listeners :
  Client._listeners c !! event = Some listeners →
  Client.dispatch c event args kwargs = (c', effs, None) →
  (∀ g, Future.cancelled (Client.futures c') g
        = Future.cancelled (Client.futures c) g)
  ∧ (∀ w, w ∈ listeners → stays args (Client.futures c) w = false →
          settled args (Client.futures c) w
            (Future.fstate_of (Client.futures c') w.1))
  ∧ (listeners ≠ [] →
     Client._listeners c' !! event
     = match filter (λ w, stays args (Client.futures c) w) listeners with
       | [] => None
       | l => Some l
       end)
  ∧ (∀ w, w ∈ default [] (Client._listeners c' !! event) ↔
          w ∈ listeners ∧ stays args (Client.futures c) w = true).
Proof.
  intros Hl [_ H]%dispatch_None.
  destruct (resolve_listeners_None _ _ _ _ _ Hl H) as (H1 & _ & H3 & H4).
  assert (Hreg : listeners ≠ [] →
     Client._listeners c' !! event
     = match filter (λ w, stays args (Client.futures c) w) listeners with
       | [] => None
       | l => Some l
       end).
  { intros Hne. rewrite H4. destruct listeners as [|w0 rest]; [done|].
    destruct (filter _ (w0 :: rest)).
    - by rewrite lookup_delete_eq.
    - by rewrite lookup_insert_eq. }
  split_and!; try done.
  intros w. destruct listeners as [|w0 rest].
  - rewrite H4, Hl. simpl. split; [by intros ?%elem_of_nil|by intros [?%elem_of_nil _]].
  - rewrite Hreg by done.
    assert (Hfilter : ∀ x, x ∈ filter (λ w, stays args (Client.futures c) w) (w0 :: rest)
                      ↔ x ∈ w0 :: rest ∧ stays args (Client.futures c) x = true).
    { intros x. rewrite list_elem_of_filter. rewrite Is_true_true. tauto. }
    destruct (filter _ (w0 :: rest)) as [|y l] eqn:Hf; simpl; [|apply Hfilter].
    split; [by intros ?%elem_of_nil|]. intros Hw%Hfilter. by apply elem_of_nil in Hw.
Qed.

(** C1.  In a dispatch that returns, every registered waiter whose future
    is not cancelled and whose predicate returns a true value has its
    future resolved by the number of positional arguments of the event
    (none: [None]; exactly one: that argument; two or more: the tuple of
    all of them, in order) and is no longer among the waiters of the event
    afterwards; the waiters left are exactly those that stay, in their
    order, and the entry of the event is dropped when none is left. *)
Theorem dispatch_resolves_matching_waiters
    (c c' : Client.t) (event : string) (args : list pyval)
    (kwargs : list (string * pyval)) (effs : list effect)
    (listeners : list waiter) :
  Client._listeners c !! event = Some listeners →
  Client.dispatch c event args kwargs = (c', effs, None) →
  (∀ future condition v,
      (future, condition) ∈ listeners →
      Future.cancelled (Client.futures c) future = false →
      condition args = Ok v → truthy v = true →
      (args = [] →
       Future.fstate_of (Client.futures c') future = Finished PNone)
      ∧ (∀ a, args = [a] →
              Future.fstate_of (Client.futures c') future = Finished a)
      ∧ (2 ≤ length args →
         Future.fstate_of (Client.futures c') future = Finished (PTuple args))
      ∧ ((future, condition) ∉ waiters_of c' event))
  ∧ (listeners ≠ [] →
     Client._listeners c' !! event
     = match filter (λ w, stays args (Client.futures c) w) listeners with
       | [] => None
       | l => Some l
       end).
Proof.
  intros Hl H.
  destruct (dispatch_waiters _ _ _ _ _ _ _ Hl H) as (_ & Hset & Hreg & Hin).
  split; [|done].
  intros future condition v Hw Hc Hcond Hv.
  assert (Hs : stays args (Client.futures c) (future, condition) = false)
    by (unfold stays; simpl; by rewrite Hc, Hcond, Hv).
  specialize (Hset _ Hw Hs). unfold settled in Hset. simpl in Hset.
  rewrite Hc, Hcond, Hv in Hset. rewrite Hset.
  split_and!.
  - by intros ->.
  - by intros a ->.
  - intros Hlen. destruct args as [|a [|b args]]; simpl in Hlen; try lia. done.
  - unfold waiters_of. rewrite Hin. intros [_ Hs']. by rewrite Hs in Hs'.
Qed.

Lemma client_constructed :
  Client.__init__ Examples.no_text ConnectionState.ascii_upper [] Examples.options = Ok Examples.client.
Proof. vm_compute. reflexivity. Qed.

Lemma dispatch_resolves_matching_waiters_witness :
  let r := Client.dispatch Examples.two_waiters "message"
             [PStr "hello"; PInt 2] [] in
  Future.fstate_of (Client.futures r.1.1) 0
  = Finished (PTuple [PStr "hello"; PInt 2])
  ∧ ((0, Examples.always) ∉ waiters_of r.1.1 "message")
  ∧ Client._listeners r.1.1 !! "message" = Some [(1, Examples.never)].
Proof.
  intros r.
  destruct (dispatch_resolves_matching_waiters Examples.two_waiters r.1.1
              "message" [PStr "hello"; PInt 2] [] r.1.2
              [(0, Examples.always); (1, Examples.never)]) as [H1 H2].
  - vm_compute. reflexivity.
  - vm_compute. reflexivity.
  - destruct (H1 0 Examples.always (PBool true)) as (_ & _ & H3 & H4).
    + apply elem_of_cons. by left.
    + vm_compute. reflexivity.
    + reflexivity.
    + reflexivity.
    + split; [apply H3; simpl; lia|]. split; [exact H4|].
      etrans; [apply H2; done|]. vm_compute. reflexivity.
Defined.

(** C4, as worded, fails: with a waiter whose predicate raises and a second
    waiter whose predicate holds, the second is removed by the same
    dispatch. *)
Lemma raising_waiter_keeps_every_other_fails :
  ¬ raising_waiter_keeps_every_other.
Proof.
  intros H.
  destruct (H Examples.raising_and_always
              (Client.dispatch Examples.raising_and_always "message"
                 [PStr "hello"] []).1.1
              "message" [PStr "hello"] [] []
              [(0, Examples.raising); (1, Examples.always)]
              0 Examples.raising (ValueError "bad predicate"))
    as (_ & _ & H3).
  - vm_compute. reflexivity.
  - vm_compute. reflexivity.
  - apply elem_of_cons. by left.
  - vm_compute. reflexivity.
  - reflexivity.
  - specialize (H3 (1, Examples.always)). vm_compute in H3.
    assert (Hin : (1, Examples.always) ∈ ([] : list waiter)).
    { apply H3; [|done]. apply elem_of_cons. right. apply elem_of_cons. by left. }
    by apply elem_of_nil in Hin.
Qed.

(** C4, as amended.  In a dispatch that returns, the future of a waiter
    whose predicate raises holds the raised failure and the waiter is no
    longer registered; every other waiter of the event whose future is not
    cancelled and whose predicate returned a false value in that dispatch
    remains registered, and the next dispatch of the event that returns
    treats it by its own future and predicate: it is left registered when
    it stays, and otherwise its future is settled and it is removed. *)
Theorem dispatch_raising_waiter_isolated
    (c c' : Client.t) (event : string) (args : list pyval)
    (kwargs : list (string * pyval)) (effs : list effect)
    (listeners : list waiter) (future : future) (condition : condition)
    (exc : exn) :
  Client._listeners c !! event = Some listeners →
  Client.dispatch c event args kwargs = (c', effs, None) →
  (future, condition) ∈ listeners →
  Future.cancelled (Client.futures c) future = false →
  condition args = Raise exc →
  Future.fstate_of (Client.futures c') future = Failed exc
  ∧ ((future, condition) ∉ waiters_of c' event)
  ∧ ∀ w v, w ∈ listeners →
      Future.cancelled (Client.futures c) w.1 = false →
      w.2 args = Ok v → truthy v = false →
      w ∈ waiters_of c' event
      ∧ ∀ args' kwargs' c'' effs',
          Client.dispatch c' event args' kwargs' = (c'', effs', None) →
          (stays args' (Client.futures c') w = true →
           w ∈ waiters_of c'' event)
          ∧ (stays args' (Client.futures c') w = false →
             settled args' (Client.futures c') w
               (Future.fstate_of (Client.futures c'') w.1)
             ∧ w ∉ waiters_of c'' event).
Proof.
  intros Hl H Hw Hc Hcond.
  destruct (dispatch_waiters _ _ _ _ _ _ _ Hl H) as (_ & Hset & _ & Hin).
  assert (Hs : stays args (Client.futures c) (future, condition) = false)
    by (unfold stays; simpl; by rewrite Hc, Hcond).
  specialize (Hset _ Hw Hs) as Hf. unfold settled in Hf. simpl in Hf.
  rewrite Hc, Hcond in Hf. destruct Hf as [_ Hf].
  split; [done|]. split.
  { unfold waiters_of. rewrite Hin. intros [_ Hs']. by rewrite Hs in Hs'. }
  intros w v Hw' Hc' Hcond' Hv.
  assert (Hin' : w ∈ waiters_of c' event).
  { unfold waiters_of. apply Hin. split; [done|].
    unfold stays. destruct w as [f' cond']. simpl in *.
    by rewrite Hc', Hcond', Hv. }
  split; [done|].
  intros args' kwargs' c'' effs' H'.
  unfold waiters_of in Hin'.
  destruct (Client._listeners c' !! event) as [listeners'|] eqn:Hl';
    [|by apply elem_of_nil in Hin'].
  simpl in Hin'.
  destruct (dispatch_waiters _ _ _ _ _ _ _ Hl' H') as (_ & Hset' & _ & Hin'').
  unfold waiters_of. split.
  - intros Hst. by apply Hin''.
  - intros Hst. split; [by apply Hset'|].
    rewrite Hin''. intros [_ Hst']. by rewrite Hst in Hst'.
Qed.

Lemma dispatch_raising_waiter_isolated_witness :
  let c' := (Client.dispatch Examples.raising_and_never "message"
               [PStr "hello"] []).1.1 in
  Future.fstate_of (Client.futures c') 0 = Failed (ValueError "bad predicate")
  ∧ ((0, Examples.raising) ∉ waiters_of c' "message")
  ∧ ((1, Examples.never) ∈ waiters_of c' "message").
Proof.
  intros c'.
  destruct (dispatch_raising_waiter_isolated Examples.raising_and_never c'
              "message" [PStr "hello"] []
              (Client.dispatch Examples.raising_and_never "message"
                 [PStr "hello"] []).1.2
              [(0, Examples.raising); (1, Examples.never)]
              0 Examples.raising (ValueError "bad predicate"))
    as (H1 & H2 & H3).
  - vm_compute. reflexivity.
  - vm_compute. reflexivity.
  - apply elem_of_cons. by left.
  - vm_compute. reflexivity.
  - reflexivity.
  - split; [exact H1|]. split; [exact H2|].
    apply (H3 (1, Examples.never) (PBool false)).
    + apply elem_of_cons. right. apply elem_of_cons. by left.
    + vm_compute. reflexivity.
    + reflexivity.
    + reflexivity.
Defined.

(** ** [event] and the handler lookup of [dispatch] *)

Lemma event_bound_by_event c coro :
  bound_by_event c → bound_by_event (Client.event c coro).1.
Proof.
  intros Hb. unfold Client.event.
  destruct (negb (iscoroutinefunction coro)); [done|].
  destruct (Client.setattr_refuses _); [done|]. simpl.
  intros name f. simpl. rewrite lookup_insert.
  case_decide; [by intros [= <-]|]. apply Hb.
Qed.

(** The functions [dispatch] calls are bound on the instance under the
    name of the handler of the event, or under the name of one of the two
    methods through which a handler is scheduled. *)
Lemma dispatch_invokes_by_name d event args kwargs f :
  bound_by_event d →
  f ∈ invoked_by (Client.dispatch d event args kwargs) →
  Client.instance_attrs d !! __name__ f = Some f
  ∧ (__name__ f = "on_" +:+ event ∨ __name__ f = "_schedule_event"
     ∨ __name__ f = "_run_event").
Proof.
  intros Hb. unfold invoked_by, Client.dispatch.
  destruct (Client.instance_attrs d !! "_listeners");
    [by intros ?%elem_of_nil|].
  pose proof (resolve_listeners_frame d event args) as (_ & _ & _ & Hattrs).
  destruct (Client.resolve_listeners d event args) as [c1 [e|]];
    [by intros ?%elem_of_nil|].
  simpl in Hattrs. unfold Client.getattr. rewrite Hattrs.
  assert (Hname : ∀ name g, Client.instance_attrs d !! name = Some g →
            f ∈ [g] → Client.instance_attrs d !! __name__ f = Some f
                      ∧ __name__ f = name).
  { intros name g Hg ->%list_elem_of_singleton.
    by rewrite (Hb _ _ Hg). }
  destruct (Client.instance_attrs d !! ("on_" +:+ event)) as [g|] eqn:Hg.
  - destruct (Client.instance_attrs d !! "_schedule_event") as [s|] eqn:Hs.
    + simpl. rewrite ?app_nil_r. intros Hf.
      destruct (Hname _ _ Hs Hf) as [? ?]. auto.
    + unfold Client._schedule_event. rewrite Hattrs.
      destruct (Client.instance_attrs d !! "_run_event") as [r|] eqn:Hr;
        simpl; rewrite ?app_nil_r; intros Hf.
      * destruct (Hname _ _ Hr Hf) as [? ?]. auto.
      * destruct (Hname _ _ Hg Hf) as [? ?]. auto.
  - case_bool_decide; [|by intros ?%elem_of_nil].
    destruct (Client.instance_attrs d !! "_schedule_event") as [s|] eqn:Hs.
    + simpl. rewrite ?app_nil_r. intros Hf.
      destruct (Hname _ _ Hs Hf) as [? ?]. auto.
    + unfold Client._schedule_event. rewrite Hattrs.
      destruct (Client.instance_attrs d !! "_run_event") as [r|] eqn:Hr;
        simpl; rewrite ?app_nil_r; intros Hf.
      * destruct (Hname _ _ Hr Hf) as [? ?]. auto.
      * by apply elem_of_nil in Hf.
Qed.

Lemma prefix_on (event : string) : String.prefix "on_" ("on_" +:+ event) = true.
Proof. simpl. by destruct event. Qed.

Lemma nothing_bound : bound_by_event Examples.client.
Proof. intros name f. simpl. by rewrite lookup_empty. Qed.

(** C10, as worded, fails: a coroutine function named [_run_event] is
    registered, its name does not start with [on_], and the dispatch of
    [error] creates the task of the handler by calling it. *)
Lemma any_name_registers_and_only_on_names_run_fails :
  ¬ any_name_registers_and_only_on_names_run.
Proof.
  intros H.
  destruct (H Examples.client Examples._run_event) as (_ & _ & H3).
  - exact nothing_bound.
  - reflexivity.
  - apply (H3 eq_refl "error" [] []). vm_compute.
    apply elem_of_cons. by left.
Qed.

(** A name [setattr] refuses cannot be bound: the client is left as it
    is. *)
Lemma event_refused c coro e :
  iscoroutinefunction coro = true →
  Client.setattr_refuses (__name__ coro) = Some e →
  Client.event c coro = (c, Raise e).
Proof. intros Hco He. unfold Client.event. by rewrite Hco, He. Qed.

Lemma event_bound c coro :
  iscoroutinefunction coro = true →
  Client.setattr_refuses (__name__ coro) = None →
  Client.event c coro
  = (Client.with_instance_attrs
       (<[__name__ coro := coro]> (Client.instance_attrs c)) c, Ok coro).
Proof. intros Hco He. unfold Client.event. by rewrite Hco, He. Qed.

(** The names [setattr] refuses, one by one. *)
Lemma setattr_refuses_Some name e :
  Client.setattr_refuses name = Some e ↔
  (e = AttributeError
   ∧ name ∈ ["latency"; "user"; "guilds"; "__weakref__"])
  ∨ (e = TypeError ∧ name ∈ ["__class__"; "__dict__"]).
Proof.
  split.
  - unfold Client.setattr_refuses, Client.class_properties.
    case_bool_decide as H1; [|case_bool_decide as H2; [|case_bool_decide as H3]];
      intros [= <-].
    + left. split; [done|].
      repeat (apply elem_of_cons in H1 as [->|H1]); [..|by apply elem_of_nil in H1];
        by repeat constructor.
    + right. by split.
    + left. split; [done|]. subst name. by repeat constructor.
  - intros [[-> H]|[-> H]];
      repeat (apply elem_of_cons in H as [->|H]);
      try (by apply elem_of_nil in H); reflexivity.
Qed.

(** C10, as amended.  [event] does not validate the name of a coroutine
    function.  [setattr] refuses six names: those of the properties of the
    class ([latency], [user], [guilds]) and [__weakref__], with
    [AttributeError], and [__class__] and [__dict__], with [TypeError];
    nothing is bound then.  Under any other name registration succeeds
    and binds the function on the instance under its own name, whether or
    not the name starts with [on_].  A [functools.partial] of a coroutine
    function, which has no name, is refused with [AttributeError].  A
    dispatch only calls functions bound under the name [on_] followed by
    the event, or under [_schedule_event] or [_run_event], the methods it
    schedules a handler through; so a function registered under a name that
    does not start with [on_] and is neither of these two is called by no
    dispatch. *)
Theorem event_binds_any_name_dispatch_calls_by_name
    (c : Client.t) (coro : function) :
  bound_by_event c →
  iscoroutinefunction coro = true →
  (∀ e, Client.setattr_refuses (__name__ coro) = Some e ↔
        (e = AttributeError
         ∧ __name__ coro ∈ ["latency"; "user"; "guilds"; "__weakref__"])
        ∨ (e = TypeError ∧ __name__ coro ∈ ["__class__"; "__dict__"]))
  ∧ (∀ e, Client.setattr_refuses (__name__ coro) = Some e →
          Client.event c coro = (c, Raise e))
  ∧ (Client.setattr_refuses (__name__ coro) = None →
     (Client.event c coro).2 = Ok coro
     ∧ Client.instance_attrs (Client.event c coro).1
       = <[__name__ coro := coro]> (Client.instance_attrs c)
     ∧ Client.event_object c (Client.Plain coro)
       = ((Client.event c coro).1, Ok (Client.Plain coro)))
  ∧ Client.event_object c (Client.Partial coro) = (c, Raise AttributeError)
  ∧ bound_by_event (Client.event c coro).1
  ∧ (∀ d event args kwargs f,
       bound_by_event d →
       f ∈ invoked_by (Client.dispatch d event args kwargs) →
       __name__ f = "on_" +:+ event ∨ __name__ f = "_schedule_event"
       ∨ __name__ f = "_run_event")
  ∧ (String.prefix "on_" (__name__ coro) = false →
     __name__ coro ≠ "_schedule_event" → __name__ coro ≠ "_run_event" →
     ∀ d event args kwargs,
       bound_by_event d →
       (coro ∉ invoked_by (Client.dispatch d event args kwargs))).
Proof.
  intros Hb Hco.
  split_and!.
  - intros e. apply setattr_refuses_Some.
  - intros e He. by apply event_refused.
  - intros He. unfold Client.event_object.
    rewrite (event_bound c coro Hco He). done.
  - simpl. by rewrite Hco.
  - by apply event_bound_by_event.
  - intros d event args kwargs f Hd Hf.
    by destruct (dispatch_invokes_by_name _ _ _ _ _ Hd Hf).
  - intros Hon Hs Hr d event args kwargs Hd Hf.
    destruct (dispatch_invokes_by_name _ _ _ _ _ Hd Hf) as [_ [Hn|[Hn|Hn]]];
      try done.
    rewrite Hn, prefix_on in Hon. done.
Qed.

Lemma event_binds_any_name_dispatch_calls_by_name_witness :
  (Client.event Examples.client Examples.handle_message).2
  = Ok Examples.handle_message
  ∧ ∀ event args kwargs,
      (Examples.handle_message
         ∉ invoked_by
             (Client.dispatch
                (Client.event Examples.client Examples.handle_message).1
                event args kwargs)).
Proof.
  destruct (event_binds_any_name_dispatch_calls_by_name
              Examples.client Examples.handle_message)
    as (_ & _ & H3 & _ & H5 & _ & H7).
  - exact nothing_bound.
  - reflexivity.
  - destruct (H3 eq_refl) as (H1 & _). split; [exact H1|].
    intros event args kwargs.
    apply H7; [reflexivity|done|done|exact H5].
Defined.

(** ** [close] and [connect] *)

Lemma count_app p effs effs' :
  count p (effs ++ effs') = count p effs + count p effs'.
Proof. unfold count. by rewrite filter_app, length_app. Qed.

Lemma count_cons p e effs :
  count p (e :: effs) = (if p e then 1 else 0) + count p effs.
Proof.
  unfold count. rewrite filter_cons. destruct (p e) eqn:E.
  - by rewrite decide_True.
  - by rewrite decide_False by (by intros []).
Qed.

Lemma count_nil p : count p [] = 0.
Proof. done. Qed.

(** [dispatch] has at most one effect: it calls the function bound as
    [_schedule_event], or it creates the task of the handler. *)
Lemma dispatch_effects c event args kwargs :
  let effs := (Client.dispatch c event args kwargs).1.2 in
  effs = [] ∨ (∃ co, effs = [Called co]) ∨ (∃ co n, effs = [CreateTask co n]).
Proof.
  unfold Client.dispatch.
  destruct (Client.instance_attrs c !! "_listeners"); [by left|].
  destruct (Client.resolve_listeners c event args) as [c1 [e|]]; [by left|].
  destruct (Client.getattr c1 _); [|by left].
  destruct (Client.instance_attrs c1 !! "_schedule_event"); simpl; eauto.
Qed.

Lemma dispatch_count p c event args kwargs :
  (∀ co, p (Called co) = false) → (∀ co n, p (CreateTask co n) = false) →
  count p (Client.dispatch c event args kwargs).1.2 = 0.
Proof.
  intros H1 H2.
  destruct (dispatch_effects c event args kwargs) as [->|[[co ->]|(co & n & ->)]];
    rewrite ?count_cons, ?count_nil, ?H1, ?H2; done.
Qed.

Lemma close_closed c :
  Client._closed c = true → Client.close c = (c, []).
Proof. intros H. unfold Client.close. by rewrite H. Qed.

(** A [close] that finds the client open closes the socket if there is an
    open one, closes the REST transport, and leaves the client closed and
    not ready. *)
Lemma close_open c :
  Client._closed c = false →
  Client._closed (Client.close c).1 = true
  ∧ Client._ready (Client.close c).1 = false
  ∧ Client.instance_attrs (Client.close c).1 = Client.instance_attrs c
  ∧ ((Client.close c).2 = [HttpClose]
     ∨ ∃ id, (Client.close c).2 = [WsClose id 1000; HttpClose]).
Proof.
  intros H. unfold Client.close. rewrite H. simpl.
  destruct (Client.ws c) as [w|]; [destruct (open w)|]; simpl; eauto 10.
Qed.







(** The other tasks do not call [close] on behalf of [connect], and do
    not sleep for it. *)
Lemma run_calls_count p calls : ∀ c,
  (∀ co, p (Called co) = false) → (∀ co n, p (CreateTask co n) = false) →
  (∀ id code, p (WsClose id code) = false) → p HttpClose = false →
  count p (Client.run_calls c calls).2 = 0.
Proof.
  induction calls as [|k calls IH]; intros c H1 H2 H3 H4; simpl; [done|].
  assert (Hk : count p (Client.run_call c k).2 = 0).
  { destruct k; simpl; try done.
    - destruct (Client._closed c) eqn:E.
      + by rewrite close_closed.
      + destruct (close_open c E) as (_ & _ & _ & [->| [id ->]]);
          by rewrite !count_cons, ?H3, ?H4.
    - by apply dispatch_count. }
  destruct (Client.run_call c k) as [c1 effs1]. specialize (IH c1 H1 H2 H3 H4).
  destruct (Client.run_calls c1 calls) as [c2 effs2]. simpl in *.
  rewrite count_app. lia.
Qed.



(** *** The methods [connect] looks up on the instance *)

Lemma self_is_closed_effects c :
  (Client.self_is_closed c).2 = []
  ∨ ∃ co, (Client.self_is_closed c).2 = [Called co].
Proof.
  unfold Client.self_is_closed.
  destruct (Client.instance_attrs c !! "is_closed"); simpl; eauto.
Qed.

(** Where [self.is_closed()] is false, it is the method of the class that
    was called, on an open client. *)
Lemma self_is_closed_false c :
  (Client.self_is_closed c).1 = false →
  Client.instance_attrs c !! "is_closed" = None
  ∧ Client._closed c = false ∧ (Client.self_is_closed c).2 = [].
Proof.
  unfold Client.self_is_closed.
  by destruct (Client.instance_attrs c !! "is_closed").
Qed.

Lemma self_is_closed_class c :
  Client.instance_attrs c !! "is_closed" = None →
  Client.self_is_closed c = (Client.is_closed c, []).
Proof. intros H. unfold Client.self_is_closed. by rewrite H. Qed.

Lemma self_is_closed_count p c :
  (∀ co, p (Called co) = false) → count p (Client.self_is_closed c).2 = 0.
Proof.
  intros H. destruct (self_is_closed_effects c) as [->|[co ->]]; [done|].
  by rewrite count_cons, H.
Qed.

Lemma self_dispatch_class c event :
  Client.instance_attrs c !! "dispatch" = None →
  Client.self_dispatch c event = Client.dispatch c event [] [].
Proof. intros H. unfold Client.self_dispatch. by rewrite H. Qed.

Lemma self_dispatch_frame c event :
  let c' := (Client.self_dispatch c event).1.1 in
  Client.ws c' = Client.ws c ∧ Client._closed c' = Client._closed c
  ∧ Client._ready c' = Client._ready c
  ∧ Client.instance_attrs c' = Client.instance_attrs c.
Proof.
  unfold Client.self_dispatch.
  destruct (Client.instance_attrs c !! "dispatch"); [done|].
  apply dispatch_frame.
Qed.

Lemma self_dispatch_count p c event :
  (∀ co, p (Called co) = false) → (∀ co n, p (CreateTask co n) = false) →
  count p (Client.self_dispatch c event).1.2 = 0.
Proof.
  intros H1 H2. unfold Client.self_dispatch.
  destruct (Client.instance_attrs c !! "dispatch"); simpl.
  - by rewrite count_cons, H1.
  - by apply dispatch_count.
Qed.


(** An exception that leaves [self.dispatch] left the method of the
    class. *)
Lemma self_dispatch_Some c event c' effs e :
  Client.self_dispatch c event = (c', effs, Some e) →
  Client.dispatch c event [] [] = (c', effs, Some e).
Proof.
  unfold Client.self_dispatch.
  by destruct (Client.instance_attrs c !! "dispatch").
Qed.

Lemma self_close_class user c :
  Client.instance_attrs c !! "close" = None →
  Client.self_close user c = ((Client.close c).1, (Client.close c).2, None).
Proof.
  intros H. unfold Client.self_close. rewrite H.
  by destruct (Client.close c).
Qed.


Lemma close_count p c :
  (∀ id code, p (WsClose id code) = false) → p HttpClose = false →
  count p (Client.close c).2 = 0.
Proof.
  intros H1 H2. destruct (Client._closed c) eqn:E.
  - by rewrite close_closed.
  - destruct (close_open c E) as (_ & _ & _ & [->|[id ->]]);
      by rewrite !count_cons, ?H1, ?H2.
Qed.

Lemma self_close_count p user c :
  (∀ co, p (Called co) = false) → (∀ co n, p (CreateTask co n) = false) →
  (∀ id code, p (WsClose id code) = false) → p HttpClose = false →
  count p (Client.self_close user c).1.2 = 0.
Proof.
  intros H1 H2 H3 H4. unfold Client.self_close.
  destruct (Client.instance_attrs c !! "close").
  - pose proof (run_calls_count p user.1 c H1 H2 H3 H4) as H.
    destruct (Client.run_calls c user.1) as [c1 e1]. simpl in *.
    by rewrite count_cons, H1.
  - pose proof (close_count p c H3 H4) as H.
    by destruct (Client.close c) as [c1 e1].
Qed.

Lemma close_and_eq a c before out :
  Client.close_and a c before out
  = Client.Stop (Client.self_close (Client.closing a) c).1.1
      (before ++ CloseCalled :: (Client.self_close (Client.closing a) c).1.2)
      (match (Client.self_close (Client.closing a) c).2 with
       | Some e => Client.Raised e
       | None => out
       end).
Proof.
  unfold Client.close_and.
  by destruct (Client.self_close (Client.closing a) c) as [[c1 e1] failed].
Qed.

(** *** The turns of the loop *)

Lemma request_or_not (e : exn) :
  (∃ op resume, e = ReconnectWebSocket op resume)
  ∨ (∀ op resume, e ≠ ReconnectWebSocket op resume).
Proof. destruct e; eauto. Qed.

(** The three ways of a turn, by the class of the exception that leaves the
    [try] block: not handled, a request to reconnect, a failure of the
    handled classes. *)
Lemma iteration_unhandled reconnect a ws_params c :
  Client.caught (Client.failure a) = false →
  (∀ op resume, Client.failure a ≠ ReconnectWebSocket op resume) →
  Client.iteration reconnect a ws_params c
  = let s := Client.run_calls
               (match Client.connected a with
                | Some w => Client.with_ws (Some w) c
                | None => c
                end) (Client.meanwhile a) in
    Client.Stop s.1 (FromClient ws_params :: s.2)
      (Client.Raised (Client.failure a)).
Proof.
  intros Hc Hr. unfold Client.iteration.
  destruct (Client.run_calls _ (Client.meanwhile a)) as [c1 e0]. simpl.
  destruct (Client.failure a) eqn:Hf; try done. by destruct (Hr op resume).
Qed.

Lemma iteration_request reconnect a ws_params c op resume :
  Client.failure a = ReconnectWebSocket op resume →
  Client.iteration reconnect a ws_params c
  = let s := Client.run_calls
               (match Client.connected a with
                | Some w => Client.with_ws (Some w) c
                | None => c
                end) (Client.meanwhile a) in
    let d := Client.self_dispatch s.1 "disconnect" in
    let before := (FromClient ws_params :: s.2) ++ d.1.2 in
    match d.2 with
    | Some e => Client.Stop d.1.1 before (Client.Raised e)
    | None =>
        match Client.ws d.1.1 with
        | None => Client.Stop d.1.1 before (Client.Raised AttributeError)
        | Some w =>
            Client.Again d.1.1 before
              (Client.resume_params w resume
                 match Client.connected a with
                 | Some _ => <["initial" := PBool false]> ws_params
                 | None => ws_params
                 end)
        end
    end.
Proof.
  intros Hf. unfold Client.iteration. rewrite Hf.
  destruct (Client.run_calls _ (Client.meanwhile a)) as [c1 e0]. simpl.
  by destruct (Client.self_dispatch c1 "disconnect") as [[c2 e1] exc'].
Qed.

Lemma iteration_handled reconnect a ws_params c :
  Client.caught (Client.failure a) = true →
  Client.iteration reconnect a ws_params c
  = let ws_params' := match Client.connected a with
                      | Some _ => <["initial" := PBool false]> ws_params
                      | None => ws_params
                      end in
    let s := Client.run_calls
               (match Client.connected a with
                | Some w => Client.with_ws (Some w) c
                | None => c
                end) (Client.meanwhile a) in
    let d := Client.self_dispatch s.1 "disconnect" in
    let before := (FromClient ws_params :: s.2) ++ d.1.2 in
    let z := Client.run_calls d.1.1 (Client.asleep a) in
    let slept := before ++ Sleep (Client.retry a) :: z.2 in
    match d.2 with
    | Some e => Client.Stop d.1.1 before (Client.Raised e)
    | None =>
        if negb reconnect then
          Client.close_and a d.1.1 before
            (if Client.closed_with (Client.failure a) 1000 then Client.Returned
             else Client.Raised (Client.failure a))
        else if (Client.self_is_closed d.1.1).1 then
          Client.Stop d.1.1 (before ++ (Client.self_is_closed d.1.1).2)
            Client.Returned
        else if Client.peer_reset (Client.failure a) then
          match Client.ws d.1.1 with
          | None => Client.Stop d.1.1 before (Client.Raised AttributeError)
          | Some w =>
              Client.Again d.1.1 before
                (Client.resume_params w true
                   (<["initial" := PBool false]> ws_params'))
          end
        else if Client.is_ConnectionClosed (Client.failure a)
                && negb (Client.closed_with (Client.failure a) 1000) then
          Client.close_and a d.1.1 before (Client.Raised (Client.failure a))
        else
          match Client.ws z.1 with
          | None => Client.Stop z.1 slept (Client.Raised AttributeError)
          | Some w => Client.Again z.1 slept (Client.resume_params w true ws_params')
          end
    end.
Proof.
  intros Hc. unfold Client.iteration.
  destruct (Client.run_calls _ (Client.meanwhile a)) as [c1 e0]. simpl.
  destruct (Client.self_dispatch c1 "disconnect") as [[c2 e1] exc']. simpl.
  destruct (Client.run_calls c2 (Client.asleep a)) as [c4 e2]. simpl.
  destruct (Client.failure a) eqn:Hf; try done;
    destruct exc'; try done;
    repeat match goal with
           | |- context [if ?b then _ else _] => destruct b; simpl
           | |- context [match Client.ws ?c with _ => _ end] =>
               destruct (Client.ws c)
           end;
    by rewrite <- ?app_assoc.
Qed.

(** The shapes a turn can have, for the properties of its effects that
    hold of each part and of the parts put together: [P c effs c'] is to
    hold of the calls of the other tasks, of [self.dispatch], of
    [self.close] after the mark of its call, of [self.is_closed], and of
    the sleep. *)
Lemma iteration_parts (P : Client.t → list effect → Client.t → Prop)
    reconnect a ws_params c :
  (∀ c1 e1 c2 e2 c3, P c1 e1 c2 → P c2 e2 c3 → P c1 (e1 ++ e2) c3) →
  (∀ c1, P c1 [] c1) →
  (∀ c1 w, P c1 [] (Client.with_ws (Some w) c1)) →
  (∀ c1 p, P c1 [FromClient p] c1) →
  (∀ c1 q, P c1 [Sleep q] c1) →
  (∀ c1, P c1 [CloseCalled] c1) →
  (∀ c1, P c1 (Client.run_calls c1 (Client.meanwhile a)).2
             (Client.run_calls c1 (Client.meanwhile a)).1) →
  (∀ c1, P c1 (Client.run_calls c1 (Client.asleep a)).2
             (Client.run_calls c1 (Client.asleep a)).1) →
  (∀ c1 event, P c1 (Client.self_dispatch c1 event).1.2
                 (Client.self_dispatch c1 event).1.1) →
  (∀ c1, P c1 (Client.self_close (Client.closing a) c1).1.2
             (Client.self_close (Client.closing a) c1).1.1) →
  (∀ c1, P c1 (Client.self_is_closed c1).2 c1) →
  match Client.iteration reconnect a ws_params c with
  | Client.Stop c' effs _ | Client.Again c' effs _ => P c effs c'
  end.
Proof.
  intros Hseq Hnil Hws Hfrom Hsleep Hmark Hcalls Hcalls' Hdisp Hclose Hclosed.
  set (c0 := match Client.connected a with
             | Some w => Client.with_ws (Some w) c
             | None => c
             end).
  assert (H00 : P c [] c0) by (subst c0; by destruct (Client.connected a)).
  assert (H0 : P c (FromClient ws_params
                      :: (Client.run_calls c0 (Client.meanwhile a)).2)
                 (Client.run_calls c0 (Client.meanwhile a)).1).
  { apply (Hseq c [] c0 _ _ H00).
    apply (Hseq c0 [FromClient ws_params] c0); by auto. }
  destruct (Client.caught (Client.failure a)) eqn:Hc.
  - rewrite iteration_handled by done. cbv zeta. fold c0.
    destruct (Client.run_calls c0 (Client.meanwhile a)) as [c1 e0].
    cbn [fst snd] in *.
    pose proof (Hdisp c1 "disconnect") as H1.
    destruct (Client.self_dispatch c1 "disconnect") as [[c2 e1] exc'].
    cbn [fst snd] in *.
    pose proof (Hseq _ _ _ _ _ H0 H1) as H01.
    rewrite !close_and_eq.
    assert (H2 : P c ((FromClient ws_params :: e0) ++ e1 ++
                      CloseCalled :: (Client.self_close (Client.closing a) c2).1.2)
                   (Client.self_close (Client.closing a) c2).1.1).
    { rewrite app_assoc. apply (Hseq _ _ _ _ _ H01).
      apply (Hseq c2 [CloseCalled] c2); by auto. }
    assert (H3 : P c ((FromClient ws_params :: e0) ++ e1 ++
                      Sleep (Client.retry a)
                      :: (Client.run_calls c2 (Client.asleep a)).2)
                   (Client.run_calls c2 (Client.asleep a)).1).
    { rewrite app_assoc. apply (Hseq _ _ _ _ _ H01).
      apply (Hseq c2 [Sleep (Client.retry a)] c2); by auto. }
    assert (H4 : P c (((FromClient ws_params :: e0) ++ e1)
                      ++ (Client.self_is_closed c2).2) c2)
      by (apply (Hseq _ _ _ _ _ H01); auto).
    rewrite <- ?app_assoc in *. cbn [app] in *.
    destruct exc'; [done|].
    destruct reconnect; cbn [negb]; [|done].
    destruct (Client.self_is_closed c2).1; [done|].
    destruct (Client.peer_reset _); [by destruct (Client.ws c2)|].
    destruct (_ && _); [done|].
    by destruct (Client.ws (Client.run_calls c2 (Client.asleep a)).1).
  - destruct (request_or_not (Client.failure a)) as [(op & resume & Hf)|Hf].
    + rewrite (iteration_request _ _ _ _ _ _ Hf). cbv zeta. fold c0.
      destruct (Client.run_calls c0 (Client.meanwhile a)) as [c1 e0].
      cbn [fst snd] in *.
      pose proof (Hdisp c1 "disconnect") as H1.
      destruct (Client.self_dispatch c1 "disconnect") as [[c2 e1] exc'].
      cbn [fst snd] in *.
      pose proof (Hseq _ _ _ _ _ H0 H1) as H01.
      destruct exc'; [done|]. by destruct (Client.ws c2).
    + rewrite iteration_unhandled by done. cbv zeta. fold c0. done.
Qed.


(** A turn that ends [connect] ends it by a return or an exception. *)
Lemma iteration_Stop reconnect a ws_params c c' effs ws_params' :
  Client.iteration reconnect a ws_params c
  ≠ Client.Stop c' effs (Client.Suspended ws_params').
Proof.
  destruct (Client.caught (Client.failure a)) eqn:Hc.
  - rewrite iteration_handled by done. cbv zeta. rewrite !close_and_eq.
    destruct (Client.self_dispatch _ "disconnect").2; [done|].
    destruct reconnect; cbn [negb].
    + destruct (Client.self_is_closed _).1; [done|].
      destruct (Client.peer_reset _); [by destruct (Client.ws _)|].
      destruct (_ && _).
      * by destruct (Client.self_close _ _).2.
      * by destruct (Client.ws _).
    + destruct (Client.self_close _ _).2; [done|].
      by destruct (Client.closed_with _ _).
  - destruct (request_or_not (Client.failure a)) as [(op & resume & Hf)|Hf].
    + rewrite (iteration_request _ _ _ _ _ _ Hf). cbv zeta.
      destruct (Client.self_dispatch _ "disconnect").2; [done|].
      by destruct (Client.ws _).
    + by rewrite iteration_unhandled.
Qed.

Lemma after_nil r : Client.after [] r = r.
Proof. by destruct r as [[c effs] out]. Qed.

Lemma after_after effs effs' r :
  Client.after effs (Client.after effs' r) = Client.after (effs ++ effs') r.
Proof. destruct r as [[c e] out]. simpl. by rewrite app_assoc. Qed.

Lemma connect_loop_closed reconnect script ws_params c :
  (Client.self_is_closed c).1 = true →
  Client.connect_loop reconnect script ws_params c
  = (c, (Client.self_is_closed c).2, Client.Returned).
Proof. intros H. destruct script; simpl; by rewrite H. Qed.


(** The loop on a script in two parts: the first part, and, if it ends at
    the head of the loop, the second. *)
Lemma connect_loop_app reconnect pre : ∀ rest ws_params c,
  Client.connect_loop reconnect (pre ++ rest) ws_params c
  = match Client.connect_loop reconnect pre ws_params c with
    | (c1, effs1, Client.Suspended ws_params1) =>
        Client.after effs1 (Client.connect_loop reconnect rest ws_params1 c1)
    | r => r
    end.
Proof.
  induction pre as [|a pre IH]; intros rest ws_params c.
  - simpl. destruct (Client.self_is_closed c).1 eqn:E.
    + by apply connect_loop_closed.
    + by rewrite after_nil.
  - simpl. destruct (Client.self_is_closed c).1; simpl; [done|].
    destruct (Client.iteration reconnect a ws_params c) as [c1 e1 out|c1 e1 p1]
      eqn:Hit; simpl.
    + destruct out; try done. by apply iteration_Stop in Hit.
    + rewrite IH.
      destruct (Client.connect_loop reconnect pre p1 c1) as [[c2 e2] [| |p2]];
        simpl; try done.
      by rewrite after_after.
Qed.

(** A turn that goes back to the head of the loop has not called
    [close]. *)
Lemma iteration_Again reconnect a ws_params c c' effs ws_params' :
  Client.iteration reconnect a ws_params c = Client.Again c' effs ws_params' →
  count is_CloseCalled effs = 0.
Proof.
  set (c0 := match Client.connected a with
             | Some w => Client.with_ws (Some w) c
             | None => c
             end).
  pose proof (run_calls_count is_CloseCalled (Client.meanwhile a) c0
                ltac:(done) ltac:(done) ltac:(done) ltac:(done)) as H0.
  pose proof (self_dispatch_count is_CloseCalled
                (Client.run_calls c0 (Client.meanwhile a)).1 "disconnect"
                ltac:(done) ltac:(done)) as H1.
  pose proof (run_calls_count is_CloseCalled (Client.asleep a)
                (Client.self_dispatch
                   (Client.run_calls c0 (Client.meanwhile a)).1
                   "disconnect").1.1
                ltac:(done) ltac:(done) ltac:(done) ltac:(done)) as H2.
  destruct (Client.caught (Client.failure a)) eqn:Hc.
  - rewrite iteration_handled by done. cbv zeta. fold c0.
    rewrite !close_and_eq.
    destruct (Client.self_dispatch _ "disconnect").2; [done|].
    destruct reconnect; cbn [negb]; [|done].
    destruct (Client.self_is_closed _).1; [done|].
    destruct (Client.peer_reset _).
    { destruct (Client.ws _); [|done]. intros [= <- <- <-].
      rewrite ?count_app, ?count_cons, ?count_app, ?count_cons, ?H0, ?H1. done. }
    destruct (_ && _); [done|].
    destruct (Client.ws _); [|done]. intros [= <- <- <-].
    rewrite ?count_app, ?count_cons, ?count_app, ?count_cons, ?count_app, ?H0, ?H1, ?H2. done.
  - destruct (request_or_not (Client.failure a)) as [(op & resume & Hf)|Hf].
    + rewrite (iteration_request _ _ _ _ _ _ Hf). cbv zeta. fold c0.
      destruct (Client.self_dispatch _ "disconnect").2; [done|].
      destruct (Client.ws _); [|done]. intros [= <- <- <-].
      rewrite ?count_app, ?count_cons, ?count_app, ?count_cons, ?H0, ?H1. done.
    + by rewrite iteration_unhandled.
Qed.

(** A run that stands at the head of the loop has found [is_closed()]
    false, which is the method of the class on an open client, and has not
    called [close]. *)
Lemma connect_loop_Suspended reconnect script : ∀ ws_params c c1 effs1 ws_params1,
  Client.connect_loop reconnect script ws_params c
  = (c1, effs1, Client.Suspended ws_params1) →
  Client._closed c1 = false
  ∧ Client.instance_attrs c1 !! "is_closed" = None
  ∧ count is_CloseCalled effs1 = 0.
Proof.
  induction script as [|a script IH]; intros ws_params c c1 effs1 ws_params1;
    simpl; destruct (Client.self_is_closed c).1 eqn:E; try done.
  - intros [= <- <- <-].
    by destruct (self_is_closed_false c E) as (? & ? & _).
  - destruct (Client.iteration reconnect a ws_params c) as [c2 e2 out|c2 e2 p2] eqn:Hit.
    + intros [= <- <- ->]. by apply iteration_Stop in Hit.
    + apply iteration_Again in Hit.
      destruct (Client.connect_loop reconnect script p2 c2) as [[c3 e3] out] eqn:Hl.
      simpl. intros [= <- <- ->].
      destruct (IH _ _ _ _ _ Hl) as (? & ? & ?). split_and!; [done..|].
      rewrite count_app. lia.
Qed.

Lemma connect_loop_open reconnect script ws_params c c1 effs1 ws_params1 :
  Client.connect_loop reconnect script ws_params c
  = (c1, effs1, Client.Suspended ws_params1) →
  (Client.self_is_closed c1).1 = false.
Proof.
  intros H. apply connect_loop_Suspended in H as (H1 & H2 & _).
  by rewrite self_is_closed_class.
Qed.

(** *** Clients on which the names [connect] reads are not rebound *)

Lemma unbound_lookup names c name :
  unbound names c = true → name ∈ names →
  Client.instance_attrs c !! name = None.
Proof.
  unfold unbound. rewrite forallb_forall. intros H Hin.
  apply list_elem_of_In in Hin. specialize (H _ Hin).
  by destruct (Client.instance_attrs c !! name).
Qed.

Lemma unbound_ext names c c' :
  Client.instance_attrs c' = Client.instance_attrs c →
  unbound names c' = unbound names c.
Proof. intros H. unfold unbound. by rewrite H. Qed.

Lemma close_instance_attrs c :
  Client.instance_attrs (Client.close c).1 = Client.instance_attrs c.
Proof.
  unfold Client.close. destruct (Client._closed c); [done|]. simpl.
  destruct (Client.ws c) as [w|]; [|done]. by destruct (open w).
Qed.

Lemma run_call_unbound names c k :
  binds names k = false → unbound names c = true →
  unbound names (Client.run_call c k).1 = true.
Proof.
  intros Hk Hc. destruct k as [| |ev args kwargs|coro]; simpl.
  - by rewrite (unbound_ext _ _ _ (close_instance_attrs c)).
  - done.
  - destruct (dispatch_frame c ev args kwargs) as (_ & _ & _ & H).
    by rewrite (unbound_ext _ _ _ H).
  - simpl in Hk. apply bool_decide_eq_false in Hk.
    unfold Client.event. destruct (negb _); [done|].
    destruct (Client.setattr_refuses _); [done|]. simpl.
    unfold unbound in *. rewrite forallb_forall in *. intros name Hin.
    simpl. rewrite lookup_insert_ne; [by apply Hc|].
    intros <-. by apply Hk, list_elem_of_In.
Qed.

Lemma run_calls_unbound names calls : ∀ c,
  forallb (λ k, negb (binds names k)) calls = true →
  unbound names c = true →
  unbound names (Client.run_calls c calls).1 = true.
Proof.
  induction calls as [|k calls IH]; intros c Hq Hc; [done|]. simpl in *.
  apply andb_true_iff in Hq as [Hk Hq]. apply negb_true_iff in Hk.
  pose proof (run_call_unbound names c k Hk Hc) as H1.
  destruct (Client.run_call c k) as [c1 e1]. simpl in H1.
  specialize (IH c1 Hq H1).
  by destruct (Client.run_calls c1 calls) as [c2 e2].
Qed.

Lemma session_names_close : "close" ∈ session_names.
Proof. by repeat constructor. Qed.

Lemma session_names_dispatch : "dispatch" ∈ session_names.
Proof. by repeat constructor. Qed.

Lemma session_names_is_closed : "is_closed" ∈ session_names.
Proof. by repeat constructor. Qed.

(** On such a client the three methods are those of the class. *)
Lemma unbound_class c :
  unbound session_names c = true →
  (∀ event, Client.self_dispatch c event = Client.dispatch c event [] [])
  ∧ (∀ user, Client.self_close user c
             = ((Client.close c).1, (Client.close c).2, None))
  ∧ Client.self_is_closed c = (Client.is_closed c, []).
Proof.
  intros H. split_and!.
  - intros event. apply self_dispatch_class.
    apply (unbound_lookup _ _ _ H), session_names_dispatch.
  - intros user. apply self_close_class.
    apply (unbound_lookup _ _ _ H), session_names_close.
  - apply self_is_closed_class.
    apply (unbound_lookup _ _ _ H), session_names_is_closed.
Qed.

Lemma self_dispatch_unbound names c event :
  unbound names (Client.self_dispatch c event).1.1 = unbound names c.
Proof.
  apply unbound_ext. by destruct (self_dispatch_frame c event) as (_ & _ & _ & ?).
Qed.

(** A quiet turn leaves such a client such a client. *)
Lemma iteration_unbound reconnect a ws_params c :
  quiet session_names a = true → unbound session_names c = true →
  match Client.iteration reconnect a ws_params c with
  | Client.Stop c' _ _ | Client.Again c' _ _ => unbound session_names c' = true
  end.
Proof.
  intros Hq Hc. unfold quiet in Hq. rewrite forallb_app in Hq.
  apply andb_true_iff in Hq as [Hq1 Hq2].
  assert (Hdisp : ∀ c1 event,
            unbound session_names c1 = true →
            unbound session_names (Client.self_dispatch c1 event).1.1 = true)
    by (intros c1 event; by rewrite self_dispatch_unbound).
  assert (Hclose : ∀ c1,
            unbound session_names c1 = true →
            unbound session_names
              (Client.self_close (Client.closing a) c1).1.1 = true).
  { intros c1 H. destruct (unbound_class c1 H) as (_ & -> & _).
    cbn [fst snd]. by rewrite (unbound_ext _ _ _ (close_instance_attrs c1)). }
  pose proof (iteration_parts
                (λ c1 _ c2, unbound session_names c1 = true →
                            unbound session_names c2 = true)
                reconnect a ws_params c
                (λ c1 e1 c2 e2 c3 H1 H2 H, H2 (H1 H))
                (λ c1 H, H) (λ c1 w H, H) (λ c1 p H, H) (λ c1 q H, H)
                (λ c1 H, H)
                (λ c1, run_calls_unbound _ _ c1 Hq1)
                (λ c1, run_calls_unbound _ _ c1 Hq2)
                Hdisp Hclose (λ c1 H, H)) as H.
  destruct (Client.iteration reconnect a ws_params c); by apply H.
Qed.

Lemma at_failure_unbound a c :
  quiet session_names a = true → unbound session_names c = true →
  unbound session_names (Client.at_failure a c) = true.
Proof.
  intros Hq Hc. unfold quiet in Hq. rewrite forallb_app in Hq.
  apply andb_true_iff in Hq as [Hq1 _].
  unfold Client.at_failure. apply run_calls_unbound; [done|].
  by destruct (Client.connected a).
Qed.

(** The turn in which the [try] block is left by a [ConnectionClosed],
    once [disconnect] has been dispatched without an exception. *)
Lemma iteration_closure reconnect a ws_params c code :
  Client.failure a = ConnectionClosed code →
  (Client.self_dispatch (Client.at_failure a c) "disconnect").2 = None →
  ∃ before,
    count is_CloseCalled before = 0 ∧ count is_Sleep before = 0
    ∧ let d := (Client.self_dispatch (Client.at_failure a c) "disconnect").1.1 in
      let k := Client.self_close (Client.closing a) d in
      Client._closed d = Client._closed (Client.at_failure a c)
      ∧ Client.instance_attrs d = Client.instance_attrs (Client.at_failure a c)
      ∧ let stop_closing out :=
          Client.Stop k.1.1 (before ++ CloseCalled :: k.1.2)
            (match k.2 with Some e => Client.Raised e | None => out end) in
        Client.iteration reconnect a ws_params c
        = if negb reconnect then
            stop_closing (if (code =? 1000)%Z then Client.Returned
                          else Client.Raised (ConnectionClosed code))
          else if (Client.self_is_closed d).1 then
            Client.Stop d (before ++ (Client.self_is_closed d).2)
              Client.Returned
          else if negb (code =? 1000)%Z then
            stop_closing (Client.Raised (ConnectionClosed code))
          else
            let s := Client.run_calls d (Client.asleep a) in
            let effs := before ++ Sleep (Client.retry a) :: s.2 in
            match Client.ws s.1 with
            | None => Client.Stop s.1 effs (Client.Raised AttributeError)
            | Some w =>
                Client.Again s.1 effs
                  (Client.resume_params w true
                     match Client.connected a with
                     | Some _ => <["initial" := PBool false]> ws_params
                     | None => ws_params
                     end)
            end.
Proof.
  intros Hf Hd. unfold Client.at_failure in *.
  rewrite iteration_handled by by rewrite Hf. cbv zeta.
  set (c0 := match Client.connected a with
             | Some w => Client.with_ws (Some w) c
             | None => c
             end) in *.
  set (s := Client.run_calls c0 (Client.meanwhile a)) in *.
  set (d := Client.self_dispatch s.1 "disconnect") in *.
  exists ((FromClient ws_params :: s.2) ++ d.1.2).
  split_and!.
  - rewrite count_app, count_cons. unfold s, d.
    rewrite run_calls_count, self_dispatch_count; done.
  - rewrite count_app, count_cons. unfold s, d.
    rewrite run_calls_count, self_dispatch_count; done.
  - by destruct (self_dispatch_frame s.1 "disconnect") as (_ & ? & _).
  - by destruct (self_dispatch_frame s.1 "disconnect") as (_ & _ & _ & ?).
  - rewrite Hd, !close_and_eq, Hf. simpl.
    destruct reconnect; simpl; [|done].
    destruct (Client.self_is_closed d.1.1).1; [done|].
    by destruct (code =? 1000)%Z.
Qed.

Lemma close_quiet c :
  Client._closed (Client.close c).1 = true
  ∧ count is_CloseCalled (Client.close c).2 = 0
  ∧ count is_Sleep (Client.close c).2 = 0.
Proof.
  destruct (Client._closed c) eqn:E.
  - by rewrite close_closed.
  - destruct (close_open c E) as (? & _ & _ & [->| [id ->]]); done.
Qed.

(** C2, as worded, fails: on a client on which [event] has bound a
    coroutine function named [close], the handler awaits that function in
    the place of the method; when its coroutine ends with an [OSError],
    [connect] raises it, also after a closure with code 1000. *)
Lemma closure_without_reconnect_ends_as_coded_fails :
  ¬ closure_without_reconnect_ends_as_coded.
Proof.
  intros H.
  destruct (H Examples.rebound_close Examples.rebound_close []
              (Examples.closure_failing_close 1000) []
              (<["shard_id" := PNone]> {["initial" := PBool true]}) [] 1000%Z)
    as [H1 _].
  - reflexivity.
  - reflexivity.
  - vm_compute. reflexivity.
  - vm_compute in H1. discriminate H1.
Qed.

(** C2, as amended.  With reconnection disabled, whenever [connect] stands
    at the head of its loop and the [try] block is then left by a
    [ConnectionClosed], on a client on which [event] has not rebound the
    names [connect] reads ([is_closed], [dispatch], [close], [_closed],
    [ws], [http], [_ready], [shard_id]), [connect] (having dispatched
    [disconnect]) calls [close], exactly once in the whole call and as the
    last thing it does; then it returns normally when the close code is
    1000 and raises the failure again when it is any other code.  The
    client is closed afterwards. *)
Theorem connect_without_reconnect_on_closure
    (c c1 : Client.t) (pre rest : list Client.attempt) (a : Client.attempt)
    (ws_params : gmap string pyval) (effs1 : list effect) (code : Z) :
  Client.connect false pre c = (c1, effs1, Client.Suspended ws_params) →
  Client.failure a = ConnectionClosed code →
  unbound session_names (Client.at_failure a c1) = true →
  (Client.dispatch (Client.at_failure a c1) "disconnect" [] []).2 = None →
  let r := Client.connect false (pre ++ a :: rest) c in
  r.2 = (if (code =? 1000)%Z then Client.Returned
         else Client.Raised (ConnectionClosed code))
  ∧ count is_CloseCalled r.1.2 = 1
  ∧ (∃ before,
       r.1.2 = before ++ CloseCalled ::
                 (Client.close
                    (Client.dispatch (Client.at_failure a c1)
                       "disconnect" [] []).1.1).2)
  ∧ Client.is_closed r.1.1 = true.
Proof.
  intros Hpre Hf Hu Hd r. subst r. unfold Client.connect in *.
  rewrite connect_loop_app, Hpre.
  destruct (connect_loop_Suspended _ _ _ _ _ _ _ Hpre) as (_ & _ & Hnone).
  simpl. rewrite (connect_loop_open _ _ _ _ _ _ _ Hpre).
  destruct (unbound_class _ Hu) as (Hdisp & _ & _).
  rewrite <- Hdisp in Hd.
  destruct (iteration_closure false a ws_params c1 code Hf Hd)
    as (before & Hb & _ & _ & Hattrs & ->). simpl.
  rewrite Hdisp in *.
  set (d := (Client.dispatch (Client.at_failure a c1) "disconnect" [] []).1.1)
    in *.
  assert (Hud : unbound session_names d = true)
    by by rewrite (unbound_ext _ _ _ Hattrs).
  destruct (unbound_class _ Hud) as (_ & -> & _). simpl.
  destruct (close_quiet d) as (Hcl & Hcc & _).
  split_and!; try done.
  - rewrite !count_app, count_cons, Hnone, Hb, Hcc. done.
  - exists (effs1 ++ before). by rewrite <- app_assoc.
Qed.

Lemma connect_without_reconnect_on_closure_witness :
  (Client.connect false [Examples.closure 1000] Examples.client).2
  = Client.Returned
  ∧ (Client.connect false [Examples.reconnect_request; Examples.closure 4010]
       Examples.client).2
    = Client.Raised (ConnectionClosed 4010)
  ∧ count is_CloseCalled
      (Client.connect false [Examples.reconnect_request; Examples.closure 4010]
         Examples.client).1.2 = 1.
Proof.
  split.
  - destruct (connect_without_reconnect_on_closure Examples.client
                Examples.client [] [] (Examples.closure 1000)
                (<["shard_id" := PNone]> {["initial" := PBool true]}) [] 1000)
      as (H1 & _).
    + reflexivity.
    + reflexivity.
    + reflexivity.
    + vm_compute. reflexivity.
    + exact H1.
  - destruct (connect_without_reconnect_on_closure Examples.client
                (Client.connect false [Examples.reconnect_request]
                   Examples.client).1.1
                [Examples.reconnect_request] [] (Examples.closure 4010)
                (Client.resume_params Examples.socket true
                   (<["initial" := PBool false]>
                      (<["shard_id" := PNone]> {["initial" := PBool true]})))
                (Client.connect false [Examples.reconnect_request]
                   Examples.client).1.2 4010)
      as (H1 & H2 & _).
    + vm_compute. reflexivity.
    + reflexivity.
    + vm_compute. reflexivity.
    + vm_compute. reflexivity.
    + split; [exact H1|exact H2].
Defined.

(** C3, as worded, fails: when a handler has closed the client before the
    closure with code 4010 is seen, and reconnection was requested,
    [connect] returns without calling [close] and without raising. *)
Lemma abnormal_closure_always_fatal_fails : ¬ abnormal_closure_always_fatal.
Proof.
  intros H.
  destruct (H true Examples.client Examples.client []
              (Examples.closed_meanwhile 4010) []
              (<["shard_id" := PNone]> {["initial" := PBool true]}) [] 4010%Z)
    as [H1 _].
  - reflexivity.
  - reflexivity.
  - done.
  - vm_compute. reflexivity.
  - vm_compute in H1. discriminate H1.
Qed.

(** C3, as amended.  Whenever [connect] stands at the head of its loop and
    the [try] block is then left by a [ConnectionClosed] with a code other
    than 1000, on a client on which [event] has not rebound the names
    [connect] reads ([is_closed], [dispatch], [close], [_closed], [ws],
    [http], [_ready], [shard_id]), [connect] never goes to the backoff and
    resume path: it does not sleep and does not enter the [try] block
    again, whatever the script holds next.  Unless reconnection was
    requested and the client is already closed when the failure is handled,
    it calls [close] (exactly once in the whole call) and raises the
    failure again, leaving the client closed; if reconnection was requested
    and the client is already closed, it returns normally without calling
    [close]. *)
Theorem connect_abnormal_closure_never_retried
    (reconnect : bool) (c c1 : Client.t) (pre rest : list Client.attempt)
    (a : Client.attempt) (ws_params : gmap string pyval)
    (effs1 : list effect) (code : Z) :
  Client.connect reconnect pre c = (c1, effs1, Client.Suspended ws_params) →
  Client.failure a = ConnectionClosed code → code ≠ 1000%Z →
  unbound session_names (Client.at_failure a c1) = true →
  (Client.dispatch (Client.at_failure a c1) "disconnect" [] []).2 = None →
  let r := Client.connect reconnect (pre ++ a :: rest) c in
  (reconnect = false ∨ Client.is_closed (Client.at_failure a c1) = false →
   r.2 = Client.Raised (ConnectionClosed code)
   ∧ count is_CloseCalled r.1.2 = 1
   ∧ Client.is_closed r.1.1 = true)
  ∧ (reconnect = true → Client.is_closed (Client.at_failure a c1) = true →
     r.2 = Client.Returned ∧ count is_CloseCalled r.1.2 = 0)
  ∧ (∃ last, r.1.2 = effs1 ++ last ∧ count is_Sleep last = 0)
  ∧ (∀ rest', Client.connect reconnect (pre ++ a :: rest') c = r).
Proof.
  intros Hpre Hf Hcode Hu Hd r.
  assert (Hne : (code =? 1000)%Z = false) by by apply Z.eqb_neq.
  destruct (connect_loop_Suspended _ _ _ _ _ _ _ Hpre) as (_ & _ & Hnone).
  pose proof (connect_loop_open _ _ _ _ _ _ _ Hpre) as Hopen.
  destruct (unbound_class _ Hu) as (Hdisp & _ & _).
  rewrite <- Hdisp in Hd.
  destruct (iteration_closure reconnect a ws_params c1 code Hf Hd)
    as (before & Hb & Hs & Hcl & Hattrs & Hit). simpl in Hit.
  rewrite Hdisp in *.
  set (d := (Client.dispatch (Client.at_failure a c1) "disconnect" [] []).1.1)
    in *.
  assert (Hud : unbound session_names d = true)
    by by rewrite (unbound_ext _ _ _ Hattrs).
  destruct (unbound_class _ Hud) as (_ & Hclose & Hclosed).
  rewrite Hclose, Hclosed in Hit. simpl in Hit.
  destruct (close_quiet d) as (Hc1 & Hc2 & Hc3).
  rewrite Hne in Hit. simpl in Hit.
  assert (Hr : ∀ rest', Client.connect reconnect (pre ++ a :: rest') c
     = if negb reconnect
       then ((Client.close d).1, effs1 ++ before ++ CloseCalled :: (Client.close d).2,
             Client.Raised (ConnectionClosed code))
       else if Client._closed d then (d, effs1 ++ before, Client.Returned)
       else ((Client.close d).1, effs1 ++ before ++ CloseCalled :: (Client.close d).2,
             Client.Raised (ConnectionClosed code))).
  { intros rest'. unfold Client.connect in *. rewrite connect_loop_app, Hpre.
    simpl. rewrite Hopen, Hit. unfold Client.is_closed.
    destruct reconnect; simpl; [|done].
    destruct (Client._closed d); [|done]. simpl. by rewrite app_nil_r. }
  subst r. unfold Client.is_closed. rewrite <- Hcl.
  split_and!.
  - intros Hcase. rewrite Hr.
    destruct reconnect; simpl.
    + destruct Hcase as [|Hcase]; [done|]. rewrite Hcase. simpl.
      rewrite !count_app, count_cons, Hnone, Hb, Hc2. done.
    + rewrite !count_app, count_cons, Hnone, Hb, Hc2. done.
  - intros -> Hclosed'. rewrite Hr. simpl. rewrite Hclosed'. simpl.
    rewrite count_app, Hnone, Hb. done.
  - rewrite Hr. destruct reconnect; simpl.
    + destruct (Client._closed d); simpl.
      * by exists before.
      * exists (before ++ CloseCalled :: (Client.close d).2).
        split; [done|]. by rewrite count_app, count_cons, Hs, Hc3.
    + exists (before ++ CloseCalled :: (Client.close d).2).
      split; [done|]. by rewrite count_app, count_cons, Hs, Hc3.
  - intros rest'. by rewrite !Hr.
Qed.

Lemma connect_abnormal_closure_never_retried_witness :
  (Client.connect true [Examples.closure 4010; Examples.closure 4010]
     Examples.client).2
  = Client.Raised (ConnectionClosed 4010)
  ∧ count is_CloseCalled
      (Client.connect true [Examples.closure 4010; Examples.closure 4010]
         Examples.client).1.2 = 1.
Proof.
  destruct (connect_abnormal_closure_never_retried true Examples.client
              Examples.client [] [Examples.closure 4010]
              (Examples.closure 4010)
              (<["shard_id" := PNone]> {["initial" := PBool true]}) [] 4010)
    as (H1 & _).
  - reflexivity.
  - reflexivity.
  - done.
  - reflexivity.
  - vm_compute. reflexivity.
  - destruct H1 as (H1 & H2 & _).
    + right. vm_compute. reflexivity.
    + split; [exact H1|exact H2].
Defined.




(** ** The construction of the state manager and of the client *)

(** [ConnectionState.__init__], statement by statement. *)
Lemma new_unfold upper members dispatch handlers hooks http loop
    (options : gmap string pyval) :
  ConnectionState.new upper members dispatch handlers hooks http loop options
  = let max_messages := default (PInt 1000) (options !! "max_messages") in
    match (if ConnectionState.is_None max_messages then Ok false
           else ConnectionState.le_int max_messages 0) with
    | Raise e =>
        (<["max_messages" := max_messages]>
           (<["http" := http]> (<["loop" := loop]> ∅)), Raise e)
    | Ok b =>
        let at_check :=
          state_at_check dispatch handlers hooks http loop
            (if b then PInt 1000 else max_messages) options in
        match ConnectionState.lt_int
                (default (PFloat 2) (options !! "guild_ready_timeout")) 0 with
        | Raise e => (at_check, Raise e)
        | Ok true =>
            (at_check, Raise (ValueError "guild_ready_timeout cannot be negative"))
        | Ok false => (state_constructed upper members at_check, Ok tt)
        end
    end.
Proof.
  unfold ConnectionState.new, ConnectionState.__init__.
  unfold mbind, ConnectionState.Init_bind, ConnectionState.setattr,
    ConnectionState.getattr, ConnectionState.lift, ConnectionState.when,
    ConnectionState.raise, mret, ConnectionState.Init_ret, ConnectionState.clear.
  rewrite lookup_insert_eq. simpl.
  destruct (ConnectionState.is_None _).
  - rewrite lookup_insert_eq.
    destruct (ConnectionState.lt_int _ 0) as [[]|]; done.
  - destruct (ConnectionState.le_int _ 0) as [[]|]; [| |done].
    + rewrite lookup_insert_eq, insert_insert_eq.
      destruct (ConnectionState.lt_int _ 0) as [[]|]; done.
    + rewrite lookup_insert_eq.
      destruct (ConnectionState.lt_int _ 0) as [[]|]; done.
Qed.

Lemma state_at_check_lookup dispatch handlers hooks http loop max_messages
    (options : gmap string pyval) :
  let self := state_at_check dispatch handlers hooks http loop max_messages options in
  self !! "max_messages" = Some max_messages
  ∧ self !! "guild_ready_timeout"
    = Some (default (PFloat 2) (options !! "guild_ready_timeout"))
  ∧ self !! "_chunk_requests" = None ∧ self !! "parsers" = None
  ∧ self !! "guilds" = None ∧ self !! "users" = None
  ∧ self !! "messages" = None.
Proof. unfold state_at_check. by simplify_map_eq. Qed.

Lemma state_constructed_lookup upper members (at_check : gmap string pyval) name :
  name ∉ ["_chunk_requests"; "messages"; "users"; "guilds"; "parsers"] →
  state_constructed upper members at_check !! name = at_check !! name.
Proof.
  intros H. unfold state_constructed.
  rewrite !lookup_insert_ne; [done|..]; intros <-; apply H;
    repeat first [by apply list_elem_of_here | apply list_elem_of_further].
Qed.






(** The value of [max_messages] on the instance, whether [__init__]
    returns or raises after it has assigned that attribute. *)
Lemma new_max_messages upper members dispatch handlers hooks http loop
    (options : gmap string pyval) :
  let v := default (PInt 1000) (options !! "max_messages") in
  (ConnectionState.new upper members dispatch handlers hooks http loop options).1
    !! "max_messages"
  = Some (if ConnectionState.is_None v then v
          else match ConnectionState.le_int v 0 with
               | Ok true => PInt 1000
               | _ => v
               end).
Proof.
  intros v. rewrite new_unfold. fold v. simpl.
  assert (Hend : ∀ (b : bool) (at_check : gmap string pyval),
    at_check = state_at_check dispatch handlers hooks http loop
                 (if b then PInt 1000 else v) options →
    (match ConnectionState.lt_int
             (default (PFloat 2) (options !! "guild_ready_timeout")) 0 with
     | Ok true =>
         (at_check, Raise (ValueError "guild_ready_timeout cannot be negative"))
     | Ok false => (state_constructed upper members at_check, Ok tt)
     | Raise e => (at_check, Raise e)
     end).1 !! "max_messages" = Some (if b then PInt 1000 else v)).
  { intros b at_check ->.
    pose proof (state_at_check_lookup dispatch handlers hooks http loop
                  (if b then PInt 1000 else v) options) as (Hm & _).
    destruct (ConnectionState.lt_int _ 0) as [[]|]; simpl; [done| |done].
    rewrite state_constructed_lookup; [done|].
    intros H. repeat (apply elem_of_cons in H as [H|H]; [done|]).
    by apply elem_of_nil in H. }
  destruct (ConnectionState.is_None v).
  - by apply (Hend false).
  - destruct (ConnectionState.le_int v 0) as [b|e]; simpl.
    + rewrite (Hend b _ eq_refl). by destruct b.
    + by rewrite lookup_insert_eq.
Qed.

(** C9.  A non-positive integer given as [max_messages] is replaced by
    1000; without the option the cap is 1000; and whenever [max_messages]
    is an integer on the instance, it is positive. *)
Theorem max_messages_normalised
    (upper : string → string) (members : list (string * pyval))
    (dispatch handlers hooks http loop : pyval)
    (options : gmap string pyval) :
  let self :=
    (ConnectionState.new upper members dispatch handlers hooks http loop options).1 in
  (∀ z, options !! "max_messages" = Some (PInt z) → (z ≤ 0)%Z →
        self !! "max_messages" = Some (PInt 1000))
  ∧ (options !! "max_messages" = None →
     self !! "max_messages" = Some (PInt 1000))
  ∧ (∀ n, self !! "max_messages" = Some (PInt n) → (0 < n)%Z).
Proof.
  intros self. subst self. rewrite new_max_messages.
  split_and!.
  - intros z -> Hz. simpl. unfold ConnectionState.le_int. simpl.
    rewrite Zle_Qle in Hz.
    apply (proj2 (Qle_bool_iff _ _)) in Hz. by rewrite Hz.
  - by intros ->.
  - intros n. set (v := default (PInt 1000) (options !! "max_messages")).
    destruct (ConnectionState.is_None v) eqn:Hn.
    { intros [= Hv]. by rewrite Hv in Hn. }
    destruct (ConnectionState.le_int v 0) as [[]|e] eqn:Hle; intros [= Hv].
    + by subst n.
    + rewrite Hv in Hle. unfold ConnectionState.le_int in Hle. simpl in Hle.
      injection Hle as Hle. apply Z.lt_nge. intros Hz.
      rewrite Zle_Qle in Hz.
      apply (proj2 (Qle_bool_iff _ _)) in Hz. congruence.
    + by rewrite Hv in Hle.
Qed.

Lemma max_messages_normalised_witness :
  (ConnectionState.new ConnectionState.ascii_upper [] PNone PNone PNone PNone PNone
     {["max_messages" := PInt 0]}).1 !! "max_messages" = Some (PInt 1000)
  ∧ (ConnectionState.new ConnectionState.ascii_upper [] PNone PNone PNone PNone PNone
       {["max_messages" := PInt (-7)]}).1 !! "max_messages" = Some (PInt 1000)
  ∧ (ConnectionState.new ConnectionState.ascii_upper [] PNone PNone PNone PNone PNone ∅).1
      !! "max_messages" = Some (PInt 1000).
Proof.
  split_and!.
  - destruct (max_messages_normalised ConnectionState.ascii_upper [] PNone PNone PNone PNone PNone
                {["max_messages" := PInt 0]}) as (H1 & _).
    by apply (H1 0%Z).
  - destruct (max_messages_normalised ConnectionState.ascii_upper [] PNone PNone PNone PNone PNone
                {["max_messages" := PInt (-7)]}) as (H1 & _).
    by apply (H1 (-7)%Z).
  - destruct (max_messages_normalised ConnectionState.ascii_upper [] PNone PNone PNone PNone PNone ∅)
      as (_ & H2 & _).
    by apply H2.
Defined.

(** C7.  When the construction of the client succeeds, [token] is the text
    of the [app_id] option, a dot, and the text of the [token] option, with
    [None] for an option that was not given. *)
Theorem client_token_two_parts
    (str_object : pyval → string) (upper : string → string)
    (state_members : list (string * pyval))
    (options : gmap string pyval) (c : Client.t) :
  Client.__init__ str_object upper state_members options = Ok c →
  Client.token c
  = (match options !! "app_id" with
     | Some v => Client.str str_object v
     | None => "None"
     end)
    +:+ "." +:+
    (match options !! "token" with
     | Some v => Client.str str_object v
     | None => "None"
     end).
Proof.
  unfold Client.__init__.
  destruct (Client._get_state _ _) as [state [[]|e]]; [|done].
  intros [= <-]. simpl. rewrite lookup_delete_ne by done.
  by destruct (options !! "app_id"), (options !! "token").
Qed.

Lemma client_token_two_parts_witness :
  Client.token Examples.client = "102030.secret"
  ∧ ∃ c, Client.__init__ Examples.no_text ConnectionState.ascii_upper []
           {["app_id" := PInt 102030]} = Ok c
         ∧ Client.token c = "102030.None".
Proof.
  split.
  - rewrite (client_token_two_parts Examples.no_text
               ConnectionState.ascii_upper [] Examples.options
               Examples.client client_constructed).
    reflexivity.
  - destruct (Client.__init__ Examples.no_text ConnectionState.ascii_upper []
                {["app_id" := PInt 102030]})
      as [c|e] eqn:E; [|vm_compute in E; discriminate E].
    exists c. split; [done|].
    rewrite (client_token_two_parts Examples.no_text
               ConnectionState.ascii_upper []
               {["app_id" := PInt 102030]} c E).
    reflexivity.
Defined.

(** ** The chunk request *)

Lemma arrived_cons s steps :
  ChunkRequest.arrived (s :: steps) = added s ++ ChunkRequest.arrived steps.
Proof. unfold ChunkRequest.arrived. by destruct s. Qed.

(** [done] resolves with the buffer the futures among the waiters that are
    not done, touches no other, and does not raise. *)
Lemma done_loop_spec b waiters : ∀ fs,
  ∃ fs', ChunkRequest.done_loop b waiters fs = Ok fs'
    ∧ ∀ g, Future.fstate_of fs' g
           = if bool_decide (g ∈ waiters) && negb (Future.done fs g)
             then Finished b else Future.fstate_of fs g.
Proof.
  induction waiters as [|f rest IH]; intros fs.
  { exists fs. split; [done|]. intros g. by rewrite bool_decide_eq_false_2
      by (by intros ?%elem_of_nil). }
  simpl. destruct (Future.done fs f) eqn:Hd; simpl.
  - destruct (IH fs) as (fs' & -> & H). exists fs'. split; [done|].
    intros g. rewrite H. destruct (decide (g = f)) as [->|Hne].
    + rewrite Hd. by rewrite !andb_false_r.
    + destruct (decide (g ∈ rest)).
      * by rewrite !bool_decide_eq_true_2 by (try apply elem_of_cons; auto).
      * rewrite !bool_decide_eq_false_2; [done|..]; [|done].
        by intros [?|?]%elem_of_cons.
  - unfold Future.set_result. rewrite Hd.
    destruct (IH (<[f := Finished b]> fs)) as (fs' & -> & H).
    exists fs'. split; [done|]. intros g. rewrite H.
    unfold Future.done at 1. rewrite !fstate_of_insert.
    destruct (decide (f = g)) as [->|Hne].
    + rewrite andb_false_r. rewrite Hd.
      by rewrite bool_decide_eq_true_2 by (apply elem_of_cons; auto).
    + fold (Future.done fs g). destruct (decide (g ∈ rest)).
      * by rewrite !bool_decide_eq_true_2 by (try apply elem_of_cons; auto).
      * rewrite !bool_decide_eq_false_2; [done|..]; [|done].
        intros [?|?]%elem_of_cons; congruence.
Qed.

Lemma done_spec r h :
  ∃ h', ChunkRequest.done r h = Ok h'
    ∧ ChunkRequest.lists h' = ChunkRequest.lists h
    ∧ ∀ g, Future.fstate_of (ChunkRequest.futs h') g
           = if bool_decide (g ∈ ChunkRequest.waiters r)
                && negb (Future.done (ChunkRequest.futs h) g)
             then Finished (ChunkRequest.buffer r)
             else Future.fstate_of (ChunkRequest.futs h) g.
Proof.
  unfold ChunkRequest.done.
  destruct (done_loop_spec (ChunkRequest.buffer r) (ChunkRequest.waiters r)
              (ChunkRequest.futs h)) as (fs' & -> & H).
  by eexists.
Qed.

(** Adding members to the cache of a guild leaves the lists and the futures
    alone. *)
Lemma cache_members_heap g members : ∀ h,
  ChunkRequest.lists (foldl (ChunkRequest.cache_member g) h members)
  = ChunkRequest.lists h
  ∧ ChunkRequest.futs (foldl (ChunkRequest.cache_member g) h members)
    = ChunkRequest.futs h.
Proof.
  induction members as [|m ms IH]; intros h; [done|]. simpl.
  destruct (IH (ChunkRequest.cache_member g h m)) as [-> ->].
  unfold ChunkRequest.cache_member. by case_bool_decide.
Qed.

Lemma add_members_heap r members h :
  ChunkRequest.lists (ChunkRequest.add_members r members h)
  = alter (λ b, b ++ members) (ChunkRequest.buffer r) (ChunkRequest.lists h)
  ∧ ChunkRequest.futs (ChunkRequest.add_members r members h)
    = ChunkRequest.futs h.
Proof.
  unfold ChunkRequest.add_members.
  destruct (ChunkRequest.cache r); [|done].
  destruct (ChunkRequest.resolver r _) as [g|]; [|done].
  by destruct (cache_members_heap g members
                 (ChunkRequest.with_lists
                    (alter (λ b, b ++ members) (ChunkRequest.buffer r)
                       (ChunkRequest.lists h)) h)) as [-> ->].
Qed.

Lemma elem_of_remove_first x f l :
  x ∈ ChunkRequest.remove_first f l → x ∈ l.
Proof.
  induction l as [|y l IH]; simpl; [done|].
  destruct (decide (f = y)); [by apply list_elem_of_further|].
  intros [->|H]%elem_of_cons; [by apply list_elem_of_here|].
  apply list_elem_of_further. by apply IH.
Qed.

Lemma settled_in_cons s steps :
  ChunkRequest.settled_in (s :: steps)
  = ChunkRequest.settled_by s ++ ChunkRequest.settled_in steps.
Proof. done. Qed.

(** Each step keeps the request and its heap as they should be, and adds
    what arrived to the buffer. *)
Lemma run_step_inv b content settled s st :
  chunk_inv b content settled st →
  chunk_inv b (content ++ added s) (settled ++ ChunkRequest.settled_by s)
    (ChunkRequest.run_step s st).
Proof.
  destruct st as [r h]. intros (Hb & Hl & Hw). simpl in *.
  assert (Hnew : chunk_inv b (content ++ []) (settled ++ [])
    (ChunkRequest.with_waiters
       (ChunkRequest.waiters r ++ [fresh (dom (ChunkRequest.futs h))]) r,
     ChunkRequest.with_futs
       (<[fresh (dom (ChunkRequest.futs h)):=Pending]> (ChunkRequest.futs h))
       h)).
  { rewrite !app_nil_r.
    split_and!; simpl; try done.
    intros g Hg Hs. rewrite fstate_of_insert. case_decide; [by left|].
    apply elem_of_app in Hg as [Hg|Hg%list_elem_of_singleton]; [by apply Hw|].
    congruence. }
  assert (Hset : ∀ f (fs : gmap future (fstate nat)) x,
            (fs = ChunkRequest.futs h ∨ fs = <[f := x]> (ChunkRequest.futs h)) →
            chunk_inv b (content ++ []) (settled ++ [f])
              (r, ChunkRequest.with_futs fs h)).
  { intros f fs x Hfs. rewrite app_nil_r. split_and!; simpl; try done.
    intros g Hg Hs. rewrite not_elem_of_app, list_elem_of_singleton in Hs.
    destruct Hs as [Hs Hne].
    destruct Hfs as [->| ->]; [by apply Hw|].
    rewrite fstate_of_insert. case_decide; [congruence|]. by apply Hw. }
  destruct s as [ms| | |f|f v|f e|f|]; simpl.
  - destruct (add_members_heap r ms h) as [H1 H2].
    rewrite app_nil_r. split_and!; simpl; try done.
    + rewrite H1, Hb, lookup_alter_eq, Hl. done.
    + intros g Hg Hs. rewrite H2. by apply Hw.
  - exact Hnew.
  - exact Hnew.
  - apply (Hset f _ Cancelled). unfold Future.cancel.
    destruct (Future.done _ f); [by left|by right].
  - unfold Future.set_result. destruct (Future.done _ f).
    + apply (Hset f _ Pending). left. by destruct h.
    + apply (Hset f _ (Finished v)). by right.
  - unfold Future.set_exception. destruct (Future.done _ f).
    + apply (Hset f _ Pending). left. by destruct h.
    + destruct (is_StopIteration e).
      * apply (Hset f _ Pending). left. by destruct h.
      * apply (Hset f _ (Failed e)). by right.
  - rewrite !app_nil_r. destruct (Future.done (ChunkRequest.futs h) f); [|done].
    split_and!; simpl; try done.
    intros g Hg%elem_of_remove_first. by apply Hw.
  - rewrite !app_nil_r. destruct (done_spec r h) as (h' & -> & Hl' & Hf).
    split_and!; simpl; try done.
    + by rewrite Hl'.
    + intros g Hg Hs. rewrite Hf. destruct (_ && _); [|by apply Hw].
      right. by rewrite Hb.
Qed.

Lemma run_inv b steps : ∀ content settled st,
  chunk_inv b content settled st →
  chunk_inv b (content ++ ChunkRequest.arrived steps)
    (settled ++ ChunkRequest.settled_in steps) (ChunkRequest.run steps st).
Proof.
  induction steps as [|s steps IH]; intros content settled st H.
  - by rewrite !app_nil_r.
  - rewrite arrived_cons, settled_in_cons, !app_assoc. simpl. apply IH.
    by apply run_step_inv.
Qed.

Lemma init_inv guild_id resolver cache nonce h0 :
  let st := ChunkRequest.__init__ guild_id resolver cache nonce h0 in
  chunk_inv (ChunkRequest.buffer st.1) [] [] st.
Proof.
  unfold ChunkRequest.__init__, chunk_inv. simpl.
  split_and!; [done|by rewrite lookup_insert_eq|].
  by intros f ?%elem_of_nil.
Qed.

(** C5, as worded, fails: a caller that took its future with [get_future]
    and cancelled it is among the waiters when [done] is called, and [done]
    passes it by. *)
Lemma every_waiter_receives_buffer_fails : ¬ every_waiter_receives_buffer.
Proof.
  intros H.
  pose (steps := [ChunkRequest.Get_future; ChunkRequest.Cancel 0]).
  destruct (done_spec (ChunkRequest.run steps Examples.request).1
              (ChunkRequest.run steps Examples.request).2) as (h' & Hd & _ & Hf).
  destruct (H 42%Z (λ _, None) true "00" Examples.empty_heap steps h' Hd 0)
    as [H1 _].
  - vm_compute. apply elem_of_cons. by left.
  - rewrite Hf in H1. vm_compute in H1. discriminate H1.
Qed.

(** C5, as amended.  Whatever happened to a chunk request since its
    creation (members added, callers registered through [get_future] or
    [wait], futures cancelled or settled by the callers that hold them,
    suspended [wait] calls resumed, [done] already called), a call of
    [done] returns.  Afterwards every future among the waiters that was
    still pending holds the reference to the buffer of the request, and so
    does every future among the waiters that no caller has cancelled or
    settled: one and the same list.  A future that was done already keeps
    what it held.  The buffer holds all the members that arrived, in
    order, so a member added before a waiter registered is in the list that
    waiter receives. *)
Theorem chunk_waiters_share_buffer
    (guild_id : Z) (resolver : Z → option nat) (cache : bool) (nonce : string)
    (h0 : ChunkRequest.heap) (steps : list ChunkRequest.step) :
  let st := ChunkRequest.run steps
              (ChunkRequest.__init__ guild_id resolver cache nonce h0) in
  ∃ h', ChunkRequest.done st.1 st.2 = Ok h'
    ∧ ChunkRequest.lists h' !! ChunkRequest.buffer st.1
      = Some (ChunkRequest.arrived steps)
    ∧ (∀ f, f ∈ ChunkRequest.waiters st.1 →
            Future.done (ChunkRequest.futs st.2) f = false
            ∨ f ∉ ChunkRequest.settled_in steps →
            Future.fstate_of (ChunkRequest.futs h') f
            = Finished (ChunkRequest.buffer st.1))
    ∧ (∀ f, Future.done (ChunkRequest.futs st.2) f = true →
            Future.fstate_of (ChunkRequest.futs h') f
            = Future.fstate_of (ChunkRequest.futs st.2) f)
    ∧ (∀ before after members m,
         steps = before ++ ChunkRequest.Add_members members :: after →
         m ∈ members → m ∈ ChunkRequest.arrived steps).
Proof.
  intros st.
  pose proof (run_inv _ steps _ _ _ (init_inv guild_id resolver cache nonce h0))
    as (Hb & Hl & Hw).
  rewrite app_nil_l in Hl. rewrite app_nil_l in Hw.
  change (ChunkRequest.run steps
            (ChunkRequest.__init__ guild_id resolver cache nonce h0))
    with st in Hb, Hl, Hw.
  set (b := ChunkRequest.buffer
              (ChunkRequest.__init__ guild_id resolver cache nonce h0).1) in *.
  destruct (done_spec st.1 st.2) as (h' & Hd & Hl' & Hf).
  exists h'. split_and!.
  - done.
  - by rewrite Hl', Hb.
  - intros f Hin Hc. rewrite Hf, bool_decide_eq_true_2 by done. simpl.
    destruct (Future.done (ChunkRequest.futs st.2) f) eqn:Hdone; simpl; [|done].
    destruct Hc as [Hc|Hc]; [done|].
    rewrite Hb. unfold Future.done in Hdone.
    by destruct (Hw f Hin Hc) as [Hp| ->]; [rewrite Hp in Hdone|].
  - intros f Hdone. by rewrite Hf, Hdone, andb_false_r.
  - intros before after members m -> Hm.
    unfold ChunkRequest.arrived. rewrite omap_app. simpl.
    rewrite concat_app. simpl.
    apply elem_of_app. right. apply elem_of_app. by left.
Qed.

Lemma chunk_waiters_share_buffer_witness :
  let steps := [ChunkRequest.Add_members [Examples.alice];
                ChunkRequest.Get_future; ChunkRequest.Wait;
                ChunkRequest.Add_members [Examples.bob];
                ChunkRequest.Get_future;
                ChunkRequest.Set_exception 0 (ValueError "given up")] in
  let st := ChunkRequest.run steps Examples.request in
  ∃ h', ChunkRequest.done st.1 st.2 = Ok h'
    ∧ ChunkRequest.lists h' !! ChunkRequest.buffer st.1
      = Some [Examples.alice; Examples.bob]
    ∧ Future.fstate_of (ChunkRequest.futs h') 0 = Failed (ValueError "given up")
    ∧ Future.fstate_of (ChunkRequest.futs h') 1 = Finished (ChunkRequest.buffer st.1)
    ∧ Future.fstate_of (ChunkRequest.futs h') 2 = Finished (ChunkRequest.buffer st.1).
Proof.
  intros steps st.
  destruct (chunk_waiters_share_buffer 42%Z (λ _, None) true "00"
              Examples.empty_heap steps) as (h' & H1 & H2 & H3 & H4 & _).
  exists h'. split; [exact H1|]. split; [exact H2|].
  split; [exact (H4 0 eq_refl)|].
  split; apply H3; try (left; reflexivity); vm_compute;
    repeat first [by apply list_elem_of_here | apply list_elem_of_further].
Defined.

(** ** [dispatch] returns on well registered waiters *)




(** With [max_messages] a string, the comparison of line 83 raises before
    the timeout is looked at. *)
Lemma negative_timeout_after_max_messages :
  (ConnectionState.new ConnectionState.ascii_upper [] PNone PNone PNone PNone PNone
     (<["max_messages" := PStr "many"]>
        {["guild_ready_timeout" := PInt (-1)]})).2 = Raise TypeError.
Proof. vm_compute. reflexivity. Qed.

(** * Further properties *)

(** ** [event] and [dispatch] together *)




(** X2.  Registering a second coroutine function under a name replaces the
    first: the client is the one the second registration alone gives. *)
Theorem last_registration_wins (c : Client.t) (first second : function) :
  iscoroutinefunction first = true → iscoroutinefunction second = true →
  __name__ first = __name__ second →
  __name__ second ∉ Client.class_properties →
  Client.event (Client.event c first).1 second = Client.event c second.
Proof.
  intros H1 H2 Hn Hp.
  destruct (Client.setattr_refuses (__name__ second)) as [e|] eqn:He.
  - rewrite (event_refused c first e H1) by (by rewrite Hn). done.
  - rewrite (event_bound c first H1) by (by rewrite Hn).
    rewrite !event_bound by done. simpl.
    unfold Client.with_instance_attrs. simpl.
    by rewrite Hn, insert_insert_eq.
Qed.

Lemma last_registration_wins_witness :
  let other := {| __name__ := "on_message"; fn_id := 99;
                  iscoroutinefunction := true |} in
  Client.instance_attrs
    (Client.event (Client.event Examples.client other).1 Examples.on_message).1
    !! "on_message" = Some Examples.on_message.
Proof.
  intros other.
  rewrite (last_registration_wins Examples.client other Examples.on_message);
    try done.
  - vm_compute. intros H.
    repeat (apply elem_of_cons in H as [H|H]; [done|]).
    by apply elem_of_nil in H.
Defined.

(** ** Exceptions that leave [dispatch] *)

(** The loop over the waiters is left only by [InvalidStateError], by the
    [TypeError] of a [StopIteration] that a predicate raised, or by what a
    predicate raised outside [Exception]. *)
Lemma scan_Some args listeners : ∀ fs removed fs' removed' e,
  Client.scan args listeners fs removed = (fs', removed', Some e) →
  e = InvalidStateError
  ∨ (e = TypeError ∧ ∃ i w, (i, w) ∈ listeners ∧ w.2 args = Raise StopIteration)
  ∨ (is_Exception e = false ∧ ∃ i w, (i, w) ∈ listeners ∧ w.2 args = Raise e).
Proof.
  induction listeners as [|[i [f cond]] rest IH]; intros fs removed fs' removed' e H;
    [done|].
  assert (Hrest : ∀ fs1 removed1,
    Client.scan args rest fs1 removed1 = (fs', removed', Some e) →
    e = InvalidStateError
    ∨ (e = TypeError
       ∧ ∃ j w, (j, w) ∈ (i, (f, cond)) :: rest ∧ w.2 args = Raise StopIteration)
    ∨ (is_Exception e = false
       ∧ ∃ j w, (j, w) ∈ (i, (f, cond)) :: rest ∧ w.2 args = Raise e)).
  { intros fs1 removed1
      [->|[(He & j & w & Hin & Hw)|(He & j & w & Hin & Hw)]]%IH; [by left| |].
    - right. left. split; [done|]. exists j, w.
      split; [by apply list_elem_of_further|done].
    - right. right. split; [done|]. exists j, w.
      split; [by apply list_elem_of_further|done]. }
  simpl in H. destruct (Future.cancelled fs f); [by eapply Hrest|].
  destruct (cond args) as [v|exc] eqn:Hcond.
  - destruct (truthy v); [|by eapply Hrest].
    unfold Future.set_result in H.
    destruct (Future.done fs f); [left; congruence|by eapply Hrest].
  - destruct (is_Exception exc) eqn:He.
    + unfold Future.set_exception in H.
      destruct (Future.done fs f); [left; congruence|].
      destruct (is_StopIteration exc) eqn:Hsi; [|by eapply Hrest].
      right. left. injection H as <- <- <-. split; [done|].
      exists i, (f, cond). split; [by apply list_elem_of_here|].
      by destruct exc.
    + right. right. injection H as <- <- <-. split; [done|].
      exists i, (f, cond). split; [by apply list_elem_of_here|done].
Qed.

Lemma dispatch_Some
    (c c' : Client.t) (event : string) (args : list pyval)
    (kwargs : list (string * pyval)) (effs : list effect) (e : exn) :
  Client.dispatch c event args kwargs = (c', effs, Some e) →
  effs = []
  ∧ Client._listeners c' = Client._listeners c
  ∧ Client.instance_attrs c' = Client.instance_attrs c
  ∧ ((e = AttributeError ∧ is_Some (Client.instance_attrs c !! "_listeners"))
     ∨ e = InvalidStateError
     ∨ (e = TypeError
        ∧ ∃ w, w ∈ waiters_of c event ∧ w.2 args = Raise StopIteration)
     ∨ (is_Exception e = false
        ∧ ∃ w, w ∈ waiters_of c event ∧ w.2 args = Raise e)).
Proof.
  unfold Client.dispatch.
  destruct (Client.instance_attrs c !! "_listeners") as [f|] eqn:Hl.
  { intros [= <- <- <-]. split_and!; try done. left. split; [done|by eexists]. }
  destruct (Client.resolve_listeners c event args) as [c1 exc] eqn:Hr.
  destruct exc as [e1|].
  2:{ destruct (Client.getattr c1 _); [|done].
      by destruct (Client.instance_attrs c1 !! "_schedule_event"). }
  intros [= <- <- <-]. split; [done|].
  unfold Client.resolve_listeners, waiters_of in *.
  destruct (Client._listeners c !! event) as [[|w0 rest]|] eqn:E; try done.
  set (ls := w0 :: rest) in *. simpl.
  destruct (Client.scan args (Client.enumerate ls) (Client.futures c) [])
    as [[fs removed] exc] eqn:Hscan.
  destruct exc as [e2|].
  - injection Hr as <- <-. split; [done|]. split; [done|]. right.
    apply scan_Some in Hscan
      as [->|[(He & i & w & Hin & Hw)|(He & i & w & Hin & Hw)]]; [by left| |].
    + right. left. split; [done|]. exists w. split; [|done].
      apply elem_of_enumerate in Hin. by eapply list_elem_of_lookup_2.
    + right. right. split; [done|]. exists w. split; [|done].
      apply elem_of_enumerate in Hin. by eapply list_elem_of_lookup_2.
  - apply scan_None in Hscan as (_ & _ & H3 & _). rewrite app_nil_l in H3.
    destruct (decide _); [done|].
    assert (Hdel : Client.del_each
                     (reverse (gone args (Client.futures c) (Client.enumerate ls))) ls
                   = Ok (filter (λ w, stays args (Client.futures c) w) ls))
      by exact (del_each_gone args (Client.futures c) ls []).
    rewrite <- H3 in Hdel. by rewrite Hdel in Hr.
Qed.







(** ** [_run_event]: the failures of a handler *)

Lemma getattr_on_error c :
  Client.getattr c "on_error"
  = Some (match Client.instance_attrs c !! "on_error" with
          | Some f => UserFunction f
          | None => BoundMethod "on_error"
          end).
Proof.
  unfold Client.getattr. by destruct (Client.instance_attrs c !! "on_error").
Qed.

Lemma is_CancelledError_true e :
  Client.is_CancelledError e = true ↔ e = CancelledError.
Proof. by destruct e. Qed.

Lemma is_CancelledError_false e :
  Client.is_CancelledError e = false ↔ e ≠ CancelledError.
Proof. by destruct e. Qed.

(** X5.  The coroutine [_run_event] ends with an exception in two cases
    only: the handler raised outside [Exception] something other than a
    cancellation, which it passes on; or the handler raised within
    [Exception] and [on_error] (the function registered under that name, or
    else the method of the class) in turn raised something other than a
    cancellation.  It never ends with a cancellation, it awaits [on_error]
    at most once, with the name of the event and the arguments of the
    handler, and only after a failure of the handler within [Exception];
    when [on_error] returns, no failure of the handler within [Exception]
    is left. *)
Theorem run_event_isolates_failures
    (c : Client.t) (outcome : Client.awaited → option exn) (coro : callable)
    (event_name : string) (args : list pyval)
    (kwargs : list (string * pyval)) :
  let r := Client._run_event c outcome coro event_name args kwargs in
  let handler := Client.Await_handler coro args kwargs in
  let on_error :=
    Client.Await_on_error
      (match Client.instance_attrs c !! "on_error" with
       | Some f => UserFunction f
       | None => BoundMethod "on_error"
       end) event_name args kwargs in
  (∀ e, r.2 = Some e ↔
        e ≠ CancelledError
        ∧ ((outcome handler = Some e ∧ is_Exception e = false)
           ∨ (∃ e', outcome handler = Some e' ∧ is_Exception e' = true
                    ∧ outcome on_error = Some e)))
  ∧ (r.1 = [handler; on_error] ↔
     ∃ e', outcome handler = Some e' ∧ is_Exception e' = true)
  ∧ (r.1 = [handler] ∨ r.1 = [handler; on_error]).
Proof.
  intros r handler on_error. subst r. unfold Client._run_event.
  rewrite getattr_on_error. fold handler. fold on_error.
  destruct (outcome handler) as [e1|] eqn:H1.
  2:{ split_and!; [|split; [done|by intros (? & ? & _)]|by left].
      intros e. split; [done|]. by intros (_ & [[? _]|(? & ? & _)]). }
  destruct (Client.is_CancelledError e1) eqn:Hc1.
  { apply is_CancelledError_true in Hc1 as ->.
    split_and!; [|split; [done|by intros (? & [= <-] & ?)]|by left].
    intros e. split; [done|].
    intros (Hne & [[[= <-] _]|(? & [= <-] & ? & _)]); done. }
  apply is_CancelledError_false in Hc1.
  destruct (is_Exception e1) eqn:He1.
  - destruct (outcome on_error) as [e2|] eqn:H2;
      [destruct (Client.is_CancelledError e2) eqn:Hc2|]; simpl;
      (split_and!; [|split; [intros _; by exists e1|done]|by right]);
      intros e.
    + apply is_CancelledError_true in Hc2 as ->. split; [done|].
      intros (Hne & [[[= <-] ?]|(? & _ & _ & [= <-])]); congruence.
    + apply is_CancelledError_false in Hc2. split.
      * intros [= <-]. split; [done|]. right. by exists e1.
      * intros (_ & [[[= <-] ?]|(? & _ & _ & [= <-])]); congruence.
    + split; [done|].
      intros (_ & [[[= <-] ?]|(? & _ & _ & ?)]); congruence.
  - split_and!; [|split; [done|intros (? & [= <-] & ?); congruence]|by left].
    intros e. simpl. split.
    + intros [= <-]. split; [done|]. by left.
    + intros (_ & [[[= <-] ?]|(? & [= <-] & ? & _)]); congruence.
Qed.

Lemma run_event_isolates_failures_witness :
  let outcome : Client.awaited → option exn :=
    λ a, match a with
         | Client.Await_handler _ _ _ => Some (UserException "KeyError")
         | Client.Await_on_error _ _ _ _ => None
         end in
  let r := Client._run_event Examples.client outcome
             (UserFunction Examples.on_message) "on_message" [PStr "hello"] [] in
  r.2 = None
  ∧ r.1 = [Client.Await_handler (UserFunction Examples.on_message) [PStr "hello"] [];
           Client.Await_on_error (BoundMethod "on_error") "on_message"
             [PStr "hello"] []].
Proof.
  intros outcome r.
  destruct (run_event_isolates_failures Examples.client outcome
              (UserFunction Examples.on_message) "on_message" [PStr "hello"] [])
    as (H1 & H2 & _).
  fold r in H1, H2. split.
  - destruct (r.2) as [e|] eqn:E; [|done].
    destruct (proj1 (H1 e) eq_refl) as (_ & [[[= <-] ?]|(? & _ & _ & ?)]); done.
  - apply H2. by eexists.
Defined.

(** ** How [connect] ends *)

Lemma caught_is_Exception e : Client.caught e = true → is_Exception e = true.
Proof. by destruct e. Qed.

(** An exception that leaves [dispatch] is of none of the classes the
    handler of [connect] catches. *)
Lemma dispatch_raises_uncaught c event args kwargs c' effs e :
  Client.dispatch c event args kwargs = (c', effs, Some e) →
  Client.caught e = false.
Proof.
  intros H.
  apply dispatch_Some in H as (_ & _ & _ & [[-> _]|[->|[[-> _]|[He _]]]]);
    try done.
  destruct (Client.caught e) eqn:E; [|done].
  apply caught_is_Exception in E. congruence.
Qed.

Lemma close_is_closed c : Client._closed (Client.close c).1 = true.
Proof.
  destruct (Client._closed c) eqn:E.
  - by rewrite close_closed.
  - by destruct (close_open c E) as (? & _).
Qed.

Lemma closed_with_false e code :
  Client.closed_with e code = false → e ≠ ConnectionClosed code.
Proof. intros H ->. simpl in H. by rewrite Z.eqb_refl in H. Qed.

Lemma caught_false e code : Client.caught e = false → e ≠ ConnectionClosed code.
Proof. by intros H ->. Qed.

(** The turn that ends [connect], on a client on which the names
    [connect] reads are not rebound when the failure is handled. *)
Lemma iteration_ends reconnect a ws_params c c' effs out :
  unbound session_names (Client.at_failure a c) = true →
  Client.iteration reconnect a ws_params c = Client.Stop c' effs out →
  match out with
  | Client.Returned => Client._closed c' = true
  | Client.Raised e =>
      e ≠ ConnectionClosed 1000
      ∧ (Client.caught e = true →
         Client._closed c' = true ∧ count is_CloseCalled effs = 1
         ∧ e = Client.failure a
         ∧ (reconnect = true → Client.is_ConnectionClosed e = true))
  | Client.Suspended _ => False
  end.
Proof.
  intros Hu. unfold Client.at_failure in Hu.
  destruct (unbound_class _ Hu) as (Hdisp & _ & _).
  destruct (Client.caught (Client.failure a)) eqn:Hcaught.
  2:{ destruct (request_or_not (Client.failure a)) as [(op & resume & Hf)|Hf].
      - rewrite (iteration_request _ _ _ _ _ _ Hf). cbv zeta. rewrite Hdisp.
        pose proof (dispatch_raises_uncaught
                      (Client.run_calls
                         match Client.connected a with
                         | Some w => Client.with_ws (Some w) c
                         | None => c
                         end (Client.meanwhile a)).1 "disconnect" [] []) as Hd.
        destruct (Client.dispatch _ "disconnect" [] []) as [[c2 e1] [e|]]; simpl.
        + intros [= <- <- <-]. specialize (Hd _ _ _ eq_refl).
          split; [by apply caught_false|]. by rewrite Hd.
        + destruct (Client.ws c2); [done|]. intros [= <- <- <-]. by split.
      - rewrite iteration_unhandled by done. simpl.
        intros [= <- <- <-]. split; [by apply caught_false|]. by rewrite Hcaught. }
  rewrite iteration_handled by done. cbv zeta. rewrite Hdisp.
  set (s := Client.run_calls _ (Client.meanwhile a)) in *.
  pose proof (run_calls_count is_CloseCalled (Client.meanwhile a)
    (match Client.connected a with
     | Some w => Client.with_ws (Some w) c
     | None => c
     end) ltac:(done) ltac:(done) ltac:(done) ltac:(done)) as H0.
  fold s in H0.
  pose proof (dispatch_count is_CloseCalled s.1 "disconnect" [] []
                ltac:(done) ltac:(done)) as H1.
  pose proof (dispatch_raises_uncaught s.1 "disconnect" [] []) as Hd.
  assert (Hud : unbound session_names
                  (Client.dispatch s.1 "disconnect" [] []).1.1 = true).
  { destruct (dispatch_frame s.1 "disconnect" [] []) as (_ & _ & _ & H).
    by rewrite (unbound_ext _ _ _ H). }
  destruct (Client.dispatch s.1 "disconnect" [] []) as [[c2 e1] exc'].
  cbn [fst snd] in *.
  destruct (unbound_class _ Hud) as (_ & Hclose & Hclosed).
  rewrite !close_and_eq, Hclose, Hclosed. cbn [fst snd].
  pose proof (close_is_closed c2) as Hc.
  pose proof (close_count is_CloseCalled c2 ltac:(done) ltac:(done)) as Hn.
  destruct (Client.close c2) as [c3 closing]. cbn [fst snd] in *.
  assert (Hcount : count is_CloseCalled
                     ((FromClient ws_params :: s.2) ++ e1 ++ CloseCalled :: closing)
                   = 1).
  { rewrite !count_app, !count_cons, H0, H1, Hn. done. }
  rewrite <- !app_assoc.
  destruct exc' as [e|].
  { intros [= <- <- <-]. specialize (Hd _ _ _ eq_refl).
    split; [by apply caught_false|]. by rewrite Hd. }
  unfold Client.is_closed.
  destruct reconnect; cbn [negb].
  - destruct (Client._closed c2) eqn:E2; [by intros [= <- <- <-]|].
    destruct (Client.peer_reset _).
    { destruct (Client.ws c2); [done|]. intros [= <- <- <-]. by split. }
    destruct (Client.is_ConnectionClosed (Client.failure a)) eqn:Hcc; simpl.
    + destruct (Client.closed_with _ _) eqn:Hcw; simpl.
      * destruct (Client.ws _); [done|]. intros [= <- <- <-]. by split.
      * intros [= <- <- <-]. split; [by apply closed_with_false|]. done.
    + destruct (Client.ws _); [done|]. intros [= <- <- <-]. by split.
  - destruct (Client.closed_with _ _) eqn:Hcw; intros [= <- <- <-]; [done|].
    split; [by apply closed_with_false|]. done.
Qed.

(** How the loop ends, by induction on the turns. *)
Lemma connect_loop_ends reconnect script : ∀ ws_params c c' effs out,
  unbound session_names c = true →
  forallb (quiet session_names) script = true →
  Client.connect_loop reconnect script ws_params c = (c', effs, out) →
  match out with
  | Client.Returned => Client._closed c' = true
  | Client.Raised e =>
      e ≠ ConnectionClosed 1000
      ∧ (Client.caught e = true →
         Client._closed c' = true ∧ count is_CloseCalled effs = 1
         ∧ (reconnect = true → Client.is_ConnectionClosed e = true))
  | Client.Suspended _ => Client._closed c' = false
  end.
Proof.
  induction script as [|a script IH]; intros ws_params c c' effs out Hu Hq;
    simpl; destruct (unbound_class _ Hu) as (_ & _ & ->); cbn [fst snd];
    unfold Client.is_closed; destruct (Client._closed c) eqn:E;
    try by intros [= <- <- <-].
  simpl in Hq. apply andb_true_iff in Hq as [Hqa Hq].
  pose proof (iteration_unbound reconnect a ws_params c Hqa Hu) as Hu1.
  pose proof (at_failure_unbound a c Hqa Hu) as Huf.
  destruct (Client.iteration reconnect a ws_params c) as [c1 e1 out1|c1 e1 p1]
    eqn:Hit.
  - intros [= <- <- <-]. apply iteration_ends in Hit; [|done].
    destruct out1 as [|e|p]; [done| |done].
    destruct Hit as [? Hit]. split; [done|]. intros Hc.
    by destruct (Hit Hc) as (? & ? & _ & ?).
  - apply iteration_Again in Hit.
    destruct (Client.connect_loop reconnect script p1 c1) as [[c2 e2] out2] eqn:Hl.
    simpl. intros [= <- <- <-]. apply IH in Hl; [|done..].
    destruct out2 as [|e|p]; [done| |done].
    destruct Hl as [? Hl]. split; [done|]. intros Hc.
    destruct (Hl Hc) as (? & ? & ?). rewrite count_app. split_and!; [done|lia|done].
Qed.



(** X7.  On a client on which [event] has not rebound, and does not rebind
    while [connect] runs, the names [connect] reads ([is_closed],
    [dispatch], [close], [_closed], [ws], [http], [_ready], [shard_id]),
    what [connect] raises is never a clean closure ([ConnectionClosed] with
    code 1000); and when reconnection is requested, the only failure of
    the classes its handler catches ([OSError], [HTTPException],
    [GatewayNotFound], [ConnectionClosed], [aiohttp.ClientError],
    [asyncio.TimeoutError]) that it raises is a [ConnectionClosed], with a
    code other than 1000. *)
Theorem connect_raises_no_transient_failure
    (reconnect : bool) (script : list Client.attempt) (c c' : Client.t)
    (effs : list effect) (e : exn) :
  unbound session_names c = true →
  forallb (quiet session_names) script = true →
  Client.connect reconnect script c = (c', effs, Client.Raised e) →
  e ≠ ConnectionClosed 1000
  ∧ (reconnect = true → Client.caught e = true →
     ∃ code, e = ConnectionClosed code ∧ code ≠ 1000%Z).
Proof.
  intros Hu Hq H. unfold Client.connect in H.
  apply connect_loop_ends in H as [Hne H]; [|done..]. split; [done|].
  intros Hr Hc. destruct (H Hc) as (_ & _ & Hcc). specialize (Hcc Hr).
  destruct e; try done. exists code. split; [done|]. by intros ->.
Qed.

Lemma connect_raises_no_transient_failure_witness :
  ∃ code, ConnectionClosed 4010 = ConnectionClosed code ∧ code ≠ 1000%Z.
Proof.
  exact (proj2 (connect_raises_no_transient_failure true
                  [Examples.reconnect_request; Examples.closure 4010]
                  Examples.client
                  (Client.connect true
                     [Examples.reconnect_request; Examples.closure 4010]
                     Examples.client).1.1
                  (Client.connect true
                     [Examples.reconnect_request; Examples.closure 4010]
                     Examples.client).1.2
                  (ConnectionClosed 4010) eq_refl eq_refl
                  ltac:(by vm_compute))
           eq_refl eq_refl).
Defined.

(** ** [connect] without reconnection *)

Lemma iteration_gives_up a ws_params c :
  Client.caught (Client.failure a) = true →
  ∃ c' effs out, Client.iteration false a ws_params c = Client.Stop c' effs out.
Proof.
  intros H. rewrite iteration_handled by done. cbv zeta.
  rewrite close_and_eq.
  destruct (Client.self_dispatch _ "disconnect").2; simpl; eauto.
Qed.

Lemma iteration_never_sleeps a ws_params c :
  match Client.iteration false a ws_params c with
  | Client.Stop _ effs _ | Client.Again _ effs _ => count is_Sleep effs = 0
  end.
Proof.
  set (c0 := match Client.connected a with
             | Some w => Client.with_ws (Some w) c
             | None => c
             end).
  pose proof (run_calls_count is_Sleep (Client.meanwhile a) c0
                ltac:(done) ltac:(done) ltac:(done) ltac:(done)) as H0.
  pose proof (self_dispatch_count is_Sleep
                (Client.run_calls c0 (Client.meanwhile a)).1 "disconnect"
                ltac:(done) ltac:(done)) as H1.
  destruct (Client.caught (Client.failure a)) eqn:Hc.
  - rewrite iteration_handled by done. cbv zeta. fold c0.
    rewrite close_and_eq.
    destruct (Client.self_dispatch _ "disconnect") as [[c2 e1] exc'].
    cbn [fst snd] in *.
    pose proof (self_close_count is_Sleep (Client.closing a) c2
                  ltac:(done) ltac:(done) ltac:(done) ltac:(done)) as H2.
    destruct exc'; cbn [negb];
      rewrite ?count_app, ?count_cons, ?count_app, ?count_cons, ?H0, ?H1, ?H2;
      done.
  - destruct (request_or_not (Client.failure a)) as [(op & resume & Hf)|Hf].
    + rewrite (iteration_request _ _ _ _ _ _ Hf). cbv zeta. fold c0.
      destruct (Client.self_dispatch _ "disconnect") as [[c2 e1] exc'].
      cbn [fst snd] in *.
      destruct exc'; [|destruct (Client.ws c2)];
        rewrite ?count_app, ?count_cons, ?count_app, ?H0, ?H1; done.
    + rewrite iteration_unhandled by done. cbv zeta. fold c0. simpl.
      by rewrite count_cons, H0.
Qed.

Lemma connect_loop_never_sleeps script : ∀ ws_params c,
  count is_Sleep (Client.connect_loop false script ws_params c).1.2 = 0.
Proof.
  induction script as [|a script IH]; intros ws_params c; simpl;
    destruct (Client.self_is_closed c).1; try done;
    try by apply self_is_closed_count.
  pose proof (iteration_never_sleeps a ws_params c) as H.
  destruct (Client.iteration false a ws_params c) as [c1 e1 out|c1 e1 p1];
    [done|].
  specialize (IH p1 c1).
  destruct (Client.connect_loop false script p1 c1) as [[c2 e2] out].
  simpl in *. rewrite count_app. lia.
Qed.

(** X8.  Without reconnection [connect] never waits for a retry, and the
    first failure of one of the classes its handler catches ends it: it
    returns or raises then, and the attempts that would follow are not
    made. *)
Theorem connect_without_reconnect_gives_up
    (pre rest : list Client.attempt) (a : Client.attempt) (c : Client.t) :
  Client.caught (Client.failure a) = true →
  let r := Client.connect false (pre ++ a :: rest) c in
  r = Client.connect false (pre ++ [a]) c
  ∧ (∀ ws_params, r.2 ≠ Client.Suspended ws_params)
  ∧ count is_Sleep r.1.2 = 0.
Proof.
  intros Hc r. subst r. unfold Client.connect.
  split_and!; [| |apply connect_loop_never_sleeps].
  - rewrite !connect_loop_app.
    destruct (Client.connect_loop false pre _ c) as [[c1 e1] [|e|p1]]; try done.
    f_equal. simpl. destruct (Client.self_is_closed c1).1; [done|].
    by destruct (iteration_gives_up a p1 c1 Hc) as (c2 & e2 & out & ->).
  - intros p. rewrite connect_loop_app.
    destruct (Client.connect_loop false pre _ c) as [[c1 e1] [|e|p1]]; try done.
    simpl. destruct (Client.self_is_closed c1).1; [done|].
    destruct (iteration_gives_up a p1 c1 Hc) as (c2 & e2 & out & Hit).
    rewrite Hit. simpl. intros ->. by apply iteration_Stop in Hit.
Qed.

Lemma connect_without_reconnect_gives_up_witness :
  let r := Client.connect false
             [Examples.reconnect_request; Examples.closure 1000;
              Examples.closure 4010] Examples.client in
  r = Client.connect false [Examples.reconnect_request; Examples.closure 1000]
        Examples.client
  ∧ (∀ ws_params, r.2 ≠ Client.Suspended ws_params)
  ∧ count is_Sleep r.1.2 = 0.
Proof.
  exact (connect_without_reconnect_gives_up [Examples.reconnect_request]
           [Examples.closure 4010] (Examples.closure 1000) Examples.client
           eq_refl).
Defined.

(** ** The handshakes of [connect] *)

Lemma handshakes_app effs effs' :
  handshakes (effs ++ effs') = handshakes effs ++ handshakes effs'.
Proof. apply omap_app. Qed.

Lemma handshakes_nil effs : count is_FromClient effs = 0 → handshakes effs = [].
Proof.
  induction effs as [|e effs IH]; [done|]. rewrite count_cons.
  destruct e; simpl; try done; intros H; apply IH; lia.
Qed.

Lemma run_calls_handshakes c calls :
  handshakes (Client.run_calls c calls).2 = [].
Proof. apply handshakes_nil. by apply run_calls_count. Qed.

Lemma self_dispatch_handshakes c event :
  handshakes (Client.self_dispatch c event).1.2 = [].
Proof. apply handshakes_nil. by apply self_dispatch_count. Qed.

Lemma self_close_handshakes user c :
  handshakes (Client.self_close user c).1.2 = [].
Proof. apply handshakes_nil. by apply self_close_count. Qed.

Lemma self_is_closed_handshakes c :
  handshakes (Client.self_is_closed c).2 = [].
Proof. apply handshakes_nil. by apply self_is_closed_count. Qed.

(** The other tasks do not bind a socket. *)
Lemma run_calls_ws_None calls : ∀ c,
  Client.ws c = None → Client.ws (Client.run_calls c calls).1 = None.
Proof.
  induction calls as [|k calls IH]; intros c H; simpl; [done|].
  assert (Hk : Client.ws (Client.run_call c k).1 = None).
  { destruct k; simpl; try done.
    - unfold Client.close. destruct (Client._closed c); [done|]. simpl.
      by rewrite H.
    - by destruct (dispatch_frame c event args kwargs) as (-> & _).
    - unfold Client.event. destruct (negb _); [done|]. by destruct (Client.setattr_refuses _). }
  destruct (Client.run_call c k) as [c1 effs1]. specialize (IH c1 Hk).
  by destruct (Client.run_calls c1 calls) as [c2 effs2].
Qed.

Lemma resume_params_resumed w resume ws_params shard :
  ws_params !! "initial" = Some (PBool false) →
  ws_params !! "shard_id" = Some shard →
  resumed shard (Client.resume_params w resume ws_params).
Proof.
  intros H1 H2. unfold resumed, Client.resume_params.
  split_and!; by simplify_map_eq.
Qed.

(** A turn makes one handshake, with the [ws_params] it starts from; the
    [ws_params] for the next turn are those of a resumed session as soon as
    a socket was ever bound. *)
Lemma iteration_handshake reconnect a ws_params c shard :
  Client.ws c = None ∨ ws_params !! "initial" = Some (PBool false) →
  ws_params !! "shard_id" = Some shard →
  match Client.iteration reconnect a ws_params c with
  | Client.Stop _ effs _ => handshakes effs = [ws_params]
  | Client.Again _ effs ws_params' =>
      handshakes effs = [ws_params] ∧ resumed shard ws_params'
  end.
Proof.
  intros Hinit Hshard.
  set (c0 := match Client.connected a with
             | Some w => Client.with_ws (Some w) c
             | None => c
             end).
  set (p0 := match Client.connected a with
             | Some _ => <["initial" := PBool false]> ws_params
             | None => ws_params
             end).
  assert (Hs0 : p0 !! "shard_id" = Some shard).
  { subst p0. destruct (Client.connected a); by simplify_map_eq. }
  assert (Hp0 : Client.ws c0 = None ∨ p0 !! "initial" = Some (PBool false)).
  { subst p0 c0. destruct (Client.connected a); [|done]. right. by simplify_map_eq. }
  pose proof (run_calls_handshakes c0 (Client.meanwhile a)) as H0.
  pose proof (self_dispatch_handshakes
                (Client.run_calls c0 (Client.meanwhile a)).1 "disconnect")
    as H1.
  assert (Hd : Client.ws (Client.self_dispatch
                  (Client.run_calls c0 (Client.meanwhile a)).1 "disconnect").1.1
               = None ∨ p0 !! "initial" = Some (PBool false)).
  { destruct Hp0 as [Hp0|Hp0]; [left|by right].
    destruct (self_dispatch_frame (Client.run_calls c0 (Client.meanwhile a)).1
                "disconnect") as (-> & _).
    by apply run_calls_ws_None. }
  destruct (Client.run_calls c0 (Client.meanwhile a)) as [c1 e0] eqn:Hrun.
  simpl in H0, H1, Hd.
  assert (Hbefore : ∀ e1, handshakes e1 = [] →
            handshakes ((FromClient ws_params :: e0) ++ e1) = [ws_params]).
  { intros e1 He1. rewrite handshakes_app, He1, app_nil_r.
    change (ws_params :: handshakes e0 = [ws_params]). by rewrite H0. }
  assert (Hafter : ∀ e1 e e2, handshakes e1 = [] → handshakes [e] = [] →
            handshakes e2 = [] →
            handshakes (((FromClient ws_params :: e0) ++ e1) ++ e :: e2)
            = [ws_params]).
  { intros e1 e e2 He1 He He2. rewrite handshakes_app, (Hbefore _ He1).
    change (e :: e2) with ([e] ++ e2). by rewrite handshakes_app, He, He2. }
  destruct (Client.caught (Client.failure a)) eqn:Hc.
  - rewrite iteration_handled by done. cbv zeta. fold c0 p0. rewrite Hrun.
    rewrite !close_and_eq.
    destruct (Client.self_dispatch _ "disconnect") as [[c2 e1] exc'].
    cbn [fst snd] in *.
    pose proof (self_close_handshakes (Client.closing a) c2) as H2.
    pose proof (run_calls_handshakes c2 (Client.asleep a)) as H3.
    assert (Hz : Client.ws (Client.run_calls c2 (Client.asleep a)).1 = None
                 ∨ p0 !! "initial" = Some (PBool false)).
    { destruct Hd as [Hd|Hd]; [left|by right]. by apply run_calls_ws_None. }
    destruct exc'; [by apply Hbefore|].
    destruct reconnect; cbn [negb].
    2:{ by apply Hafter. }
    destruct (Client.self_is_closed c2).1.
    { by rewrite handshakes_app, Hbefore, self_is_closed_handshakes. }
    destruct (Client.peer_reset _).
    { destruct (Client.ws c2) as [w|]; [|by apply Hbefore].
      split; [by apply Hbefore|].
      apply resume_params_resumed; by simplify_map_eq. }
    destruct (_ && _); [by apply Hafter|].
    destruct (Client.ws (Client.run_calls c2 (Client.asleep a)).1) as [w|] eqn:Hw;
      [|by apply Hafter].
    split; [by apply Hafter|]. apply resume_params_resumed; [|done].
    by destruct Hz as [Hz|Hz].
  - destruct (request_or_not (Client.failure a)) as [(op & resume & Hf)|Hf].
    + rewrite (iteration_request _ _ _ _ _ _ Hf). cbv zeta. fold c0 p0.
      rewrite Hrun.
      destruct (Client.self_dispatch _ "disconnect") as [[c2 e1] exc'].
      cbn [fst snd] in *.
      destruct exc'; [by apply Hbefore|].
      destruct (Client.ws c2) as [w|] eqn:Hw; [|by apply Hbefore].
      split; [by apply Hbefore|]. apply resume_params_resumed; [|done].
      by destruct Hd as [Hd|Hd].
    + rewrite iteration_unhandled by done. cbv zeta. fold c0. rewrite Hrun.
      cbn [fst snd]. change (ws_params :: handshakes e0 = [ws_params]).
      by rewrite H0.
Qed.

Lemma connect_loop_handshakes reconnect script : ∀ ws_params c shard,
  Client.ws c = None ∨ ws_params !! "initial" = Some (PBool false) →
  ws_params !! "shard_id" = Some shard →
  let hs := handshakes (Client.connect_loop reconnect script ws_params c).1.2 in
  hs = [] ∨ ∃ rest, hs = ws_params :: rest ∧ Forall (resumed shard) rest.
Proof.
  induction script as [|a script IH]; intros ws_params c shard Hinit Hshard;
    simpl; destruct (Client.self_is_closed c).1; simpl;
    rewrite ?self_is_closed_handshakes; try by left.
  pose proof (iteration_handshake reconnect a ws_params c shard Hinit Hshard) as H.
  destruct (Client.iteration reconnect a ws_params c) as [c1 e1 out|c1 e1 p1].
  { right. exists []. by split. }
  destruct H as [H Hres].
  specialize (IH p1 c1 shard (or_intror (proj1 Hres)) (proj1 (proj2 Hres))).
  destruct (Client.connect_loop reconnect script p1 c1) as [[c2 e2] out].
  simpl in *. rewrite handshakes_app, H. right.
  destruct IH as [->|(rest & -> & Hrest)].
  - exists []. by split.
  - exists (p1 :: rest). split; [done|]. by constructor.
Qed.

(** X9.  On a client that has no socket yet, as [__init__] leaves it, only
    the first call of [QQWebSocket.from_client] made by [connect] is an
    initial one, with [initial=True] and the shard of the client and
    nothing else; every later call has [initial=False], the same shard, and
    a sequence number, a resume flag and a session. *)
Theorem connect_resumes_after_first_handshake
    (reconnect : bool) (script : list Client.attempt) (c : Client.t) :
  Client.ws c = None →
  let hs := handshakes (Client.connect reconnect script c).1.2 in
  hs = []
  ∨ ∃ rest,
      hs = (<["shard_id" := Client.shard_id c]> {["initial" := PBool true]}) :: rest
      ∧ Forall (resumed (Client.shard_id c)) rest.
Proof.
  intros H. apply connect_loop_handshakes; [by left|by simplify_map_eq].
Qed.

Lemma connect_resumes_after_first_handshake_witness :
  let hs := handshakes
              (Client.connect true
                 [Examples.reconnect_request; Examples.closure 1000;
                  Examples.closure 4010] Examples.client).1.2 in
  length hs = 3
  ∧ (hs = []
     ∨ ∃ rest,
         hs = (<["shard_id" := PNone]> {["initial" := PBool true]}) :: rest
         ∧ Forall (resumed PNone) rest).
Proof.
  split; [by vm_compute|].
  exact (connect_resumes_after_first_handshake true
           [Examples.reconnect_request; Examples.closure 1000;
            Examples.closure 4010] Examples.client eq_refl).
Defined.

(** X10.  A retry needs a socket.  On a client on which [event] has not
    rebound the names [connect] reads ([is_closed], [dispatch], [close],
    [_closed], [ws], [http], [_ready], [shard_id]), neither before the
    call nor when the failure is handled: when the first attempt of a
    client that has no socket fails before [QQWebSocket.from_client] has
    returned one (a timeout of the handshake, say), with a failure after
    which [connect] would go round its loop, [connect] does not make a
    second attempt: reading [self.ws.sequence] for the next handshake
    raises [AttributeError], which leaves [connect], whatever would
    follow. *)
Theorem connect_retry_needs_socket
    (reconnect : bool) (a : Client.attempt) (rest : list Client.attempt)
    (c : Client.t) :
  unbound session_names c = true →
  unbound session_names (Client.at_failure a c) = true →
  Client.is_closed c = false → Client.ws c = None →
  Client.connected a = None →
  retried reconnect (Client.failure a) = true →
  Client.is_closed (Client.at_failure a c) = false →
  (Client.dispatch (Client.at_failure a c) "disconnect" [] []).2 = None →
  let r := Client.connect reconnect (a :: rest) c in
  r.2 = Client.Raised AttributeError ∧ length (handshakes r.1.2) = 1.
Proof.
  intros Hu Hu' Hopen Hws Hconn Hretry Hopen' Hdisp. unfold Client.connect.
  simpl. destruct (unbound_class _ Hu) as (_ & _ & ->). cbn [fst snd].
  rewrite Hopen.
  pose proof (iteration_handshake reconnect a
                (<["shard_id" := Client.shard_id c]> {["initial" := PBool true]})
                c (Client.shard_id c) (or_introl Hws) ltac:(by simplify_map_eq))
    as Hhs.
  assert (Hit : ∃ c' effs,
            Client.iteration reconnect a
              (<["shard_id" := Client.shard_id c]> {["initial" := PBool true]}) c
            = Client.Stop c' effs (Client.Raised AttributeError)).
  { unfold Client.at_failure, Client.is_closed in *. rewrite Hconn in *.
    destruct (unbound_class _ Hu') as (Hsd & _ & _).
    pose proof (run_calls_ws_None (Client.meanwhile a) c Hws) as Hws1.
    destruct (dispatch_frame (Client.run_calls c (Client.meanwhile a)).1
                "disconnect" [] []) as (Hws2 & Hcl2 & _ & Hattrs).
    rewrite Hws1 in Hws2. rewrite Hopen' in Hcl2.
    assert (Hud : unbound session_names
                    (Client.dispatch (Client.run_calls c (Client.meanwhile a)).1
                       "disconnect" [] []).1.1 = true)
      by by rewrite (unbound_ext _ _ _ Hattrs).
    destruct (unbound_class _ Hud) as (_ & _ & Hic).
    destruct (Client.caught (Client.failure a)) eqn:Hc.
    - rewrite iteration_handled by done. cbv zeta.
      rewrite Hconn, Hsd, Hdisp, Hic. cbn [fst snd].
      unfold Client.is_closed. rewrite Hcl2.
      assert (reconnect = true ∧
              Client.is_ConnectionClosed (Client.failure a)
              && negb (Client.closed_with (Client.failure a) 1000) = false)
        as [-> ->].
      { unfold retried in Hretry. rewrite Hc in Hretry.
        destruct (Client.failure a); try done;
          destruct reconnect; try done; simpl in *;
          by destruct (_ =? _)%Z. }
      simpl. destruct (Client.peer_reset _); [rewrite Hws2; eauto|].
      rewrite (run_calls_ws_None (Client.asleep a) _ Hws2). eauto.
    - destruct (request_or_not (Client.failure a)) as [(op & resume & Hf)|Hf].
      + rewrite (iteration_request _ _ _ _ _ _ Hf). cbv zeta.
        rewrite Hconn, Hsd, Hdisp, Hws2. eauto.
      + unfold retried in Hretry. rewrite Hc, andb_false_r in Hretry.
        destruct (Client.failure a); try done. by destruct (Hf op resume). }
  destruct Hit as (c' & effs & Hit). rewrite Hit in *. simpl.
  by rewrite Hhs.
Qed.

Lemma connect_retry_needs_socket_witness :
  let r := Client.connect true
             [Scenarios.handshake_timeout; Examples.closure 1000]
             Examples.client in
  r.2 = Client.Raised AttributeError ∧ length (handshakes r.1.2) = 1.
Proof.
  exact (connect_retry_needs_socket true Scenarios.handshake_timeout
           [Examples.closure 1000] Examples.client
           eq_refl eq_refl eq_refl eq_refl eq_refl eq_refl eq_refl
           ltac:(by vm_compute)).
Defined.

(** ** [start] and the runner of [run] *)










Section StartFacts.
Variable strip : string → string.
Variable static_login : string → result pyval.
Variable ClientUser : gmap string pyval → pyval → result pyval.
Variable awaiting : function → list Client.call * option exn.






End StartFacts.



(** ** [clear] *)


(** ** The member cache fed by [ChunkRequest.add_members] *)

Lemma cache_member_lookup g h m id :
  members_of (ChunkRequest.cache_member g h m) g !! id
  = if decide (id = ChunkRequest.member_id m) then
      match members_of h g !! id with
      | Some m0 =>
          match ChunkRequest.joined_at m0 with
          | Some _ => Some m0
          | None => Some m
          end
      | None => Some m
      end
    else members_of h g !! id.
Proof.
  unfold ChunkRequest.cache_member, members_of, ChunkRequest.get_member,
    ChunkRequest._add_member.
  set (guild := default ∅ (ChunkRequest.guilds h !! g)).
  case_bool_decide as Hd; simpl.
  - rewrite lookup_insert_eq. simpl. case_decide as Hid.
    + subst id. rewrite lookup_insert_eq.
      destruct (guild !! ChunkRequest.member_id m) as [m0|]; [|done].
      destruct Hd as [Hd|Hd]; [done|]. simpl in Hd. by rewrite Hd.
    + by rewrite lookup_insert_ne.
  - fold guild. case_decide as Hid; [|done]. subst id.
    destruct (guild !! ChunkRequest.member_id m) as [m0|]; [|by destruct Hd; left].
    destruct (ChunkRequest.joined_at m0) eqn:E; [done|]. destruct Hd. by right.
Qed.

Lemma cache_member_other g h m g' :
  g' ≠ g →
  ChunkRequest.guilds (ChunkRequest.cache_member g h m) !! g'
  = ChunkRequest.guilds h !! g'.
Proof.
  intros Hne. unfold ChunkRequest.cache_member. case_bool_decide; [|done].
  simpl. by rewrite lookup_insert_ne.
Qed.

(** The entry of an identifier after a chunk went to the cache: it is as
    it was, the identifier being in no member of the chunk or the entry
    having a join time; or it is a member of the chunk. *)
Lemma cache_members_lookup g members : ∀ h id,
  let h' := foldl (ChunkRequest.cache_member g) h members in
  (members_of h' g !! id = members_of h g !! id
   ∧ (id ∉ ChunkRequest.member_id <$> members
      ∨ ∃ m0, members_of h g !! id = Some m0 ∧ ChunkRequest.joined_at m0 ≠ None))
  ∨ (∃ m, m ∈ members ∧ ChunkRequest.member_id m = id
          ∧ members_of h' g !! id = Some m).
Proof.
  induction members as [|m ms IH]; intros h id; simpl.
  { left. split; [done|]. left. by intros ?%elem_of_nil. }
  pose proof (cache_member_lookup g h m id) as Hm.
  destruct (IH (ChunkRequest.cache_member g h m) id)
    as [[Heq Hwhy]|(m' & Hin & Hid & Hm')].
  2:{ right. exists m'. split; [by apply list_elem_of_further|done]. }
  rewrite Heq, Hm. case_decide as Hid.
  - destruct (members_of h g !! id) as [m0|] eqn:E0.
    + destruct (ChunkRequest.joined_at m0) eqn:Ej.
      * left. split; [done|]. right. exists m0. split; [done|]. by rewrite Ej.
      * right. exists m. split_and!; [apply list_elem_of_here|done|done].
    + right. exists m. split_and!; [apply list_elem_of_here|done|done].
  - left. split; [done|]. destruct Hwhy as [Hnin|(m0 & H0 & Hj)].
    + left. by intros [?|?]%elem_of_cons.
    + right. exists m0. split; [|done]. by rewrite Hm in H0.
Qed.

Lemma cache_members_kept g members id m0 : ∀ h,
  members_of h g !! id = Some m0 → ChunkRequest.joined_at m0 ≠ None →
  members_of (foldl (ChunkRequest.cache_member g) h members) g !! id = Some m0.
Proof.
  induction members as [|m ms IH]; intros h H0 Hj; simpl; [done|].
  apply IH; [|done]. rewrite cache_member_lookup. case_decide; [|done].
  rewrite H0. by destruct (ChunkRequest.joined_at m0).
Qed.

Lemma cache_members_other g members g' : ∀ h,
  g' ≠ g →
  ChunkRequest.guilds (foldl (ChunkRequest.cache_member g) h members) !! g'
  = ChunkRequest.guilds h !! g'.
Proof.
  induction members as [|m ms IH]; intros h Hne; simpl; [done|].
  rewrite IH by done. by apply cache_member_other.
Qed.

(** X13.  With the cache on and the guild resolved, [add_members] leaves
    in the member cache of the guild an entry for every member of the
    chunk.  An entry that has a join time is never replaced; an identifier
    whose entry is missing, or has no join time, gets a member of the chunk
    with this identifier; identifiers that are not in the chunk, and the
    other guilds, are left as they are. *)
Theorem add_members_fills_cache
    (r : ChunkRequest.t) (members : list ChunkRequest.Member)
    (h : ChunkRequest.heap) (g : nat) :
  ChunkRequest.cache r = true →
  ChunkRequest.resolver r (ChunkRequest.guild_id r) = Some g →
  let h' := ChunkRequest.add_members r members h in
  (∀ m, m ∈ members → is_Some (members_of h' g !! ChunkRequest.member_id m))
  ∧ (∀ id m0, members_of h g !! id = Some m0 →
              ChunkRequest.joined_at m0 ≠ None →
              members_of h' g !! id = Some m0)
  ∧ (∀ m, m ∈ members →
          (∀ m0, members_of h g !! ChunkRequest.member_id m = Some m0 →
                 ChunkRequest.joined_at m0 = None) →
          ∃ m', m' ∈ members
                ∧ ChunkRequest.member_id m' = ChunkRequest.member_id m
                ∧ members_of h' g !! ChunkRequest.member_id m = Some m')
  ∧ (∀ id, id ∉ ChunkRequest.member_id <$> members →
           members_of h' g !! id = members_of h g !! id)
  ∧ (∀ g', g' ≠ g → ChunkRequest.guilds h' !! g' = ChunkRequest.guilds h !! g').
Proof.
  intros Hcache Hres h'. subst h'. unfold ChunkRequest.add_members.
  rewrite Hcache, Hres.
  set (h1 := ChunkRequest.with_lists _ h).
  assert (Hsame : ∀ id, members_of h1 g !! id = members_of h g !! id) by done.
  assert (Hin : ∀ m, m ∈ members →
            ChunkRequest.member_id m ∈ ChunkRequest.member_id <$> members).
  { intros m Hm. apply list_elem_of_fmap. by exists m. }
  split_and!.
  - intros m Hm.
    destruct (cache_members_lookup g members h1 (ChunkRequest.member_id m))
      as [[Heq [Hn|(m0 & H0 & _)]]|(m' & _ & _ & ->)]; [| |by eexists].
    + by destruct Hn; apply Hin.
    + rewrite Heq, H0. by eexists.
  - intros id m0 H0 Hj. by apply cache_members_kept.
  - intros m Hm Hfree.
    destruct (cache_members_lookup g members h1 (ChunkRequest.member_id m))
      as [[Heq [Hn|(m0 & H0 & Hj)]]|(m' & Hm' & Hid & Hl)].
    + by destruct Hn; apply Hin.
    + destruct Hj. apply Hfree. by rewrite <- Hsame.
    + by exists m'.
  - intros id Hn.
    destruct (cache_members_lookup g members h1 id)
      as [[Heq _]|(m' & Hm' & Hid & _)]; [by rewrite Heq|].
    destruct Hn. rewrite <- Hid. by apply Hin.
  - intros g' Hne. by rewrite cache_members_other.
Qed.

Lemma add_members_fills_cache_witness :
  let h' := ChunkRequest.add_members Chunks.cached_request.1
              [Examples.alice; Chunks.bob_again] Chunks.cached_request.2 in
  members_of h' 0 !! 2%Z = Some Examples.bob
  ∧ is_Some (members_of h' 0 !! 1%Z).
Proof.
  intros h'.
  destruct (add_members_fills_cache Chunks.cached_request.1
              [Examples.alice; Chunks.bob_again] Chunks.cached_request.2 0
              eq_refl eq_refl) as (H1 & H2 & _).
  split.
  - apply H2; [by vm_compute|done].
  - apply (H1 Examples.alice). apply list_elem_of_here.
Defined.

(** ** [ChunkRequest.done] and the waiters *)

Lemma done_loop_settled b waiters : ∀ fs,
  (∀ f, f ∈ waiters → Future.done fs f = true) →
  ChunkRequest.done_loop b waiters fs = Ok fs.
Proof.
  induction waiters as [|f rest IH]; intros fs H; simpl; [done|].
  rewrite (H f) by apply list_elem_of_here. simpl. apply IH.
  intros g Hg. apply H. by apply list_elem_of_further.
Qed.

Lemma done_loop_guilds r h h' :
  ChunkRequest.done r h = Ok h' →
  ChunkRequest.guilds h' = ChunkRequest.guilds h.
Proof.
  unfold ChunkRequest.done. destruct (ChunkRequest.done_loop _ _ _); [|done].
  by intros [= <-].
Qed.

(** X14.  [done] does not raise and settles each future once: it leaves
    alone the futures that are done already (cancelled by their caller, or
    resolved by an earlier [done]) and those that are not waiters of the
    request, the buffer and the guilds; after it every waiter is done, and
    a second [done] changes nothing. *)
Theorem done_settles_once (r : ChunkRequest.t) (h : ChunkRequest.heap) :
  ∃ h', ChunkRequest.done r h = Ok h'
    ∧ ChunkRequest.done r h' = Ok h'
    ∧ (∀ f, f ∈ ChunkRequest.waiters r →
            Future.done (ChunkRequest.futs h') f = true)
    ∧ (∀ f, Future.done (ChunkRequest.futs h) f = true
            ∨ f ∉ ChunkRequest.waiters r →
            Future.fstate_of (ChunkRequest.futs h') f
            = Future.fstate_of (ChunkRequest.futs h) f)
    ∧ ChunkRequest.lists h' = ChunkRequest.lists h
    ∧ ChunkRequest.guilds h' = ChunkRequest.guilds h.
Proof.
  destruct (done_spec r h) as (h' & Hd & Hl & Hf). exists h'.
  assert (Hdone : ∀ f, f ∈ ChunkRequest.waiters r →
            Future.done (ChunkRequest.futs h') f = true).
  { intros f Hin. unfold Future.done at 1. rewrite Hf.
    rewrite bool_decide_eq_true_2 by done. simpl.
    destruct (Future.done (ChunkRequest.futs h) f) eqn:E; [|done].
    simpl. exact E. }
  split_and!; try done.
  - unfold ChunkRequest.done. rewrite done_loop_settled by done.
    by destruct h'.
  - intros f [Hdn|Hnin]; rewrite Hf.
    + by rewrite Hdn, andb_false_r.
    + by rewrite bool_decide_eq_false_2.
  - by eapply done_loop_guilds.
Qed.

Lemma done_settles_once_witness :
  let st := ChunkRequest.run
              [ChunkRequest.Get_future; ChunkRequest.Get_future;
               ChunkRequest.Cancel 0] Examples.request in
  ∃ h', ChunkRequest.done st.1 st.2 = Ok h'
    ∧ Future.fstate_of (ChunkRequest.futs h') 0 = Cancelled
    ∧ Future.done (ChunkRequest.futs h') 1 = true.
Proof.
  intros st.
  destruct (done_settles_once st.1 st.2) as (h' & H1 & _ & H3 & H4 & _).
  exists h'. split; [exact H1|]. split.
  - rewrite H4; [by vm_compute|]. left. by vm_compute.
  - apply H3. vm_compute. apply list_elem_of_further, list_elem_of_here.
Defined.

Lemma done_loop_dom b waiters : ∀ fs fs' g,
  ChunkRequest.done_loop b waiters fs = Ok fs' →
  is_Some (fs !! g) → is_Some (fs' !! g).
Proof.
  induction waiters as [|f rest IH]; intros fs fs' g; simpl.
  { by intros [= <-]. }
  destruct (Future.done fs f) eqn:Hd; simpl; [by apply IH|].
  unfold Future.set_result. rewrite Hd. intros H Hg. eapply IH; [done|].
  apply lookup_insert_is_Some'. by right.
Qed.

Lemma remove_first_spec f l :
  NoDup l →
  NoDup (ChunkRequest.remove_first f l)
  ∧ (f ∉ ChunkRequest.remove_first f l)
  ∧ ∀ g, g ≠ f → (g ∈ ChunkRequest.remove_first f l ↔ g ∈ l).
Proof.
  induction l as [|y l IH]; simpl; intros Hnd.
  { split_and!; [done|by intros ?%elem_of_nil|done]. }
  apply NoDup_cons in Hnd as [Hy Hnd]. destruct (IH Hnd) as (I1 & I2 & I3).
  destruct (decide (f = y)) as [->|Hne].
  - split_and!; [done|done|]. intros g Hg. rewrite elem_of_cons.
    split; [by right|]. by intros [?|?].
  - split_and!.
    + apply NoDup_cons. split; [|done]. intros Hin. apply Hy.
      by apply I3 in Hin.
    + intros [?|?]%elem_of_cons; done.
    + intros g Hg. rewrite !elem_of_cons, I3 by done. done.
Qed.

Lemma fresh_not_registered st :
  registered_once st →
  fresh (dom (ChunkRequest.futs st.2)) ∉ ChunkRequest.waiters st.1.
Proof.
  intros [_ H] Hin. apply H in Hin. apply elem_of_dom in Hin.
  by apply is_fresh in Hin.
Qed.

Lemma run_step_registered_once s st :
  registered_once st → registered_once (ChunkRequest.run_step s st).
Proof.
  intros Hst. pose proof (fresh_not_registered st Hst) as Hfresh.
  destruct st as [r h]. destruct Hst as [Hnd Hdom]. simpl in *.
  assert (Hnew : registered_once
    (ChunkRequest.with_waiters
       (ChunkRequest.waiters r ++ [fresh (dom (ChunkRequest.futs h))]) r,
     ChunkRequest.with_futs
       (<[fresh (dom (ChunkRequest.futs h)):=Pending]> (ChunkRequest.futs h))
       h)).
  { split; simpl.
    - apply NoDup_app. split_and!; [done| |apply NoDup_singleton].
      intros g Hg ->%list_elem_of_singleton. done.
    - intros g Hg. apply lookup_insert_is_Some'.
      apply elem_of_app in Hg as [Hg|Hg%list_elem_of_singleton]; auto. }
  destruct s as [ms| | |f|f v|f e|f|]; simpl.
  - destruct (add_members_heap r ms h) as [_ H2].
    split; simpl; [done|]. intros g Hg. rewrite H2. by apply Hdom.
  - exact Hnew.
  - exact Hnew.
  - split; simpl; [done|]. intros g Hg. unfold Future.cancel.
    destruct (Future.done _ f); [by apply Hdom|].
    apply lookup_insert_is_Some'. right. by apply Hdom.
  - unfold Future.set_result. destruct (Future.done _ f); [done|].
    split; simpl; [done|]. intros g Hg.
    apply lookup_insert_is_Some'. right. by apply Hdom.
  - unfold Future.set_exception. destruct (Future.done _ f); [done|].
    destruct (is_StopIteration e); [done|].
    split; simpl; [done|]. intros g Hg.
    apply lookup_insert_is_Some'. right. by apply Hdom.
  - destruct (Future.done _ f); [|done].
    destruct (remove_first_spec f _ Hnd) as (I1 & _ & _).
    split; simpl; [done|]. intros g Hg%elem_of_remove_first. by apply Hdom.
  - unfold ChunkRequest.done.
    destruct (ChunkRequest.done_loop _ _ _) as [fs'|e] eqn:E; [|done].
    split; simpl; [done|]. intros g Hg. eapply done_loop_dom; [done|].
    by apply Hdom.
Qed.

Lemma run_registered_once steps : ∀ st,
  registered_once st → registered_once (ChunkRequest.run steps st).
Proof.
  induction steps as [|s steps IH]; intros st H; [done|].
  simpl. apply IH. by apply run_step_registered_once.
Qed.

(** X15.  Whatever happened to a chunk request since its creation, no
    future is among its waiters twice; the future that [wait] or
    [get_future] registers next is none of the waiters; and the [finally]
    clause of [wait] removes the future of this call and leaves every
    other waiter registered. *)
Theorem wait_removes_its_own_future
    (guild_id : Z) (resolver : Z → option nat) (cache : bool) (nonce : string)
    (h0 : ChunkRequest.heap) (steps : list ChunkRequest.step) :
  let st := ChunkRequest.run steps
              (ChunkRequest.__init__ guild_id resolver cache nonce h0) in
  NoDup (ChunkRequest.waiters st.1)
  ∧ ((ChunkRequest.wait_register st.1 st.2).1.1 ∉ ChunkRequest.waiters st.1)
  ∧ ((ChunkRequest.get_future st.1 st.2).1.1 ∉ ChunkRequest.waiters st.1)
  ∧ ∀ f, f ∈ ChunkRequest.waiters st.1 →
         let r' := (ChunkRequest.wait_resume f st.1 st.2).1 in
         (f ∉ ChunkRequest.waiters r')
         ∧ ∀ g, g ≠ f →
                (g ∈ ChunkRequest.waiters r' ↔ g ∈ ChunkRequest.waiters st.1).
Proof.
  intros st.
  assert (Hst : registered_once st).
  { apply run_registered_once. split; simpl; [apply NoDup_nil_2|].
    by intros f ?%elem_of_nil. }
  pose proof (fresh_not_registered st Hst) as Hfresh.
  destruct Hst as [Hnd _].
  split_and!; try done.
  intros f _ r'. subst r'. simpl.
  by destruct (remove_first_spec f _ Hnd) as (_ & ? & ?).
Qed.

Lemma wait_removes_its_own_future_witness :
  let st := ChunkRequest.run
              [ChunkRequest.Get_future; ChunkRequest.Wait;
               ChunkRequest.Get_future] Examples.request in
  ChunkRequest.waiters (ChunkRequest.wait_resume 1 st.1 st.2).1 = [0; 2]
  ∧ ((1 ∉ ChunkRequest.waiters (ChunkRequest.wait_resume 1 st.1 st.2).1)
     ∧ ∀ g, g ≠ 1 →
            (g ∈ ChunkRequest.waiters (ChunkRequest.wait_resume 1 st.1 st.2).1
             ↔ g ∈ ChunkRequest.waiters st.1)).
Proof.
  intros st. split; [by vm_compute|].
  destruct (wait_removes_its_own_future 42%Z (λ _, None) true "00"
              Examples.empty_heap
              [ChunkRequest.Get_future; ChunkRequest.Wait;
               ChunkRequest.Get_future]) as (_ & _ & _ & H).
  apply (H 1). vm_compute. apply list_elem_of_further, list_elem_of_here.
Defined.

(** ** The parser table of [ConnectionState.__init__] *)

Lemma dict_get_set_eq key v d : dict_get key (ConnectionState.dict_set key v d) = Some v.
Proof.
  induction d as [|[k x] d IH]; simpl.
  - by rewrite String.eqb_refl.
  - destruct (String.eqb k key) eqn:E; simpl; by rewrite E.
Qed.

Lemma dict_get_set_ne key key' v d :
  key ≠ key' →
  dict_get key' (ConnectionState.dict_set key v d) = dict_get key' d.
Proof.
  intros Hne. induction d as [|[k x] d IH]; simpl.
  - by apply String.eqb_neq in Hne as ->.
  - destruct (String.eqb k key) eqn:E; simpl.
    + apply String.eqb_eq in E as ->. by apply String.eqb_neq in Hne as ->.
    + by rewrite IH.
Qed.

Lemma dict_set_keys key v d k :
  k ∈ (ConnectionState.dict_set key v d).*1 ↔ k = key ∨ k ∈ d.*1.
Proof.
  induction d as [|[k0 x] d IH]; csimpl.
  - rewrite list_elem_of_singleton. split; [by left|]. intros [?|H]; [done|].
    by apply elem_of_nil in H.
  - destruct (String.eqb k0 key) eqn:E; csimpl.
    + apply String.eqb_eq in E as ->. rewrite !elem_of_cons. tauto.
    + rewrite !elem_of_cons, IH. tauto.
Qed.

Lemma dict_set_NoDup key v d :
  NoDup d.*1 → NoDup (ConnectionState.dict_set key v d).*1.
Proof.
  induction d as [|[k0 x] d IH]; csimpl; intros H.
  - apply NoDup_singleton.
  - apply NoDup_cons in H as [Hk H].
    destruct (String.eqb k0 key) eqn:E; csimpl.
    + by apply NoDup_cons.
    + apply String.eqb_neq in E. apply NoDup_cons. split; [|by apply IH].
      rewrite dict_set_keys. by intros [?|?].
Qed.

Lemma filed_under_cons upper key attr func ms :
  filed_under upper key ((attr, func) :: ms)
  = (if decide (parser_key upper attr = Some key) then [func] else [])
    ++ filed_under upper key ms.
Proof. unfold filed_under. csimpl. by destruct (decide _). Qed.

Lemma parsers_fold upper key members : ∀ acc,
  NoDup acc.*1 →
  let table :=
    foldl (λ parsers '(attr, func),
             if String.prefix "parse_" attr
             then ConnectionState.dict_set
                    (upper (String.substring 6 (String.length attr - 6) attr))
                    func parsers
             else parsers) acc members in
  NoDup table.*1
  ∧ dict_get key table
    = match last (filed_under upper key members) with
      | Some func => Some func
      | None => dict_get key acc
      end.
Proof.
  induction members as [|[attr func] ms IH]; intros acc Hnd; [done|].
  cbn [foldl].
  set (acc' := if String.prefix "parse_" attr then _ else acc).
  assert (Hnd' : NoDup acc'.*1).
  { subst acc'. destruct (String.prefix "parse_" attr); [|done].
    by apply dict_set_NoDup. }
  destruct (IH acc' Hnd') as [H1 H2]. split; [done|].
  rewrite H2, filed_under_cons, last_app.
  destruct (last (filed_under upper key ms)) as [f|]; [done|].
  subst acc'. unfold parser_key.
  destruct (String.prefix "parse_" attr).
  - destruct (decide _) as [Hk|Hk].
    + injection Hk as <-. exact (dict_get_set_eq _ _ _).
    + apply dict_get_set_ne. congruence.
  - by rewrite decide_False by done.
Qed.

(** X16.  The parser table that [__init__] builds from the members of the
    instance has one entry for each key; under a key it holds the function
    of the last member whose name is [parse_] followed by a name that
    [str.upper] takes to this key, and nothing if there is no such member:
    the members without the prefix are not in the table, and of two members
    whose names [str.upper] takes to the same key only the later one is.
    This holds whatever [str.upper] does to the names. *)
Theorem parsers_keep_last_by_upper_name
    (upper : string → string) (members : list (string * pyval))
    (key : string) :
  NoDup (ConnectionState.parsers upper members).*1
  ∧ dict_get key (ConnectionState.parsers upper members)
    = last (filed_under upper key members).
Proof.
  destruct (parsers_fold upper key members [] (NoDup_nil_2)) as [H1 H2].
  split; [exact H1|]. unfold ConnectionState.parsers. rewrite H2.
  by destruct (last (filed_under upper key members)).
Qed.

(** ** The failures of [ConnectionState.__init__] *)

Lemma is_None_true v : ConnectionState.is_None v = true ↔ v = PNone.
Proof. by destruct v. Qed.

(** On a value of a built-in type a comparison with an [int] gives a truth
    value if the value is a number, and raises [TypeError] otherwise. *)
Lemma le_int_builtin v n :
  builtin v = true →
  if ordered v then ∃ b, ConnectionState.le_int v n = Ok b
  else ConnectionState.le_int v n = Raise TypeError.
Proof. destruct v as [| | | |[]| | | | |]; simpl; try done; eauto. Qed.

Lemma lt_int_builtin v n :
  builtin v = true →
  if ordered v then ∃ b, ConnectionState.lt_int v n = Ok b
  else ConnectionState.lt_int v n = Raise TypeError.
Proof. destruct v as [| | | |[]| | | | |]; simpl; try done; eauto. Qed.

(** X17.  The construction of the state manager raises nothing but what
    one of its two comparisons raises ([max_messages <= 0], made unless
    [max_messages] is [None], and [guild_ready_timeout < 0]) and the
    [ValueError] of the negative timeout.  For values of the built-in types
    that is a [TypeError], raised exactly when [max_messages] is neither
    [None] nor a number or [guild_ready_timeout] is not a number ([None],
    say).  When the comparison of [max_messages] raises, only [loop],
    [http] and [max_messages] have been assigned. *)
Theorem state_construction_failures
    (upper : string → string) (members : list (string * pyval))
    (dispatch handlers hooks http loop : pyval)
    (options : gmap string pyval) :
  let r := ConnectionState.new upper members dispatch handlers hooks http loop options in
  let max_messages := default (PInt 1000) (options !! "max_messages") in
  let timeout := default (PFloat 2) (options !! "guild_ready_timeout") in
  (∀ e, r.2 = Raise e →
        (max_messages ≠ PNone ∧ ConnectionState.le_int max_messages 0 = Raise e)
        ∨ ConnectionState.lt_int timeout 0 = Raise e
        ∨ e = ValueError "guild_ready_timeout cannot be negative")
  ∧ (builtin max_messages = true → builtin timeout = true →
     (r.2 = Raise TypeError
      ↔ (max_messages ≠ PNone ∧ ordered max_messages = false)
        ∨ ordered timeout = false)
     ∧ ∀ e, r.2 = Raise e →
            e = TypeError
            ∨ e = ValueError "guild_ready_timeout cannot be negative")
  ∧ (∀ e, max_messages ≠ PNone →
          ConnectionState.le_int max_messages 0 = Raise e →
          r = (<["max_messages" := max_messages]>
                 (<["http" := http]> (<["loop" := loop]> ∅)), Raise e)).
Proof.
  intros r max_messages timeout. subst r. rewrite new_unfold. cbv zeta.
  fold max_messages timeout.
  split_and!.
  - intros e.
    destruct (ConnectionState.is_None max_messages) eqn:Hn.
    + destruct (ConnectionState.lt_int timeout 0) as [[]|e'];
        intros [= <-]; auto.
    + assert (max_messages ≠ PNone)
        by (intros H; apply is_None_true in H; congruence).
      destruct (ConnectionState.le_int max_messages 0) as [b|e'].
      * destruct (ConnectionState.lt_int timeout 0) as [[]|e''];
          intros [= <-]; auto.
      * intros [= <-]. auto.
  - intros Hbm Hbt.
    pose proof (le_int_builtin max_messages 0 Hbm) as Hle.
    pose proof (lt_int_builtin timeout 0 Hbt) as Hlt.
    destruct (ConnectionState.is_None max_messages) eqn:Hn.
    + assert (max_messages = PNone) as Hm by by apply is_None_true.
      destruct (ordered timeout).
      * destruct Hlt as [[] ->]; simpl.
        -- split; [|intros e [= <-]; by right].
           split; [done|]. by intros [[? _]|?].
        -- split; [|done]. split; [done|]. by intros [[? _]|?].
      * rewrite Hlt. split; [|intros e [= <-]; by left].
        split; [by right|done].
    + assert (max_messages ≠ PNone) as Hm
        by (intros H; apply is_None_true in H; congruence).
      destruct (ordered max_messages).
      * destruct Hle as [b ->].
        destruct (ordered timeout).
        -- destruct Hlt as [[] ->]; simpl.
           ++ split; [|intros e [= <-]; by right].
              split; [done|]. by intros [[_ ?]|?].
           ++ split; [|done]. split; [done|]. by intros [[_ ?]|?].
        -- rewrite Hlt. split; [|intros e [= <-]; by left].
           split; [by right|done].
      * rewrite Hle. split; [|intros e [= <-]; by left].
        split; [by left|done].
  - intros e Hm He.
    destruct (ConnectionState.is_None max_messages) eqn:Hn.
    + by apply is_None_true in Hn.
    + by rewrite He.
Qed.

Lemma state_construction_failures_witness :
  (ConnectionState.new ConnectionState.ascii_upper [] PNone PNone PNone PNone
     PNone {["guild_ready_timeout" := PNone]}).2 = Raise TypeError.
Proof.
  apply (state_construction_failures ConnectionState.ascii_upper [] PNone PNone
           PNone PNone PNone {["guild_ready_timeout" := PNone]});
    [reflexivity|reflexivity|].
  right. reflexivity.
Defined.
